(** * Partially Signed Koyotecoin Transactions: merge, join, sign, finalize, analyze

    A shallow embedding of the PSKT engine of Koyotecoin Core
    ([pskt.cpp], [node/pskt.cpp], [node/pskt.h]) and of the parts of
    [rpc/rawtransaction.cpp] that drive it, followed by the properties
    derived from its specification.

    Conventions.
    - [std::map] is [gmap], [std::set] is [gset], [std::vector] is [list],
      [std::optional] and [CTransactionRef] are [option].
    - A C++ operation that indexes a vector out of range ([operator[]],
      [.at()]) or dereferences an empty [std::optional] has no defined
      result; the embedding returns [None] there.  A function that can
      reach such an access therefore has type [option _], and [Some] means
      that the C++ function ran to its [return].
    - Code of the repository that the embedded functions call but that is
      defined elsewhere (transaction hashing, key hashing, the script signer,
      the money range, the weight formula) is collected in type classes. *)

From Stdlib Require Import ZArith List Permutation.
From stdpp Require Import base option list gmap sets strings pretty.

Local Open Scope Z_scope.

(* ===================================================================== *)
(** ** Byte strings and hashes *)
(* ===================================================================== *)

Abbreviation byte := Byte.byte.

#[global] Instance byte_eq_dec : EqDecision byte.
Proof.
  intros x y. destruct (Byte.eqb x y) eqn:E.
  - left. by apply Byte.byte_dec_bl.
  - right. intros ->. by rewrite (Byte.byte_dec_lb eq_refl) in E.
Defined.

#[global] Instance byte_countable : Countable byte.
Proof.
  refine (inj_countable' Byte.to_N (λ n, default Byte.x00 (Byte.of_N n)) _).
  intros x. by rewrite Byte.of_to_N.
Defined.

(** [std::vector<unsigned char>] *)
Abbreviation bytes := (list byte).

(** [uint256] and [uint160]: opaque blobs, modelled by their numeric value;
    [IsNull] is "all bits zero". *)
Abbreviation uint256 := N.
Abbreviation uint160 := N.

Module uint.
Definition IsNull (h : N) : bool := N.eqb h 0.
End uint.

(** [CScript]: a byte vector; [empty()] is the emptiness test of the vector
    (the same test is used on every [std::vector] below). *)
Abbreviation CScript := bytes.
Definition is_empty {A} (v : list A) : bool :=
  match v with [] => true | _ :: _ => false end.

(** [CScriptWitness]: [IsNull] is [stack.empty()]. *)
Module CScriptWitness.
Record t := { stack : list bytes }.
#[global] Instance eq_dec : EqDecision t.
Proof. solve_decision. Defined.
Definition IsNull (w : t) : bool := is_empty (stack w).
Definition Null : t := {| stack := [] |}.
End CScriptWitness.

(** [CAmount] is [int64_t]. *)
Abbreviation CAmount := Z.

(* ===================================================================== *)
(** ** Transaction primitives ([primitives/transaction.h]) *)
(* ===================================================================== *)

Module COutPoint.
Record t := { hash : uint256; n : N }.
#[global] Instance eq_dec : EqDecision t.
Proof. solve_decision. Defined.
End COutPoint.

(** [CTxOut]; the null output has [nValue == -1]. *)
Module CTxOut.
Record t := { nValue : CAmount; scriptPubKey : CScript }.
#[global] Instance eq_dec : EqDecision t.
Proof. solve_decision. Defined.
Definition IsNull (o : t) : bool := Z.eqb (nValue o) (-1).
Definition Null : t := {| nValue := -1; scriptPubKey := [] |}.
End CTxOut.

Module CTxIn.
Record t := {
  prevout : COutPoint.t;
  scriptSig : CScript;
  nSequence : N;
  scriptWitness : CScriptWitness.t }.
#[global] Instance eq_dec : EqDecision t.
Proof. solve_decision. Defined.

(** [CTxIn::operator==] of [primitives/transaction.h], the comparison
    [std::find] applies to the elements of [tx->vin]: it compares
    [prevout], [scriptSig] and [nSequence] (the witness is not part of
    it). *)
Definition eqb (a b : t) : bool :=
  bool_decide (prevout a = prevout b) &&
  bool_decide (scriptSig a = scriptSig b) &&
  bool_decide (nSequence a = nSequence b).
End CTxIn.

Module CMutableTransaction.
Record t := {
  vin : list CTxIn.t;
  vout : list CTxOut.t;
  nVersion : Z;
  nLockTime : N }.
#[global] Instance eq_dec : EqDecision t.
Proof. solve_decision. Defined.
End CMutableTransaction.

(** [GetHash()] of a transaction (the txid), computed by code outside the
    PSKT engine. *)
Class TxHasher := GetHash : CMutableTransaction.t → uint256.

(* ===================================================================== *)
(** ** Keys *)
(* ===================================================================== *)

Abbreviation CPubKey := bytes.
Abbreviation CKeyID := uint160.
Abbreviation XOnlyPubKey := uint256.

(** [CPubKey::GetID()]: the HASH160 of the serialized key. *)
Class KeyHasher := GetID : CPubKey → CKeyID.

Module KeyOriginInfo.
Record t := { fingerprint : bytes; path : list N }.
#[global] Instance eq_dec : EqDecision t.
Proof. solve_decision. Defined.
#[global] Instance countable : Countable t.
Proof.
  refine (inj_countable' (λ k, (fingerprint k, path k))
            (λ p, {| fingerprint := p.1; path := p.2 |}) _).
  by intros [].
Defined.
End KeyOriginInfo.

(** [CExtPubKey], kept as its 74-byte BIP32 serialization. *)
Abbreviation CExtPubKey := bytes.

(** [SigPair]: a public key with a signature made by it. *)
Abbreviation SigPair := (CPubKey * bytes)%type.

Module PSKTProprietary.
Record t := {
  subtype : N; identifier : bytes; key : bytes; value : bytes }.
#[global] Instance eq_dec : EqDecision t.
Proof. solve_decision. Defined.
#[global] Instance countable : Countable t.
Proof.
  refine (inj_countable' (λ k, (subtype k, identifier k, key k, value k))
            (λ p, {| subtype := p.1.1.1; identifier := p.1.1.2;
                     key := p.1.2; value := p.2 |}) _).
  by intros [].
Defined.
End PSKTProprietary.

(* ===================================================================== *)
(** ** Field combiners shared by the merges *)
(* ===================================================================== *)

(** [m.insert(other.begin(), other.end())] on a [std::map]: every key of
    [other] that [m] lacks is added; a key [m] already holds keeps [m]'s
    value.  This is the left-biased union of [gmap]. *)
Definition insert_range `{Countable K} {V} (m other : gmap K V) : gmap K V :=
  m ∪ other.

(** [m.emplace(k, v)]: inserts only when [k] is absent. *)
Definition emplace `{Countable K} {V} (k : K) (v : V) (m : gmap K V) : gmap K V :=
  match m !! k with
  | Some _ => m
  | None => <[k := v]> m
  end.

(** [if (x.empty() && !y.empty()) x = y;] for scripts and byte vectors. *)
Definition fill_empty {A} (x y : list A) : list A :=
  if is_empty x && negb (is_empty y) then y else x.

(** [if (x.IsNull() && !y.IsNull()) x = y;] for [uint256]-like blobs. *)
Definition fill_null (x y : N) : N :=
  if uint.IsNull x && negb (uint.IsNull y) then y else x.

(* ===================================================================== *)
(** ** SignatureData ([script/sign.h]) *)
(* ===================================================================== *)

Module TaprootSpendData.
Record t := {
  internal_key : XOnlyPubKey;
  merkle_root : uint256;
  scripts : gmap (CScript * Z) (gset bytes) }.
Definition default : t :=
  {| internal_key := 0%N; merkle_root := 0%N; scripts := ∅ |}.
End TaprootSpendData.

Module SignatureData.
Record t := {
  complete : bool;
  witness : bool;
  scriptSig : CScript;
  scriptWitness : CScriptWitness.t;
  signatures : gmap CKeyID SigPair;
  redeem_script : CScript;
  witness_script : CScript;
  misc_pubkeys : gmap CKeyID (CPubKey * KeyOriginInfo.t);
  taproot_key_path_sig : bytes;
  taproot_script_sigs : gmap (XOnlyPubKey * uint256) bytes;
  tr_spenddata : TaprootSpendData.t;
  taproot_misc_pubkeys : gmap XOnlyPubKey (gset uint256 * KeyOriginInfo.t);
  missing_pubkeys : list CKeyID;
  missing_sigs : list CKeyID;
  missing_redeem_script : uint160;
  missing_witness_script : uint256 }.

(** The default-constructed [SignatureData]. *)
Definition default : t :=
  {| complete := false; witness := false;
     scriptSig := []; scriptWitness := CScriptWitness.Null;
     signatures := ∅; redeem_script := []; witness_script := [];
     misc_pubkeys := ∅; taproot_key_path_sig := [];
     taproot_script_sigs := ∅; tr_spenddata := TaprootSpendData.default;
     taproot_misc_pubkeys := ∅;
     missing_pubkeys := []; missing_sigs := [];
     missing_redeem_script := 0%N; missing_witness_script := 0%N |}.
(** [sigdata.scriptSig = s; sigdata.complete = true;] *)
Definition set_final_scriptSig (s : CScript) (d : t) : t :=
  {| complete := true; scriptSig := s;
     witness := witness d; scriptWitness := scriptWitness d;
     signatures := signatures d; redeem_script := redeem_script d;
     witness_script := witness_script d; misc_pubkeys := misc_pubkeys d;
     taproot_key_path_sig := taproot_key_path_sig d;
     taproot_script_sigs := taproot_script_sigs d;
     tr_spenddata := tr_spenddata d;
     taproot_misc_pubkeys := taproot_misc_pubkeys d;
     missing_pubkeys := missing_pubkeys d; missing_sigs := missing_sigs d;
     missing_redeem_script := missing_redeem_script d;
     missing_witness_script := missing_witness_script d |}.

(** [sigdata.scriptWitness = w; sigdata.complete = true;] *)
Definition set_final_scriptWitness (w : CScriptWitness.t) (d : t) : t :=
  {| complete := true; scriptWitness := w;
     witness := witness d; scriptSig := scriptSig d;
     signatures := signatures d; redeem_script := redeem_script d;
     witness_script := witness_script d; misc_pubkeys := misc_pubkeys d;
     taproot_key_path_sig := taproot_key_path_sig d;
     taproot_script_sigs := taproot_script_sigs d;
     tr_spenddata := tr_spenddata d;
     taproot_misc_pubkeys := taproot_misc_pubkeys d;
     missing_pubkeys := missing_pubkeys d; missing_sigs := missing_sigs d;
     missing_redeem_script := missing_redeem_script d;
     missing_witness_script := missing_witness_script d |}.

(** [sigdata.complete = b;] *)
Definition set_complete (b : bool) (d : t) : t :=
  {| complete := b;
     witness := witness d; scriptSig := scriptSig d;
     scriptWitness := scriptWitness d;
     signatures := signatures d; redeem_script := redeem_script d;
     witness_script := witness_script d; misc_pubkeys := misc_pubkeys d;
     taproot_key_path_sig := taproot_key_path_sig d;
     taproot_script_sigs := taproot_script_sigs d;
     tr_spenddata := tr_spenddata d;
     taproot_misc_pubkeys := taproot_misc_pubkeys d;
     missing_pubkeys := missing_pubkeys d; missing_sigs := missing_sigs d;
     missing_redeem_script := missing_redeem_script d;
     missing_witness_script := missing_witness_script d |}.

(** [sigdata.witness = b;] *)
Definition set_witness (b : bool) (d : t) : t :=
  {| witness := b;
     complete := complete d; scriptSig := scriptSig d;
     scriptWitness := scriptWitness d;
     signatures := signatures d; redeem_script := redeem_script d;
     witness_script := witness_script d; misc_pubkeys := misc_pubkeys d;
     taproot_key_path_sig := taproot_key_path_sig d;
     taproot_script_sigs := taproot_script_sigs d;
     tr_spenddata := tr_spenddata d;
     taproot_misc_pubkeys := taproot_misc_pubkeys d;
     missing_pubkeys := missing_pubkeys d; missing_sigs := missing_sigs d;
     missing_redeem_script := missing_redeem_script d;
     missing_witness_script := missing_witness_script d |}.

(** The four "missing" reports copied out by [SignPSKTInput]:
    [out->missing_* = sigdata.missing_*]. *)
Definition copy_missing (from out : t) : t :=
  {| missing_pubkeys := missing_pubkeys from;
     missing_sigs := missing_sigs from;
     missing_redeem_script := missing_redeem_script from;
     missing_witness_script := missing_witness_script from;
     complete := complete out; witness := witness out;
     scriptSig := scriptSig out; scriptWitness := scriptWitness out;
     signatures := signatures out; redeem_script := redeem_script out;
     witness_script := witness_script out; misc_pubkeys := misc_pubkeys out;
     taproot_key_path_sig := taproot_key_path_sig out;
     taproot_script_sigs := taproot_script_sigs out;
     tr_spenddata := tr_spenddata out;
     taproot_misc_pubkeys := taproot_misc_pubkeys out |}.
End SignatureData.

(* ===================================================================== *)
(** ** PSKTInput ([pskt.h], [pskt.cpp]) *)
(* ===================================================================== *)

Module PSKTInput.
Record t := {
  non_witness_utxo : option CMutableTransaction.t;
  witness_utxo : CTxOut.t;
  redeem_script : CScript;
  witness_script : CScript;
  final_script_sig : CScript;
  final_script_witness : CScriptWitness.t;
  hd_keypaths : gmap CPubKey KeyOriginInfo.t;
  partial_sigs : gmap CKeyID SigPair;
  ripemd160_preimages : gmap uint160 bytes;
  sha256_preimages : gmap uint256 bytes;
  hash160_preimages : gmap uint160 bytes;
  hash256_preimages : gmap uint256 bytes;
  m_tap_key_sig : bytes;
  m_tap_script_sigs : gmap (XOnlyPubKey * uint256) bytes;
  m_tap_scripts : gmap (CScript * Z) (gset bytes);
  m_tap_bip32_paths : gmap XOnlyPubKey (gset uint256 * KeyOriginInfo.t);
  m_tap_internal_key : XOnlyPubKey;
  m_tap_merkle_root : uint256;
  unknown : gmap bytes bytes;
  m_proprietary : gset PSKTProprietary.t;
  sighash_type : option Z }.

(** The default-constructed [PSKTInput()]. *)
Definition default : t :=
  {| non_witness_utxo := None; witness_utxo := CTxOut.Null;
     redeem_script := []; witness_script := [];
     final_script_sig := []; final_script_witness := CScriptWitness.Null;
     hd_keypaths := ∅; partial_sigs := ∅;
     ripemd160_preimages := ∅; sha256_preimages := ∅;
     hash160_preimages := ∅; hash256_preimages := ∅;
     m_tap_key_sig := []; m_tap_script_sigs := ∅; m_tap_scripts := ∅;
     m_tap_bip32_paths := ∅; m_tap_internal_key := 0%N;
     m_tap_merkle_root := 0%N; unknown := ∅; m_proprietary := ∅;
     sighash_type := None |}.

Definition IsNull (i : t) : bool :=
  negb (bool_decide (is_Some (non_witness_utxo i))) &&
  CTxOut.IsNull (witness_utxo i) &&
  bool_decide (partial_sigs i = ∅) && bool_decide (unknown i = ∅) &&
  bool_decide (hd_keypaths i = ∅) &&
  is_empty (redeem_script i) && is_empty (witness_script i).

(** [PSKTInput::Merge(const PSKTInput& input)]: returns the merged [this]. *)
Definition Merge (this input : t) : t :=
  {| non_witness_utxo :=
       match non_witness_utxo this, non_witness_utxo input with
       | None, Some u => Some u
       | mine, _ => mine
       end;
     witness_utxo :=
       if CTxOut.IsNull (witness_utxo this) &&
          negb (CTxOut.IsNull (witness_utxo input))
       then witness_utxo input else witness_utxo this;
     partial_sigs := insert_range (partial_sigs this) (partial_sigs input);
     ripemd160_preimages :=
       insert_range (ripemd160_preimages this) (ripemd160_preimages input);
     sha256_preimages :=
       insert_range (sha256_preimages this) (sha256_preimages input);
     hash160_preimages :=
       insert_range (hash160_preimages this) (hash160_preimages input);
     hash256_preimages :=
       insert_range (hash256_preimages this) (hash256_preimages input);
     hd_keypaths := insert_range (hd_keypaths this) (hd_keypaths input);
     unknown := insert_range (unknown this) (unknown input);
     m_tap_script_sigs :=
       insert_range (m_tap_script_sigs this) (m_tap_script_sigs input);
     m_tap_scripts := insert_range (m_tap_scripts this) (m_tap_scripts input);
     m_tap_bip32_paths :=
       insert_range (m_tap_bip32_paths this) (m_tap_bip32_paths input);
     redeem_script := fill_empty (redeem_script this) (redeem_script input);
     witness_script := fill_empty (witness_script this) (witness_script input);
     final_script_sig :=
       fill_empty (final_script_sig this) (final_script_sig input);
     final_script_witness :=
       if CScriptWitness.IsNull (final_script_witness this) &&
          negb (CScriptWitness.IsNull (final_script_witness input))
       then final_script_witness input else final_script_witness this;
     m_tap_key_sig := fill_empty (m_tap_key_sig this) (m_tap_key_sig input);
     m_tap_internal_key :=
       fill_null (m_tap_internal_key this) (m_tap_internal_key input);
     m_tap_merkle_root :=
       fill_null (m_tap_merkle_root this) (m_tap_merkle_root input);
     (* not touched by Merge *)
     m_proprietary := m_proprietary this;
     sighash_type := sighash_type this |}.

(** [psktin.partial_sigs.clear(); psktin.final_script_sig.clear();
    psktin.final_script_witness.SetNull();] as done by [AddInput]. *)
Definition clear_signatures (i : t) : t :=
  {| partial_sigs := ∅;
     final_script_sig := [];
     final_script_witness := CScriptWitness.Null;
     non_witness_utxo := non_witness_utxo i; witness_utxo := witness_utxo i;
     redeem_script := redeem_script i; witness_script := witness_script i;
     hd_keypaths := hd_keypaths i;
     ripemd160_preimages := ripemd160_preimages i;
     sha256_preimages := sha256_preimages i;
     hash160_preimages := hash160_preimages i;
     hash256_preimages := hash256_preimages i;
     m_tap_key_sig := m_tap_key_sig i;
     m_tap_script_sigs := m_tap_script_sigs i;
     m_tap_scripts := m_tap_scripts i;
     m_tap_bip32_paths := m_tap_bip32_paths i;
     m_tap_internal_key := m_tap_internal_key i;
     m_tap_merkle_root := m_tap_merkle_root i;
     unknown := unknown i; m_proprietary := m_proprietary i;
     sighash_type := sighash_type i |}.

(** [input.witness_utxo = utxo;] *)
Definition set_witness_utxo (utxo : CTxOut.t) (i : t) : t :=
  {| witness_utxo := utxo;
     non_witness_utxo := non_witness_utxo i;
     redeem_script := redeem_script i; witness_script := witness_script i;
     final_script_sig := final_script_sig i;
     final_script_witness := final_script_witness i;
     hd_keypaths := hd_keypaths i; partial_sigs := partial_sigs i;
     ripemd160_preimages := ripemd160_preimages i;
     sha256_preimages := sha256_preimages i;
     hash160_preimages := hash160_preimages i;
     hash256_preimages := hash256_preimages i;
     m_tap_key_sig := m_tap_key_sig i;
     m_tap_script_sigs := m_tap_script_sigs i;
     m_tap_scripts := m_tap_scripts i;
     m_tap_bip32_paths := m_tap_bip32_paths i;
     m_tap_internal_key := m_tap_internal_key i;
     m_tap_merkle_root := m_tap_merkle_root i;
     unknown := unknown i; m_proprietary := m_proprietary i;
     sighash_type := sighash_type i |}.
(** [PSKTInput::FillSignatureData(SignatureData& sigdata) const]: returns
    the updated [sigdata].  The loop over [hd_keypaths] visits the map in
    key order and emplaces under [GetID] of the key; the visiting order
    only matters if two public keys of one input share a key id. *)
Definition FillSignatureData `{KeyHasher} (this : t) (sigdata : SignatureData.t)
  : SignatureData.t :=
  let sd1 := if negb (is_empty (final_script_sig this))
             then SignatureData.set_final_scriptSig (final_script_sig this) sigdata
             else sigdata in
  let sd2 := if negb (CScriptWitness.IsNull (final_script_witness this))
             then SignatureData.set_final_scriptWitness (final_script_witness this) sd1
             else sd1 in
  if SignatureData.complete sd2 then sd2 else
  {| SignatureData.complete := SignatureData.complete sd2;
     SignatureData.witness := SignatureData.witness sd2;
     SignatureData.scriptSig := SignatureData.scriptSig sd2;
     SignatureData.scriptWitness := SignatureData.scriptWitness sd2;
     SignatureData.signatures :=
       insert_range (SignatureData.signatures sd2) (partial_sigs this);
     SignatureData.redeem_script :=
       if negb (is_empty (redeem_script this)) then redeem_script this
       else SignatureData.redeem_script sd2;
     SignatureData.witness_script :=
       if negb (is_empty (witness_script this)) then witness_script this
       else SignatureData.witness_script sd2;
     SignatureData.misc_pubkeys :=
       map_fold (λ pk origin acc, emplace (GetID pk) (pk, origin) acc)
                (SignatureData.misc_pubkeys sd2) (hd_keypaths this);
     SignatureData.taproot_key_path_sig :=
       if negb (is_empty (m_tap_key_sig this)) then m_tap_key_sig this
       else SignatureData.taproot_key_path_sig sd2;
     SignatureData.taproot_script_sigs :=
       insert_range (SignatureData.taproot_script_sigs sd2) (m_tap_script_sigs this);
     SignatureData.tr_spenddata :=
       let sp := SignatureData.tr_spenddata sd2 in
       {| TaprootSpendData.internal_key :=
            if negb (uint.IsNull (m_tap_internal_key this))
            then m_tap_internal_key this else TaprootSpendData.internal_key sp;
          TaprootSpendData.merkle_root :=
            if negb (uint.IsNull (m_tap_merkle_root this))
            then m_tap_merkle_root this else TaprootSpendData.merkle_root sp;
          TaprootSpendData.scripts :=
            insert_range (TaprootSpendData.scripts sp) (m_tap_scripts this) |};
     SignatureData.taproot_misc_pubkeys :=
       insert_range (SignatureData.taproot_misc_pubkeys sd2) (m_tap_bip32_paths this);
     SignatureData.missing_pubkeys := SignatureData.missing_pubkeys sd2;
     SignatureData.missing_sigs := SignatureData.missing_sigs sd2;
     SignatureData.missing_redeem_script := SignatureData.missing_redeem_script sd2;
     SignatureData.missing_witness_script := SignatureData.missing_witness_script sd2 |}.

(** [PSKTInput::FromSignatureData(const SignatureData& sigdata)]: returns
    the updated [this]. *)
Definition FromSignatureData (this : t) (sigdata : SignatureData.t) : t :=
  if SignatureData.complete sigdata then
    {| partial_sigs := ∅; hd_keypaths := ∅;
       redeem_script := []; witness_script := [];
       final_script_sig :=
         if negb (is_empty (SignatureData.scriptSig sigdata))
         then SignatureData.scriptSig sigdata else final_script_sig this;
       final_script_witness :=
         if negb (CScriptWitness.IsNull (SignatureData.scriptWitness sigdata))
         then SignatureData.scriptWitness sigdata else final_script_witness this;
       non_witness_utxo := non_witness_utxo this;
       witness_utxo := witness_utxo this;
       ripemd160_preimages := ripemd160_preimages this;
       sha256_preimages := sha256_preimages this;
       hash160_preimages := hash160_preimages this;
       hash256_preimages := hash256_preimages this;
       m_tap_key_sig := m_tap_key_sig this;
       m_tap_script_sigs := m_tap_script_sigs this;
       m_tap_scripts := m_tap_scripts this;
       m_tap_bip32_paths := m_tap_bip32_paths this;
       m_tap_internal_key := m_tap_internal_key this;
       m_tap_merkle_root := m_tap_merkle_root this;
       unknown := unknown this; m_proprietary := m_proprietary this;
       sighash_type := sighash_type this |}
  else
    let sp := SignatureData.tr_spenddata sigdata in
    {| partial_sigs :=
         insert_range (partial_sigs this) (SignatureData.signatures sigdata);
       redeem_script :=
         fill_empty (redeem_script this) (SignatureData.redeem_script sigdata);
       witness_script :=
         fill_empty (witness_script this) (SignatureData.witness_script sigdata);
       hd_keypaths :=
         map_fold (λ _ entry acc, emplace entry.1 entry.2 acc)
                  (hd_keypaths this) (SignatureData.misc_pubkeys sigdata);
       m_tap_key_sig :=
         if negb (is_empty (SignatureData.taproot_key_path_sig sigdata))
         then SignatureData.taproot_key_path_sig sigdata else m_tap_key_sig this;
       m_tap_script_sigs :=
         insert_range (m_tap_script_sigs this)
                      (SignatureData.taproot_script_sigs sigdata);
       m_tap_internal_key :=
         if negb (uint.IsNull (TaprootSpendData.internal_key sp))
         then TaprootSpendData.internal_key sp else m_tap_internal_key this;
       m_tap_merkle_root :=
         if negb (uint.IsNull (TaprootSpendData.merkle_root sp))
         then TaprootSpendData.merkle_root sp else m_tap_merkle_root this;
       m_tap_scripts :=
         insert_range (m_tap_scripts this) (TaprootSpendData.scripts sp);
       m_tap_bip32_paths :=
         insert_range (m_tap_bip32_paths this)
                      (SignatureData.taproot_misc_pubkeys sigdata);
       final_script_sig := final_script_sig this;
       final_script_witness := final_script_witness this;
       non_witness_utxo := non_witness_utxo this;
       witness_utxo := witness_utxo this;
       ripemd160_preimages := ripemd160_preimages this;
       sha256_preimages := sha256_preimages this;
       hash160_preimages := hash160_preimages this;
       hash256_preimages := hash256_preimages this;
       unknown := unknown this; m_proprietary := m_proprietary this;
       sighash_type := sighash_type this |}.
End PSKTInput.

(** [PSKTInputSigned]: the input carries a final scriptSig or witness. *)
Definition PSKTInputSigned (input : PSKTInput.t) : bool :=
  negb (is_empty (PSKTInput.final_script_sig input)) ||
  negb (CScriptWitness.IsNull (PSKTInput.final_script_witness input)).

(* ===================================================================== *)
(** ** PSKTOutput *)
(* ===================================================================== *)

Module PSKTOutput.
Record t := {
  redeem_script : CScript;
  witness_script : CScript;
  hd_keypaths : gmap CPubKey KeyOriginInfo.t;
  m_tap_internal_key : XOnlyPubKey;
  m_tap_tree : list (N * N * CScript);
  m_tap_bip32_paths : gmap XOnlyPubKey (gset uint256 * KeyOriginInfo.t);
  unknown : gmap bytes bytes;
  m_proprietary : gset PSKTProprietary.t }.

(** The default-constructed [PSKTOutput()]. *)
Definition default : t :=
  {| redeem_script := []; witness_script := []; hd_keypaths := ∅;
     m_tap_internal_key := 0%N; m_tap_tree := []; m_tap_bip32_paths := ∅;
     unknown := ∅; m_proprietary := ∅ |}.

Definition IsNull (o : t) : bool :=
  is_empty (redeem_script o) && is_empty (witness_script o) &&
  bool_decide (hd_keypaths o = ∅) && bool_decide (unknown o = ∅).

(** [PSKTOutput::Merge(const PSKTOutput& output)]: returns the merged [this]. *)
Definition Merge (this output : t) : t :=
  {| hd_keypaths := insert_range (hd_keypaths this) (hd_keypaths output);
     unknown := insert_range (unknown this) (unknown output);
     m_tap_bip32_paths :=
       insert_range (m_tap_bip32_paths this) (m_tap_bip32_paths output);
     redeem_script := fill_empty (redeem_script this) (redeem_script output);
     witness_script := fill_empty (witness_script this) (witness_script output);
     m_tap_internal_key :=
       fill_null (m_tap_internal_key this) (m_tap_internal_key output);
     m_tap_tree := fill_empty (m_tap_tree this) (m_tap_tree output);
     (* not touched by Merge *)
     m_proprietary := m_proprietary this |}.
End PSKTOutput.

(* ===================================================================== *)
(** ** PartiallySignedTransaction *)
(* ===================================================================== *)

(** [for (i = 0; i < mine.size(); ++i) mine[i].Merge(theirs[i]);]
    The loop runs over the indices of [mine] and reads [theirs] at each of
    them with [operator[]]; it is undefined as soon as [theirs] is shorter. *)
Fixpoint merge_each {A} (f : A → A → A) (mine theirs : list A) : option (list A) :=
  match mine, theirs with
  | [], _ => Some []
  | x :: xs, y :: ys => rest ← merge_each f xs ys; Some (f x y :: rest)
  | _ :: _, [] => None
  end.

(** The loop of [Merge] (and of [joinpskts]) over the other side's global
    xpubs: a new key origin is copied with its set of keys, a known one has
    the other side's keys inserted into its set. *)
Definition merge_xpubs (mine theirs : gmap KeyOriginInfo.t (gset CExtPubKey))
  : gmap KeyOriginInfo.t (gset CExtPubKey) :=
  map_fold (λ origin keys acc,
              match acc !! origin with
              | None => <[origin := keys]> acc
              | Some known => <[origin := known ∪ keys]> acc
              end) mine theirs.

Module PartiallySignedTransaction.
Record t := {
  tx : option CMutableTransaction.t;
  m_xpubs : gmap KeyOriginInfo.t (gset CExtPubKey);
  inputs : list PSKTInput.t;
  outputs : list PSKTOutput.t;
  unknown : gmap bytes bytes;
  m_version : option N;
  m_proprietary : gset PSKTProprietary.t }.

(** The default-constructed PSKT. *)
Definition default : t :=
  {| tx := None; m_xpubs := ∅; inputs := []; outputs := [];
     unknown := ∅; m_version := None; m_proprietary := ∅ |}.

(** [PartiallySignedTransaction(const CMutableTransaction& tx)] *)
Definition from_tx (t0 : CMutableTransaction.t) : t :=
  {| tx := Some t0; m_xpubs := ∅;
     inputs := replicate (length (CMutableTransaction.vin t0)) PSKTInput.default;
     outputs := replicate (length (CMutableTransaction.vout t0)) PSKTOutput.default;
     unknown := ∅; m_version := None; m_proprietary := ∅ |}.

Definition IsNull (p : t) : bool :=
  negb (bool_decide (is_Some (tx p))) && is_empty (inputs p) &&
  is_empty (outputs p) && bool_decide (unknown p = ∅).

(** [bool Merge(const PartiallySignedTransaction& pskt)]: the returned pair
    is the boolean result and [this] after the call. *)
Definition Merge `{TxHasher} (this pskt : t) : option (bool * t) :=
  my_tx ← tx this;
  their_tx ← tx pskt;
  if bool_decide (GetHash my_tx ≠ GetHash their_tx) then Some (false, this)
  else
    ins ← merge_each PSKTInput.Merge (inputs this) (inputs pskt);
    outs ← merge_each PSKTOutput.Merge (outputs this) (outputs pskt);
    Some (true,
          {| tx := tx this;
             inputs := ins;
             outputs := outs;
             m_xpubs := merge_xpubs (m_xpubs this) (m_xpubs pskt);
             unknown := insert_range (unknown this) (unknown pskt);
             (* not touched by Merge *)
             m_version := m_version this;
             m_proprietary := m_proprietary this |}).

(** [bool AddInput(const CTxIn& txin, PSKTInput& psktin)]: the result holds
    the boolean, [this] after the call and the caller's [psktin] after the
    call (it is passed by reference and cleared in place). *)
Definition AddInput (this : t) (txin : CTxIn.t) (psktin : PSKTInput.t)
  : option (bool * t * PSKTInput.t) :=
  my_tx ← tx this;
  if existsb (λ old, CTxIn.eqb old txin) (CMutableTransaction.vin my_tx)
  then Some (false, this, psktin)
  else
    let psktin' := PSKTInput.clear_signatures psktin in
    Some (true,
          {| tx := Some {| CMutableTransaction.vin :=
                             CMutableTransaction.vin my_tx ++ [txin];
                           CMutableTransaction.vout := CMutableTransaction.vout my_tx;
                           CMutableTransaction.nVersion := CMutableTransaction.nVersion my_tx;
                           CMutableTransaction.nLockTime := CMutableTransaction.nLockTime my_tx |};
             inputs := inputs this ++ [psktin'];
             outputs := outputs this; m_xpubs := m_xpubs this;
             unknown := unknown this; m_version := m_version this;
             m_proprietary := m_proprietary this |},
          psktin').

(** [bool AddOutput(const CTxOut& txout, const PSKTOutput& psktout)] *)
Definition AddOutput (this : t) (txout : CTxOut.t) (psktout : PSKTOutput.t)
  : option (bool * t) :=
  my_tx ← tx this;
  Some (true,
        {| tx := Some {| CMutableTransaction.vout :=
                           CMutableTransaction.vout my_tx ++ [txout];
                         CMutableTransaction.vin := CMutableTransaction.vin my_tx;
                         CMutableTransaction.nVersion := CMutableTransaction.nVersion my_tx;
                         CMutableTransaction.nLockTime := CMutableTransaction.nLockTime my_tx |};
           outputs := outputs this ++ [psktout];
           inputs := inputs this; m_xpubs := m_xpubs this;
           unknown := unknown this; m_version := m_version this;
           m_proprietary := m_proprietary this |}).

(** [bool GetInputUTXO(CTxOut& utxo, int input_index) const]: the result is
    the boolean and the out-parameter [utxo] after the call (it is written
    only on success). *)
Definition GetInputUTXO `{TxHasher} (this : t) (utxo : CTxOut.t) (input_index : nat)
  : option (bool * CTxOut.t) :=
  input ← inputs this !! input_index;
  my_tx ← tx this;
  txin ← CMutableTransaction.vin my_tx !! input_index;
  let prevout_index := COutPoint.n (CTxIn.prevout txin) in
  match PSKTInput.non_witness_utxo input with
  | Some prev =>
      if (N.of_nat (length (CMutableTransaction.vout prev)) <=? prevout_index)%N
      then Some (false, utxo)
      else if bool_decide (GetHash prev ≠ COutPoint.hash (CTxIn.prevout txin))
      then Some (false, utxo)
      else out ← CMutableTransaction.vout prev !! N.to_nat prevout_index;
           Some (true, out)
  | None =>
      if negb (CTxOut.IsNull (PSKTInput.witness_utxo input))
      then Some (true, PSKTInput.witness_utxo input)
      else Some (false, utxo)
  end.

(** [uint32_t GetVersion() const] *)
Definition GetVersion (p : t) : N :=
  match m_version p with Some v => v | None => 0%N end.
End PartiallySignedTransaction.

(** [size_t CountPSKTUnsignedInputs(const PartiallySignedTransaction&)] *)
Definition CountPSKTUnsignedInputs (pskt : PartiallySignedTransaction.t) : nat :=
  length (filter (λ i, PSKTInputSigned i = false) (PartiallySignedTransaction.inputs pskt)).

(* ===================================================================== *)
(** ** The script signer ([script/sign.h]) *)
(* ===================================================================== *)

(** [PrecomputedTransactionData], as far as this code builds it: the
    arguments of its [Init(tx, spent_outputs, force)]. *)
Module PrecomputedTransactionData.
Record t := {
  tx : CMutableTransaction.t;
  spent_outputs : list CTxOut.t;
  force : bool }.
Definition Init (tx : CMutableTransaction.t) (spent_outputs : list CTxOut.t)
  (force : bool) : t :=
  {| tx := tx; spent_outputs := spent_outputs; force := force |}.
End PrecomputedTransactionData.

(** The two signature creators handed to [ProduceSignature]:
    [DUMMY_SIGNATURE_CREATOR] and
    [MutableTransactionSignatureCreator(tx, index, amount, txdata, sighash)]. *)
Inductive BaseSignatureCreator :=
  | DUMMY_SIGNATURE_CREATOR
  | MutableTransactionSignatureCreator
      (tx : CMutableTransaction.t) (input_idx : nat) (amount : CAmount)
      (txdata : PrecomputedTransactionData.t) (sighash : Z).

(** The signing interface: providers and [ProduceSignature], which returns
    its boolean together with the [sigdata] it updated in place. *)
Class ScriptSigner := {
  SigningProvider : Type;
  DUMMY_SIGNING_PROVIDER : SigningProvider;
  ProduceSignature :
    SigningProvider → BaseSignatureCreator → CScript → SignatureData.t →
    bool * SignatureData.t }.

Definition SIGHASH_ALL : Z := 1.

(** [inputs[index] = input] on a PSKT. *)
Definition set_input (index : nat) (input : PSKTInput.t)
  (p : PartiallySignedTransaction.t) : PartiallySignedTransaction.t :=
  {| PartiallySignedTransaction.inputs :=
       <[index := input]> (PartiallySignedTransaction.inputs p);
     PartiallySignedTransaction.tx := PartiallySignedTransaction.tx p;
     PartiallySignedTransaction.outputs := PartiallySignedTransaction.outputs p;
     PartiallySignedTransaction.m_xpubs := PartiallySignedTransaction.m_xpubs p;
     PartiallySignedTransaction.unknown := PartiallySignedTransaction.unknown p;
     PartiallySignedTransaction.m_version := PartiallySignedTransaction.m_version p;
     PartiallySignedTransaction.m_proprietary :=
       PartiallySignedTransaction.m_proprietary p |}.

(** [PrecomputedTransactionData PrecomputePSKTData(const PartiallySignedTransaction&)] *)
Definition PrecomputePSKTData `{TxHasher} (pskt : PartiallySignedTransaction.t)
  : option PrecomputedTransactionData.t :=
  tx ← PartiallySignedTransaction.tx pskt;
  found ← mapM (λ idx, PartiallySignedTransaction.GetInputUTXO pskt CTxOut.Null idx)
               (seq 0 (length (CMutableTransaction.vin tx)));
  let have_all_spent_outputs := forallb fst found in
  let utxos := snd <$> found in
  Some (if have_all_spent_outputs
        then PrecomputedTransactionData.Init tx utxos true
        else PrecomputedTransactionData.Init tx [] true).

(** The UTXO lookup inlined in [SignPSKTInput]: [Some (utxo,
    require_witness_sig)] when a spent output was found, [None] when the
    function returns false at that point. *)
Definition sign_resolve_utxo `{TxHasher} (tx : CMutableTransaction.t)
  (input : PSKTInput.t) (index : nat) : option (option (CTxOut.t * bool)) :=
  match PSKTInput.non_witness_utxo input with
  | Some prev =>
      txin ← CMutableTransaction.vin tx !! index;
      let prevout := CTxIn.prevout txin in
      if (N.of_nat (length (CMutableTransaction.vout prev)) <=? COutPoint.n prevout)%N
      then Some None
      else if bool_decide (GetHash prev ≠ COutPoint.hash prevout)
      then Some None
      else utxo ← CMutableTransaction.vout prev !! N.to_nat (COutPoint.n prevout);
           Some (Some (utxo, false))
  | None =>
      if negb (CTxOut.IsNull (PSKTInput.witness_utxo input))
      then Some (Some (PSKTInput.witness_utxo input, true))
      else Some None
  end.

(** The signature creator [SignPSKTInput] chooses:
    [DUMMY_SIGNATURE_CREATOR] when [txdata == nullptr], otherwise a
    [MutableTransactionSignatureCreator] for the input. *)
Definition sign_creator (tx : CMutableTransaction.t) (index : nat)
  (utxo : CTxOut.t) (txdata : option PrecomputedTransactionData.t) (sighash : Z)
  : BaseSignatureCreator :=
  match txdata with
  | None => DUMMY_SIGNATURE_CREATOR
  | Some td =>
      MutableTransactionSignatureCreator tx index (CTxOut.nValue utxo) td sighash
  end.

(** [bool SignPSKTInput(provider, pskt, index, txdata, sighash, out_sigdata,
    finalize)].  [txdata] and [out_sigdata] are pointers, [None] being
    [nullptr]; the result holds the boolean, the PSKT and [*out_sigdata]
    after the call. *)
Definition SignPSKTInput `{TxHasher, KeyHasher, ScriptSigner}
  (provider : SigningProvider) (pskt : PartiallySignedTransaction.t)
  (index : nat) (txdata : option PrecomputedTransactionData.t) (sighash : Z)
  (out_sigdata : option SignatureData.t) (finalize : bool)
  : option (bool * PartiallySignedTransaction.t * option SignatureData.t) :=
  input ← PartiallySignedTransaction.inputs pskt !! index;
  tx ← PartiallySignedTransaction.tx pskt;
  if PSKTInputSigned input then Some (true, pskt, out_sigdata)
  else
    (* Fill SignatureData with input info *)
    let sigdata := PSKTInput.FillSignatureData input SignatureData.default in
    (* Get UTXO *)
    resolved ← sign_resolve_utxo tx input index;
    match resolved with
    | None => Some (false, pskt, out_sigdata)
    | Some (utxo, require_witness_sig) =>
        let sigdata := SignatureData.set_witness false sigdata in
        let '(sig_complete, sigdata) :=
          ProduceSignature provider (sign_creator tx index utxo txdata sighash)
                           (CTxOut.scriptPubKey utxo) sigdata in
        (* Verify that a witness signature was produced in case one was required. *)
        if require_witness_sig && negb (SignatureData.witness sigdata)
        then Some (false, pskt, out_sigdata)
        else
          let sigdata :=
            if negb finalize && SignatureData.complete sigdata
            then SignatureData.set_complete false sigdata else sigdata in
          let input := PSKTInput.FromSignatureData input sigdata in
          (* If we have a witness signature, put a witness UTXO. *)
          let input :=
            if SignatureData.witness sigdata
            then PSKTInput.set_witness_utxo utxo input else input in
          (* Fill in the missing info *)
          let out_sigdata := SignatureData.copy_missing sigdata <$> out_sigdata in
          Some (sig_complete, set_input index input pskt, out_sigdata)
    end.

(** The loop of [FinalizePSKT]:
    [complete &= SignPSKTInput(DUMMY_SIGNING_PROVIDER, psktx, i, &txdata,
    SIGHASH_ALL, nullptr, true)] for the listed indices. *)
Fixpoint finalize_loop `{TxHasher, KeyHasher, ScriptSigner}
  (txdata : PrecomputedTransactionData.t) (indices : list nat)
  (psktx : PartiallySignedTransaction.t) (complete : bool)
  : option (bool * PartiallySignedTransaction.t) :=
  match indices with
  | [] => Some (complete, psktx)
  | i :: rest =>
      '(ok, psktx', _) ←
        SignPSKTInput DUMMY_SIGNING_PROVIDER psktx i (Some txdata) SIGHASH_ALL None true;
      finalize_loop txdata rest psktx' (complete && ok)
  end.

(** [bool FinalizePSKT(PartiallySignedTransaction& psktx)] *)
Definition FinalizePSKT `{TxHasher, KeyHasher, ScriptSigner}
  (psktx : PartiallySignedTransaction.t)
  : option (bool * PartiallySignedTransaction.t) :=
  txdata ← PrecomputePSKTData psktx;
  tx ← PartiallySignedTransaction.tx psktx;
  finalize_loop txdata (seq 0 (length (CMutableTransaction.vin tx))) psktx true.

(** [TransactionError], restricted to the values [CombinePSKTs] returns. *)
Inductive TransactionError := OK | PSKT_MISMATCH.

(** The loop of [CombinePSKTs] over the elements after the first. *)
Fixpoint combine_loop `{TxHasher} (out : PartiallySignedTransaction.t)
  (rest : list PartiallySignedTransaction.t)
  : option (TransactionError * PartiallySignedTransaction.t) :=
  match rest with
  | [] => Some (OK, out)
  | p :: rest' =>
      '(merged, out') ← PartiallySignedTransaction.Merge out p;
      if negb merged then Some (PSKT_MISMATCH, out')
      else combine_loop out' rest'
  end.

(** [TransactionError CombinePSKTs(PartiallySignedTransaction& out,
    const std::vector<PartiallySignedTransaction>& psktxs)]: [out] is
    overwritten with a copy of [psktxs[0]] first. *)
Definition CombinePSKTs `{TxHasher} (psktxs : list PartiallySignedTransaction.t)
  : option (TransactionError * PartiallySignedTransaction.t) :=
  first ← psktxs !! 0%nat;
  combine_loop first (tail psktxs).

(** [bool FinalizeAndExtractPSKT(PartiallySignedTransaction& psktx,
    CMutableTransaction& result)]: the boolean, the PSKT after the call and
    the out-parameter [result] after the call. *)
Definition FinalizeAndExtractPSKT `{TxHasher, KeyHasher, ScriptSigner}
  (psktx : PartiallySignedTransaction.t) (result : CMutableTransaction.t)
  : option (bool * PartiallySignedTransaction.t * CMutableTransaction.t) :=
  '(complete, psktx') ← FinalizePSKT psktx;
  if negb complete then Some (false, psktx', result)
  else
    tx ← PartiallySignedTransaction.tx psktx';
    vin' ← mapM (λ '(i, txin),
                   input ← PartiallySignedTransaction.inputs psktx' !! i;
                   Some {| CTxIn.scriptSig := PSKTInput.final_script_sig input;
                           CTxIn.scriptWitness := PSKTInput.final_script_witness input;
                           CTxIn.prevout := CTxIn.prevout txin;
                           CTxIn.nSequence := CTxIn.nSequence txin |})
                (imap pair (CMutableTransaction.vin tx));
    Some (true, psktx',
          {| CMutableTransaction.vin := vin';
             CMutableTransaction.vout := CMutableTransaction.vout tx;
             CMutableTransaction.nVersion := CMutableTransaction.nVersion tx;
             CMutableTransaction.nLockTime := CMutableTransaction.nLockTime tx |}).

(* ===================================================================== *)
(** ** Roles and the analyzer ([node/pskt.h], [node/pskt.cpp]) *)
(* ===================================================================== *)

(** [enum class PSKTRole], in declaration order. *)
Inductive PSKTRole := CREATOR | UPDATER | SIGNER | FINALIZER | EXTRACTOR.

#[global] Instance PSKTRole_eq_dec : EqDecision PSKTRole.
Proof. solve_decision. Defined.

(** The underlying value of the enumerator, which the comparison operators
    of the enum compare. *)
Definition PSKTRole_value (r : PSKTRole) : Z :=
  match r with
  | CREATOR => 0 | UPDATER => 1 | SIGNER => 2 | FINALIZER => 3 | EXTRACTOR => 4
  end.

Definition PSKTRole_ltb (a b : PSKTRole) : bool :=
  PSKTRole_value a <? PSKTRole_value b.

(** [std::min(a, b)]: [b] when [b < a], otherwise [a]. *)
Definition PSKTRole_min (a b : PSKTRole) : PSKTRole :=
  if PSKTRole_ltb b a then b else a.

(** [assert(cond)]: the program is aborted when the condition fails. *)
Definition assert (cond : bool) : option unit :=
  if cond then Some () else None.

(** [int64_t] arithmetic: the sum or difference reduced to 64 bits, two's
    complement. *)
Definition int64_wrap (z : Z) : Z := (z + 2^63) mod 2^64 - 2^63.
Definition add64 (a b : CAmount) : CAmount := int64_wrap (a + b).
Definition sub64 (a b : CAmount) : CAmount := int64_wrap (a - b).

Module Coin.
Record t := { out : CTxOut.t; nHeight : N }.
End Coin.

#[global] Instance COutPoint_countable : Countable COutPoint.t.
Proof.
  refine (inj_countable' (λ o, (COutPoint.hash o, COutPoint.n o))
            (λ p, {| COutPoint.hash := p.1; COutPoint.n := p.2 |}) _).
  by intros [].
Defined.

Module CFeeRate.
Record t := { nSatoshisPerK : CAmount }.
End CFeeRate.

(** Consensus and policy code the analyzer calls. *)
Class Policy := {
  (** the consensus maximum amount *)
  MAX_MONEY : CAmount;
  (** [CScript::IsUnspendable()] *)
  IsUnspendable : CScript → bool;
  STANDARD_SCRIPT_VERIFY_FLAGS : N;
  (** the process-wide [::nBytesPerSigOp] of [policy/settings.cpp] *)
  nBytesPerSigOp : N;
  (** [GetTransactionSigOpCost(tx, view, flags)] *)
  GetTransactionSigOpCost :
    CMutableTransaction.t → gmap COutPoint.t Coin.t → N → Z;
  (** [GetVirtualTransactionSize(tx, sigop_cost, bytes_per_sigop)] *)
  GetVirtualTransactionSize : CMutableTransaction.t → Z → N → Z;
  (** the constructor [CFeeRate(fee, size)] *)
  CFeeRate_of : CAmount → Z → CFeeRate.t;
  (** the default value [pskt.h] declares for the [finalize] parameter of
      [SignPSKTInput] *)
  SignPSKTInput_finalize_default : bool }.

(** Modelled from the spec: [MoneyRange] of [consensus/amount.h], which is
    not among the sources.  The analyzer's "amount range check (consensus
    money bounds and running total)" accepts an amount that is not negative
    and not above the consensus maximum. *)
Definition MoneyRange `{Policy} (nValue : CAmount) : bool :=
  (0 <=? nValue) && (nValue <=? MAX_MONEY).

Module PSKTInputAnalysis.
Record t := {
  has_utxo : bool;
  is_final : bool;
  next : PSKTRole;
  missing_pubkeys : list CKeyID;
  missing_sigs : list CKeyID;
  missing_redeem_script : uint160;
  missing_witness_script : uint256 }.

(** An element created by [result.inputs.resize(n)]: every member is
    zero-initialized. *)
Definition zero : t :=
  {| has_utxo := false; is_final := false; next := CREATOR;
     missing_pubkeys := []; missing_sigs := [];
     missing_redeem_script := 0%N; missing_witness_script := 0%N |}.

Definition set_next (r : PSKTRole) (a : t) : t :=
  {| next := r; has_utxo := has_utxo a; is_final := is_final a;
     missing_pubkeys := missing_pubkeys a; missing_sigs := missing_sigs a;
     missing_redeem_script := missing_redeem_script a;
     missing_witness_script := missing_witness_script a |}.

Definition set_has_utxo (b : bool) (a : t) : t :=
  {| has_utxo := b; next := next a; is_final := is_final a;
     missing_pubkeys := missing_pubkeys a; missing_sigs := missing_sigs a;
     missing_redeem_script := missing_redeem_script a;
     missing_witness_script := missing_witness_script a |}.

Definition set_is_final (b : bool) (a : t) : t :=
  {| is_final := b; next := next a; has_utxo := has_utxo a;
     missing_pubkeys := missing_pubkeys a; missing_sigs := missing_sigs a;
     missing_redeem_script := missing_redeem_script a;
     missing_witness_script := missing_witness_script a |}.

(** [input_analysis.missing_* = outdata.missing_*] *)
Definition set_missing (outdata : SignatureData.t) (a : t) : t :=
  {| missing_pubkeys := SignatureData.missing_pubkeys outdata;
     missing_redeem_script := SignatureData.missing_redeem_script outdata;
     missing_witness_script := SignatureData.missing_witness_script outdata;
     missing_sigs := SignatureData.missing_sigs outdata;
     next := next a; has_utxo := has_utxo a; is_final := is_final a |}.
End PSKTInputAnalysis.

Module PSKTAnalysis.
Record t := {
  estimated_vsize : option Z;
  estimated_feerate : option CFeeRate.t;
  fee : option CAmount;
  inputs : list PSKTInputAnalysis.t;
  next : PSKTRole;
  error : string }.

(** [void SetInvalid(std::string err_msg)] *)
Definition SetInvalid (err_msg : string) (a : t) : t :=
  {| estimated_vsize := None; estimated_feerate := None; fee := None;
     inputs := []; next := CREATOR; error := err_msg |}.
End PSKTAnalysis.

Module node.

(** The state the first loop of [AnalyzePSKT] carries from one input to the
    next: the by-value copy [psktx] it signs into, [in_amt], [calc_fee] and
    [result.inputs]. *)
Record loop_state := {
  psktx : PartiallySignedTransaction.t;
  in_amt : CAmount;
  calc_fee : bool;
  analyses : list PSKTInputAnalysis.t }.

(** "If we are only missing signatures and nothing else, then next is
    signer": the test on the missing report. *)
Definition only_missing_sigs (outdata : SignatureData.t) : bool :=
  is_empty (SignatureData.missing_pubkeys outdata) &&
  uint.IsNull (SignatureData.missing_redeem_script outdata) &&
  uint.IsNull (SignatureData.missing_witness_script outdata) &&
  negb (is_empty (SignatureData.missing_sigs outdata)).

(** One iteration of the first loop, for input [i].  [inl msg] is the early
    [result.SetInvalid(msg); return result;]. *)
Definition analyze_input `{TxHasher, KeyHasher, ScriptSigner, Policy}
  (txdata : PrecomputedTransactionData.t) (i : nat) (st : loop_state)
  : option (string + loop_state) :=
  input ← PartiallySignedTransaction.inputs (psktx st) !! i;
  input_analysis ← analyses st !! i;
  tx ← PartiallySignedTransaction.tx (psktx st);
  txin ← CMutableTransaction.vin tx !! i;
  (* We set next role here and ratchet backwards as required *)
  let input_analysis := PSKTInputAnalysis.set_next EXTRACTOR input_analysis in
  (* Check for a UTXO *)
  '(found, utxo) ← PartiallySignedTransaction.GetInputUTXO (psktx st) CTxOut.Null i;
  let checked : string + (CAmount * bool * PSKTInputAnalysis.t) :=
    if (found : bool) then
      if negb (MoneyRange (CTxOut.nValue utxo)) ||
         negb (MoneyRange (add64 (in_amt st) (CTxOut.nValue utxo)))
      then inl ("PSKT is not valid. Input " +:+ pretty i +:+ " has invalid value")
      else inr (add64 (in_amt st) (CTxOut.nValue utxo), calc_fee st,
                PSKTInputAnalysis.set_has_utxo true input_analysis)
    else
      if match PSKTInput.non_witness_utxo input with
         | Some prev =>
             (N.of_nat (length (CMutableTransaction.vout prev)) <=?
                COutPoint.n (CTxIn.prevout txin))%N
         | None => false
         end
      then inl ("PSKT is not valid. Input " +:+ pretty i +:+ " specifies invalid prevout")
      else inr (in_amt st, false,
                PSKTInputAnalysis.set_next UPDATER
                  (PSKTInputAnalysis.set_is_final false
                     (PSKTInputAnalysis.set_has_utxo false input_analysis)))
  in
  match checked with
  | inl msg => Some (inl msg)
  | inr (in_amt', calc_fee', input_analysis) =>
      if negb (CTxOut.IsNull utxo) && IsUnspendable (CTxOut.scriptPubKey utxo)
      then Some (inl ("PSKT is not valid. Input " +:+ pretty i +:+
                      " spends unspendable output"))
      else
        (* Check if it is final *)
        if negb (CTxOut.IsNull utxo) && negb (PSKTInputSigned input) then
          let input_analysis := PSKTInputAnalysis.set_is_final false input_analysis in
          (* Figure out what is missing *)
          '(complete, psktx', outdata) ←
            SignPSKTInput DUMMY_SIGNING_PROVIDER (psktx st) i (Some txdata) 1
                          (Some SignatureData.default) SignPSKTInput_finalize_default;
          outdata ← outdata;
          let input_analysis :=
            if negb complete then
              (* Things are missing *)
              let input_analysis := PSKTInputAnalysis.set_missing outdata input_analysis in
              if only_missing_sigs outdata
              then PSKTInputAnalysis.set_next SIGNER input_analysis
              else PSKTInputAnalysis.set_next UPDATER input_analysis
            else PSKTInputAnalysis.set_next FINALIZER input_analysis in
          Some (inr {| psktx := psktx'; in_amt := in_amt'; calc_fee := calc_fee';
                       analyses := <[i := input_analysis]> (analyses st) |})
        else
          let input_analysis :=
            if negb (CTxOut.IsNull utxo)
            then PSKTInputAnalysis.set_is_final true input_analysis
            else input_analysis in
          Some (inr {| psktx := psktx st; in_amt := in_amt'; calc_fee := calc_fee';
                       analyses := <[i := input_analysis]> (analyses st) |})
  end.

(** The first loop over the listed input indices. *)
Fixpoint analyze_inputs `{TxHasher, KeyHasher, ScriptSigner, Policy}
  (txdata : PrecomputedTransactionData.t) (indices : list nat) (st : loop_state)
  : option (string + loop_state) :=
  match indices with
  | [] => Some (inr st)
  | i :: rest =>
      r ← analyze_input txdata i st;
      match r with
      | inl msg => Some (inl msg)
      | inr st' => analyze_inputs txdata rest st'
      end
  end.

(** "Calculate next role for PSKT by grabbing minimum PSKTInput next role" *)
Definition minimum_role (analyses : list PSKTInputAnalysis.t) : PSKTRole :=
  fold_left (λ next input_analysis,
               PSKTRole_min next (PSKTInputAnalysis.next input_analysis))
            analyses EXTRACTOR.

(** The [std::accumulate] over [tx->vout] that yields [out_amt]. *)
Definition output_amount `{Policy} (vout : list CTxOut.t) : CAmount :=
  fold_left (λ a b,
               if negb (MoneyRange a) || negb (MoneyRange (CTxOut.nValue b)) ||
                  negb (MoneyRange (add64 a (CTxOut.nValue b)))
               then -1
               else add64 a (CTxOut.nValue b))
            vout 0.

(** The loop of the size estimate; it stops with [success = false] at the
    first input that cannot be signed completely or has no UTXO. *)
Fixpoint estimate_loop `{TxHasher, KeyHasher, ScriptSigner, Policy}
  (indices : list nat) (psktx : PartiallySignedTransaction.t)
  (mtx : CMutableTransaction.t) (view : gmap COutPoint.t Coin.t)
  : option (bool * CMutableTransaction.t * gmap COutPoint.t Coin.t) :=
  match indices with
  | [] => Some (true, mtx, view)
  | i :: rest =>
      '(signed, psktx', _) ←
        SignPSKTInput DUMMY_SIGNING_PROVIDER psktx i None 1 None
                      SignPSKTInput_finalize_default;
      if negb signed then Some (false, mtx, view)
      else
        '(found, newcoin_out) ←
          PartiallySignedTransaction.GetInputUTXO psktx' CTxOut.Null i;
        if negb found then Some (false, mtx, view)
        else
          input ← PartiallySignedTransaction.inputs psktx' !! i;
          tx ← PartiallySignedTransaction.tx psktx';
          txin ← CMutableTransaction.vin tx !! i;
          mtxin ← CMutableTransaction.vin mtx !! i;
          let mtx' :=
            {| CMutableTransaction.vin :=
                 <[i := {| CTxIn.scriptSig := PSKTInput.final_script_sig input;
                           CTxIn.scriptWitness := PSKTInput.final_script_witness input;
                           CTxIn.prevout := CTxIn.prevout mtxin;
                           CTxIn.nSequence := CTxIn.nSequence mtxin |}]>
                   (CMutableTransaction.vin mtx);
               CMutableTransaction.vout := CMutableTransaction.vout mtx;
               CMutableTransaction.nVersion := CMutableTransaction.nVersion mtx;
               CMutableTransaction.nLockTime := CMutableTransaction.nLockTime mtx |} in
          let newcoin := {| Coin.out := newcoin_out; Coin.nHeight := 1%N |} in
          estimate_loop rest psktx' mtx' (<[CTxIn.prevout txin := newcoin]> view)
  end.

(** [PSKTAnalysis AnalyzePSKT(PartiallySignedTransaction psktx)] *)
Definition AnalyzePSKT `{TxHasher, KeyHasher, ScriptSigner, Policy}
  (psktx : PartiallySignedTransaction.t) : option PSKTAnalysis.t :=
  tx ← PartiallySignedTransaction.tx psktx;
  let n_in := length (CMutableTransaction.vin tx) in
  (* PSKTAnalysis result; result.inputs.resize(vin.size()) *)
  let result :=
    {| PSKTAnalysis.estimated_vsize := None; PSKTAnalysis.estimated_feerate := None;
       PSKTAnalysis.fee := None;
       PSKTAnalysis.inputs := replicate n_in PSKTInputAnalysis.zero;
       PSKTAnalysis.next := CREATOR; PSKTAnalysis.error := "" |} in
  txdata ← PrecomputePSKTData psktx;
  r ← analyze_inputs txdata (seq 0 n_in)
         {| psktx := psktx; in_amt := 0; calc_fee := true;
            analyses := PSKTAnalysis.inputs result |};
  match r with
  | inl msg => Some (PSKTAnalysis.SetInvalid msg result)
  | inr st =>
      let next := minimum_role (analyses st) in
      _ ← assert (PSKTRole_ltb CREATOR next);
      let result :=
        {| PSKTAnalysis.inputs := analyses st; PSKTAnalysis.next := next;
           PSKTAnalysis.estimated_vsize := None;
           PSKTAnalysis.estimated_feerate := None;
           PSKTAnalysis.fee := None; PSKTAnalysis.error := "" |} in
      if calc_fee st then
        (* Get the output amount *)
        let out_amt := output_amount (CMutableTransaction.vout tx) in
        if negb (MoneyRange out_amt)
        then Some (PSKTAnalysis.SetInvalid "PSKT is not valid. Output amount invalid" result)
        else
          (* Get the fee *)
          let fee := sub64 (in_amt st) out_amt in
          (* Estimate the size *)
          '(success, mtx, view) ← estimate_loop (seq 0 n_in) (node.psktx st) tx ∅;
          if (success : bool) then
            let size :=
              GetVirtualTransactionSize mtx
                (GetTransactionSigOpCost mtx view STANDARD_SCRIPT_VERIFY_FLAGS)
                nBytesPerSigOp in
            Some {| PSKTAnalysis.fee := Some fee;
                    PSKTAnalysis.estimated_vsize := Some size;
                    PSKTAnalysis.estimated_feerate := Some (CFeeRate_of fee size);
                    PSKTAnalysis.inputs := analyses st; PSKTAnalysis.next := next;
                    PSKTAnalysis.error := "" |}
          else
            Some {| PSKTAnalysis.fee := Some fee;
                    PSKTAnalysis.estimated_vsize := None;
                    PSKTAnalysis.estimated_feerate := None;
                    PSKTAnalysis.inputs := analyses st; PSKTAnalysis.next := next;
                    PSKTAnalysis.error := "" |}
      else Some result
  end.
End node.

(* ===================================================================== *)
(** ** The joining loop of the [joinpskts] RPC ([rpc/rawtransaction.cpp]) *)
(* ===================================================================== *)

(** What the RPC answers: the joined PSKT, or the [RPC_INVALID_PARAMETER]
    error "Input <txid>:<n> exists in multiple PSKTs" naming an outpoint. *)
Inductive join_result :=
  | Joined (merged_pskt : PartiallySignedTransaction.t)
  | InputExists (outpoint : COutPoint.t).

(** [for (i = 0; i < pskt.tx->vin.size(); ++i)
      if (!merged_pskt.AddInput(pskt.tx->vin[i], pskt.inputs[i])) throw ...]
    over the listed pairs of [pskt.tx->vin[i]] and [pskt.inputs[i]]. *)
Fixpoint join_inputs (merged_pskt : PartiallySignedTransaction.t)
  (ins : list (CTxIn.t * PSKTInput.t)) : option join_result :=
  match ins with
  | [] => Some (Joined merged_pskt)
  | (txin, psktin) :: rest =>
      '(added, merged_pskt', _) ←
        PartiallySignedTransaction.AddInput merged_pskt txin psktin;
      if negb added then Some (InputExists (CTxIn.prevout txin))
      else join_inputs merged_pskt' rest
  end.

(** The pairs the loop visits for one PSKT; [pskt.inputs[i]] is read for
    every index of [pskt.tx->vin]. *)
Definition paired_inputs (pskt : PartiallySignedTransaction.t)
  : option (list (CTxIn.t * PSKTInput.t)) :=
  tx ← PartiallySignedTransaction.tx pskt;
  mapM (λ '(i, txin),
          psktin ← PartiallySignedTransaction.inputs pskt !! i;
          Some (txin, psktin))
       (imap pair (CMutableTransaction.vin tx)).

(* ===================================================================== *)
(** ** Well-formed PSKTs and sample data *)
(* ===================================================================== *)

(** What [a] holds after a [Merge(b)] that found equal txids and stayed in
    range: the element-wise merges, the merged xpubs and the union of the
    unknown records, around the untouched rest of [a]. *)
Definition merge_result (a b : PartiallySignedTransaction.t)
  : PartiallySignedTransaction.t :=
  {| PartiallySignedTransaction.tx := PartiallySignedTransaction.tx a;
     PartiallySignedTransaction.inputs :=
       zip_with PSKTInput.Merge (PartiallySignedTransaction.inputs a)
                (PartiallySignedTransaction.inputs b);
     PartiallySignedTransaction.outputs :=
       zip_with PSKTOutput.Merge (PartiallySignedTransaction.outputs a)
                (PartiallySignedTransaction.outputs b);
     PartiallySignedTransaction.m_xpubs :=
       merge_xpubs (PartiallySignedTransaction.m_xpubs a)
                   (PartiallySignedTransaction.m_xpubs b);
     PartiallySignedTransaction.unknown :=
       insert_range (PartiallySignedTransaction.unknown a)
                    (PartiallySignedTransaction.unknown b);
     PartiallySignedTransaction.m_version := PartiallySignedTransaction.m_version a;
     PartiallySignedTransaction.m_proprietary :=
       PartiallySignedTransaction.m_proprietary a |}.

(** The invariant of the data model: the unsigned transaction is present and
    there is one input record per [tx.vin] entry and one output record per
    [tx.vout] entry. *)
Definition well_formed (p : PartiallySignedTransaction.t) : Prop :=
  match PartiallySignedTransaction.tx p with
  | Some tx =>
      length (PartiallySignedTransaction.inputs p) = length (CMutableTransaction.vin tx) ∧
      length (PartiallySignedTransaction.outputs p) = length (CMutableTransaction.vout tx)
  | None => False
  end.

(** The txid of a PSKT, when it has a transaction. *)
Definition txid `{TxHasher} (p : PartiallySignedTransaction.t) : option uint256 :=
  GetHash <$> PartiallySignedTransaction.tx p.

(* ===================================================================== *)
(** ** The merge algebra *)
(* ===================================================================== *)

(** Every field that [Merge] fuses is fused by a combiner of one of a few
    kinds.  A [merger] groups such a combiner with two relations for that
    kind: [agree], "the two sides carry no conflicting value", and [alike],
    "the two values are the same once the values a first writer won are
    forgotten" (the same keys in a map, the same set or unset state of an
    optional field). *)
Record merger (A : Type) := Merger {
  fuse : A → A → A;
  agree : A → A → Prop;
  alike : A → A → Prop }.
Arguments Merger {A} _ _ _.
Arguments fuse {A} _ _ _.
Arguments agree {A} _ _ _.
Arguments alike {A} _ _ _.

(** A map filled with [insert(begin, end)]: the sides agree when they hold
    the same value under every key they share. *)
Definition map_merger (K : Type) `{Countable K} (V : Type) : merger (gmap K V) :=
  Merger insert_range map_agree (λ x y, dom x = dom y).

(** A field filled only while it is empty or null, for the emptiness test
    [null]: the sides agree when they are equal or exactly one is null. *)
Definition first_merger {A} (null : A → bool) : merger A :=
  Merger (λ x y, if null x && negb (null y) then y else x)
         (λ x y, x = y ∨ null x ≠ null y)
         (λ x y, null x = null y).

(** The global xpubs, whose sets of keys are united: no conflict arises. *)
Definition xpubs_merger : merger (gmap KeyOriginInfo.t (gset CExtPubKey)) :=
  Merger merge_xpubs (λ _ _, True) eq.

(** Two fields side by side. *)
Definition pair_merger {A B} (MA : merger A) (MB : merger B) : merger (A * B) :=
  Merger (λ x y, (fuse MA x.1 y.1, fuse MB x.2 y.2))
         (λ x y, agree MA x.1 y.1 ∧ agree MB x.2 y.2)
         (λ x y, alike MA x.1 y.1 ∧ alike MB x.2 y.2).

(** A vector of records merged index by index. *)
Definition list_merger {A} (M : merger A) : merger (list A) :=
  Merger (zip_with (fuse M)) (Forall2 (agree M)) (Forall2 (alike M)).

Definition is_None {A} (o : option A) : bool :=
  match o with None => true | Some _ => false end.

(** The fields of an input record that [PSKTInput::Merge] fuses, in the
    order of its statements. *)
Definition PSKTInput_merged_fields (i : PSKTInput.t) :=
  (PSKTInput.non_witness_utxo i, PSKTInput.witness_utxo i,
   PSKTInput.partial_sigs i, PSKTInput.ripemd160_preimages i,
   PSKTInput.sha256_preimages i, PSKTInput.hash160_preimages i,
   PSKTInput.hash256_preimages i, PSKTInput.hd_keypaths i,
   PSKTInput.unknown i, PSKTInput.m_tap_script_sigs i,
   PSKTInput.m_tap_scripts i, PSKTInput.m_tap_bip32_paths i,
   PSKTInput.redeem_script i, PSKTInput.witness_script i,
   PSKTInput.final_script_sig i, PSKTInput.final_script_witness i,
   PSKTInput.m_tap_key_sig i, PSKTInput.m_tap_internal_key i,
   PSKTInput.m_tap_merkle_root i).

Definition PSKTInput_merger :=
  pair_merger (pair_merger (pair_merger (pair_merger (pair_merger (pair_merger
  (pair_merger (pair_merger (pair_merger (pair_merger (pair_merger (pair_merger
  (pair_merger (pair_merger (pair_merger (pair_merger (pair_merger (pair_merger
    (first_merger (is_None (A := CMutableTransaction.t)))
    (first_merger CTxOut.IsNull))
    (map_merger CKeyID SigPair))
    (map_merger uint160 bytes))
    (map_merger uint256 bytes))
    (map_merger uint160 bytes))
    (map_merger uint256 bytes))
    (map_merger CPubKey KeyOriginInfo.t))
    (map_merger bytes bytes))
    (map_merger (XOnlyPubKey * uint256) bytes))
    (map_merger (CScript * Z) (gset bytes)))
    (map_merger XOnlyPubKey (gset uint256 * KeyOriginInfo.t)))
    (first_merger (is_empty (A := byte))))
    (first_merger (is_empty (A := byte))))
    (first_merger (is_empty (A := byte))))
    (first_merger CScriptWitness.IsNull))
    (first_merger (is_empty (A := byte))))
    (first_merger uint.IsNull))
    (first_merger uint.IsNull).

(** The fields of an output record that [PSKTOutput::Merge] fuses. *)
Definition PSKTOutput_merged_fields (o : PSKTOutput.t) :=
  (PSKTOutput.hd_keypaths o, PSKTOutput.unknown o, PSKTOutput.m_tap_bip32_paths o,
   PSKTOutput.redeem_script o, PSKTOutput.witness_script o,
   PSKTOutput.m_tap_internal_key o, PSKTOutput.m_tap_tree o).

Definition PSKTOutput_merger :=
  pair_merger (pair_merger (pair_merger (pair_merger (pair_merger (pair_merger
    (map_merger CPubKey KeyOriginInfo.t)
    (map_merger bytes bytes))
    (map_merger XOnlyPubKey (gset uint256 * KeyOriginInfo.t)))
    (first_merger (is_empty (A := byte))))
    (first_merger (is_empty (A := byte))))
    (first_merger uint.IsNull))
    (first_merger (is_empty (A := N * N * CScript))).

(** The fields of a PSKT that [PartiallySignedTransaction::Merge] fuses:
    the merged fields of every input and output record, the global xpubs
    and the unknown global records. *)
Definition merged_fields (p : PartiallySignedTransaction.t) :=
  (PSKTInput_merged_fields <$> PartiallySignedTransaction.inputs p,
   PSKTOutput_merged_fields <$> PartiallySignedTransaction.outputs p,
   PartiallySignedTransaction.m_xpubs p,
   PartiallySignedTransaction.unknown p).

Definition PSKT_merger :=
  pair_merger (pair_merger (pair_merger
    (list_merger PSKTInput_merger)
    (list_merger PSKTOutput_merger))
    xpubs_merger)
    (map_merger bytes bytes).

(** Two PSKTs carry no conflicting data: wherever both hold a value for the
    same merged field (and, in a map, under the same key), it is the same
    value. *)
Definition conflict_free (a b : PartiallySignedTransaction.t) : Prop :=
  agree PSKT_merger (merged_fields a) (merged_fields b).

(** The laws a merger obeys: fusing is associative and idempotent, it
    commutes on sides that agree, and the two orders of fusing always give
    alike values; agreement is reflexive, symmetric and kept by fusing. *)
Record merger_laws {A} (M : merger A) : Prop := {
  fuse_assoc : ∀ x y z, fuse M (fuse M x y) z = fuse M x (fuse M y z);
  fuse_idemp : ∀ x, fuse M x x = x;
  fuse_comm : ∀ x y, agree M x y → fuse M x y = fuse M y x;
  fuse_alike : ∀ x y, alike M (fuse M x y) (fuse M y x);
  agree_refl : ∀ x, agree M x x;
  agree_sym : ∀ x y, agree M x y → agree M y x;
  agree_fuse : ∀ x y z, agree M x z → agree M y z → agree M (fuse M x y) z }.

(** What [SignPSKTInput] does to the one input record it works on, given
    the transaction: the boolean, the record and [*out_sigdata] after the
    call.  [SignPSKTInput] is this function applied to [inputs[index]], with
    the record stored back (lemma [SignPSKTInput_sign_input]). *)
Definition sign_input `{TxHasher, KeyHasher, ScriptSigner}
  (provider : SigningProvider) (tx : CMutableTransaction.t) (input : PSKTInput.t)
  (index : nat) (txdata : option PrecomputedTransactionData.t) (sighash : Z)
  (out_sigdata : option SignatureData.t) (finalize : bool)
  : option (bool * PSKTInput.t * option SignatureData.t) :=
  if PSKTInputSigned input then Some (true, input, out_sigdata)
  else
    resolved ← sign_resolve_utxo tx input index;
    match resolved with
    | None => Some (false, input, out_sigdata)
    | Some (utxo, require_witness_sig) =>
        let '(sig_complete, sigdata) :=
          ProduceSignature provider (sign_creator tx index utxo txdata sighash)
            (CTxOut.scriptPubKey utxo)
            (SignatureData.set_witness false
               (PSKTInput.FillSignatureData input SignatureData.default)) in
        if require_witness_sig && negb (SignatureData.witness sigdata)
        then Some (false, input, out_sigdata)
        else
          let sigdata' :=
            if negb finalize && SignatureData.complete sigdata
            then SignatureData.set_complete false sigdata else sigdata in
          let input' := PSKTInput.FromSignatureData input sigdata' in
          Some (sig_complete,
                if SignatureData.witness sigdata'
                then PSKTInput.set_witness_utxo utxo input' else input',
                SignatureData.copy_missing sigdata' <$> out_sigdata)
    end.

(** What the analyzer must have recorded for input [j] of [psktx0]: a next
    role above [CREATOR], and, when the input has a UTXO, is unsigned and
    the dummy signing attempt is incomplete, [SIGNER] or [UPDATER] as the
    missing report says. *)
Definition analysis_of_input `{TxHasher, KeyHasher, ScriptSigner, Policy}
  (psktx0 : PartiallySignedTransaction.t) (tx : CMutableTransaction.t)
  (txdata : PrecomputedTransactionData.t) (j : nat) (ia : PSKTInputAnalysis.t) : Prop :=
  PSKTRole_ltb CREATOR (PSKTInputAnalysis.next ia) = true ∧
  ∀ input utxo r outdata,
    PartiallySignedTransaction.inputs psktx0 !! j = Some input →
    PartiallySignedTransaction.GetInputUTXO psktx0 CTxOut.Null j = Some (true, utxo) →
    PSKTInputSigned input = false →
    sign_input DUMMY_SIGNING_PROVIDER tx input j (Some txdata) 1
      (Some SignatureData.default) SignPSKTInput_finalize_default
      = Some (false, r, Some outdata) →
    PSKTInputAnalysis.next ia =
      if node.only_missing_sigs outdata then SIGNER else UPDATER.


(** The sum of the values of a list of outputs, as an integer. *)
Definition total_value (outs : list CTxOut.t) : Z :=
  foldr (λ o acc, CTxOut.nValue o + acc) 0 outs.

(** Modelled from the spec: [ProduceSignature] of [script/sign.cpp], which
    is not among the sources, as the finalizer drives it with
    [DUMMY_SIGNING_PROVIDER].  Finalizing "performs no new signing, but
    promotes any partial signatures already present to a final scriptSig /
    witness stack if they constitute a valid signing of the spent script",
    and it "returns complete iff every input ended finalized".
    Accordingly: the boolean result is [sigdata.complete]; a complete
    result carries a final scriptSig or a final witness; an incomplete
    result leaves the signatures, scripts, key origins and Taproot data of
    [sigdata] as they were. *)
Record finalizer_contract `{ScriptSigner} : Prop := {
  produce_returns_complete :
    ∀ creator script sigdata,
      (ProduceSignature DUMMY_SIGNING_PROVIDER creator script sigdata).1 =
      SignatureData.complete
        (ProduceSignature DUMMY_SIGNING_PROVIDER creator script sigdata).2;
  complete_is_final :
    ∀ creator script sigdata,
      let produced := (ProduceSignature DUMMY_SIGNING_PROVIDER creator script sigdata).2 in
      SignatureData.complete produced = true →
      is_empty (SignatureData.scriptSig produced) = false ∨
      CScriptWitness.IsNull (SignatureData.scriptWitness produced) = false;
  incomplete_adds_nothing :
    ∀ creator script sigdata,
      let produced := (ProduceSignature DUMMY_SIGNING_PROVIDER creator script sigdata).2 in
      SignatureData.complete produced = false →
      SignatureData.signatures produced = SignatureData.signatures sigdata ∧
      SignatureData.redeem_script produced = SignatureData.redeem_script sigdata ∧
      SignatureData.witness_script produced = SignatureData.witness_script sigdata ∧
      SignatureData.misc_pubkeys produced = SignatureData.misc_pubkeys sigdata ∧
      SignatureData.taproot_key_path_sig produced =
        SignatureData.taproot_key_path_sig sigdata ∧
      SignatureData.taproot_script_sigs produced =
        SignatureData.taproot_script_sigs sigdata ∧
      SignatureData.tr_spenddata produced = SignatureData.tr_spenddata sigdata ∧
      SignatureData.taproot_misc_pubkeys produced =
        SignatureData.taproot_misc_pubkeys sigdata }.

(* ===================================================================== *)
(** ** The PSKT RPCs of [rpc/rawtransaction.cpp] *)
(* ===================================================================== *)

(** [psktx.inputs.push_back(psktin)] and [psktx.outputs.push_back(psktout)]. *)
Definition push_input (psktin : PSKTInput.t) (p : PartiallySignedTransaction.t)
  : PartiallySignedTransaction.t :=
  {| PartiallySignedTransaction.inputs := PartiallySignedTransaction.inputs p ++ [psktin];
     PartiallySignedTransaction.tx := PartiallySignedTransaction.tx p;
     PartiallySignedTransaction.outputs := PartiallySignedTransaction.outputs p;
     PartiallySignedTransaction.m_xpubs := PartiallySignedTransaction.m_xpubs p;
     PartiallySignedTransaction.unknown := PartiallySignedTransaction.unknown p;
     PartiallySignedTransaction.m_version := PartiallySignedTransaction.m_version p;
     PartiallySignedTransaction.m_proprietary :=
       PartiallySignedTransaction.m_proprietary p |}.

Definition push_output (psktout : PSKTOutput.t) (p : PartiallySignedTransaction.t)
  : PartiallySignedTransaction.t :=
  {| PartiallySignedTransaction.outputs :=
       PartiallySignedTransaction.outputs p ++ [psktout];
     PartiallySignedTransaction.tx := PartiallySignedTransaction.tx p;
     PartiallySignedTransaction.inputs := PartiallySignedTransaction.inputs p;
     PartiallySignedTransaction.m_xpubs := PartiallySignedTransaction.m_xpubs p;
     PartiallySignedTransaction.unknown := PartiallySignedTransaction.unknown p;
     PartiallySignedTransaction.m_version := PartiallySignedTransaction.m_version p;
     PartiallySignedTransaction.m_proprietary :=
       PartiallySignedTransaction.m_proprietary p |}.

(** [psktx.tx = tx;] *)
Definition set_tx (tx : CMutableTransaction.t) (p : PartiallySignedTransaction.t)
  : PartiallySignedTransaction.t :=
  {| PartiallySignedTransaction.tx := Some tx;
     PartiallySignedTransaction.inputs := PartiallySignedTransaction.inputs p;
     PartiallySignedTransaction.outputs := PartiallySignedTransaction.outputs p;
     PartiallySignedTransaction.m_xpubs := PartiallySignedTransaction.m_xpubs p;
     PartiallySignedTransaction.unknown := PartiallySignedTransaction.unknown p;
     PartiallySignedTransaction.m_version := PartiallySignedTransaction.m_version p;
     PartiallySignedTransaction.m_proprietary :=
       PartiallySignedTransaction.m_proprietary p |}.

(** "Make a blank pskt", as [createpskt] and [converttopskt] do it by hand:
    a default PSKT, [psktx.tx = tx], then one [push_back(PSKTInput())] per
    input and one [push_back(PSKTOutput())] per output. *)
Definition blank_pskt (tx : CMutableTransaction.t) : PartiallySignedTransaction.t :=
  let psktx := set_tx tx PartiallySignedTransaction.default in
  let psktx :=
    fold_left (λ p _, push_input PSKTInput.default p)
              (seq 0 (length (CMutableTransaction.vin tx))) psktx in
  fold_left (λ p _, push_output PSKTOutput.default p)
            (seq 0 (length (CMutableTransaction.vout tx))) psktx.

(** The error codes the RPCs modelled here throw. *)
Inductive RPCErrorCode := RPC_INVALID_PARAMETER | RPC_DESERIALIZATION_ERROR.

(** What an RPC body yields: its value, or the [JSONRPCError] it throws. *)
Inductive rpc_result (A : Type) :=
  | RPCValue (value : A)
  | JSONRPCError (code : RPCErrorCode) (message : string).
Arguments RPCValue {A} _.
Arguments JSONRPCError {A} _ _.

(** [input.scriptSig.clear(); input.scriptWitness.SetNull();] *)
Definition clear_sigdata (input : CTxIn.t) : CTxIn.t :=
  {| CTxIn.scriptSig := []; CTxIn.scriptWitness := CScriptWitness.Null;
     CTxIn.prevout := CTxIn.prevout input; CTxIn.nSequence := CTxIn.nSequence input |}.

(** The loop of [converttopskt] headed "Remove all scriptSigs and
    scriptWitnesses from inputs". *)
Fixpoint converttopskt_strip (permitsigdata : bool) (vin : list CTxIn.t)
  : rpc_result (list CTxIn.t) :=
  match vin with
  | [] => RPCValue []
  | input :: rest =>
      if (negb (is_empty (CTxIn.scriptSig input)) ||
          negb (CScriptWitness.IsNull (CTxIn.scriptWitness input))) &&
         negb permitsigdata
      then JSONRPCError RPC_DESERIALIZATION_ERROR
             "Inputs must not have scriptSigs and scriptWitnesses"
      else
        match converttopskt_strip permitsigdata rest with
        | RPCValue rest' => RPCValue (clear_sigdata input :: rest')
        | JSONRPCError code message => JSONRPCError code message
        end
  end.

(** [converttopskt] from the decoded transaction on: the PSKT it
    serializes, or the error it throws. *)
Definition converttopskt (tx : CMutableTransaction.t) (permitsigdata : bool)
  : rpc_result PartiallySignedTransaction.t :=
  match converttopskt_strip permitsigdata (CMutableTransaction.vin tx) with
  | RPCValue vin' =>
      RPCValue (blank_pskt
                  {| CMutableTransaction.vin := vin';
                     CMutableTransaction.vout := CMutableTransaction.vout tx;
                     CMutableTransaction.nVersion := CMutableTransaction.nVersion tx;
                     CMutableTransaction.nLockTime := CMutableTransaction.nLockTime tx |})
  | JSONRPCError code message => JSONRPCError code message
  end.

(** The part of [decodepskt] that adds up the spent values.  [txout] is
    the witness UTXO when that is not null, then overwritten with
    [non_witness_utxo->vout[prevout.n]] when the record holds a predecessor
    (no bound or hash is checked there). *)
Definition decodepskt_input `{Policy} (psktx : PartiallySignedTransaction.t)
  (i : nat) (acc : CAmount * bool) : option (CAmount * bool) :=
  let '(total_in, have_all_utxos) := acc in
  input ← PartiallySignedTransaction.inputs psktx !! i;
  let '(txout, have_a_utxo) :=
    if negb (CTxOut.IsNull (PSKTInput.witness_utxo input))
    then (PSKTInput.witness_utxo input, true) else (CTxOut.Null, false) in
  '(txout, have_a_utxo) ←
    match PSKTInput.non_witness_utxo input with
    | Some prev =>
        tx ← PartiallySignedTransaction.tx psktx;
        txin ← CMutableTransaction.vin tx !! i;
        out ← CMutableTransaction.vout prev !! N.to_nat (COutPoint.n (CTxIn.prevout txin));
        Some (out, true)
    | None => Some (txout, have_a_utxo)
    end;
  if (have_a_utxo : bool) then
    if MoneyRange (CTxOut.nValue txout) &&
       MoneyRange (add64 total_in (CTxOut.nValue txout))
    then Some (add64 total_in (CTxOut.nValue txout), have_all_utxos)
    else Some (total_in, false)
  else Some (total_in, false).

(** Its counterpart in the loop over the output records. *)
Definition decodepskt_output `{Policy} (psktx : PartiallySignedTransaction.t)
  (i : nat) (acc : CAmount * bool) : option (CAmount * bool) :=
  let '(output_value, have_all_utxos) := acc in
  tx ← PartiallySignedTransaction.tx psktx;
  txout ← CMutableTransaction.vout tx !! i;
  if MoneyRange (CTxOut.nValue txout) &&
     MoneyRange (add64 output_value (CTxOut.nValue txout))
  then Some (add64 output_value (CTxOut.nValue txout), have_all_utxos)
  else Some (output_value, false).

(** A loop over indices that threads an accumulator through a step that
    may be undefined. *)
Fixpoint loop_over {A} (step : nat → A → option A) (indices : list nat) (acc : A)
  : option A :=
  match indices with
  | [] => Some acc
  | i :: rest => acc' ← step i acc; loop_over step rest acc'
  end.

(** The ["fee"] entry of [decodepskt]'s answer: [Some fee] when the entry
    is pushed, [None] when it is left out. *)
Definition decodepskt_fee `{Policy} (psktx : PartiallySignedTransaction.t)
  : option (option CAmount) :=
  _ ← PartiallySignedTransaction.tx psktx;
  '(total_in, have_all_utxos) ←
    loop_over (decodepskt_input psktx)
              (seq 0 (length (PartiallySignedTransaction.inputs psktx))) (0, true);
  '(output_value, have_all_utxos) ←
    loop_over (decodepskt_output psktx)
              (seq 0 (length (PartiallySignedTransaction.outputs psktx)))
              (0, have_all_utxos);
  Some (if (have_all_utxos : bool) then Some (sub64 total_in output_value) else None).

(** [static_cast<uint32_t>(v)] of an [int32_t] and [static_cast<int32_t>(v)]
    of a [uint32_t]. *)
Definition to_uint32 (v : Z) : Z := v mod 2^32.
Definition to_int32 (v : Z) : Z := (v + 2^31) mod 2^32 - 2^31.

(** The first loop of [joinpskts] over the decoded PSKTs: "Choose the
    highest version number" and "Choose the lowest lock time", from
    [best_version = 1] and [best_locktime = 0xffffffff]. *)
Fixpoint join_best (psktxs : list PartiallySignedTransaction.t) (best : Z * N)
  : option (Z * N) :=
  match psktxs with
  | [] => Some best
  | psktx :: rest =>
      tx ← PartiallySignedTransaction.tx psktx;
      let best_version :=
        if best.1 <? to_uint32 (CMutableTransaction.nVersion tx)
        then to_uint32 (CMutableTransaction.nVersion tx) else best.1 in
      let best_locktime :=
        if (CMutableTransaction.nLockTime tx <? best.2)%N
        then CMutableTransaction.nLockTime tx else best.2 in
      join_best rest (best_version, best_locktime)
  end.

(** "Create a blank pskt where everything will be added": a default PSKT
    over an empty transaction with the given version and lock time. *)
Definition join_start (nVersion : Z) (nLockTime : N) : PartiallySignedTransaction.t :=
  set_tx {| CMutableTransaction.vin := []; CMutableTransaction.vout := [];
            CMutableTransaction.nVersion := nVersion;
            CMutableTransaction.nLockTime := nLockTime |}
         PartiallySignedTransaction.default.

(** One iteration of the input loop of [joinpskts] for [pskt]:
    [merged_pskt.AddInput(pskt.tx->vin[i], pskt.inputs[i])], the exception
    when that returns false. *)
Definition join_input (pskt : PartiallySignedTransaction.t) (i : nat) (r : join_result)
  : option join_result :=
  match r with
  | InputExists outpoint => Some (InputExists outpoint)
  | Joined merged_pskt =>
      tx ← PartiallySignedTransaction.tx pskt;
      txin ← CMutableTransaction.vin tx !! i;
      psktin ← PartiallySignedTransaction.inputs pskt !! i;
      '(added, merged_pskt', _) ←
        PartiallySignedTransaction.AddInput merged_pskt txin psktin;
      if (added : bool) then Some (Joined merged_pskt')
      else Some (InputExists (CTxIn.prevout txin))
  end.

(** One iteration of the output loop:
    [merged_pskt.AddOutput(pskt.tx->vout[i], pskt.outputs[i])]. *)
Definition join_output (pskt : PartiallySignedTransaction.t) (i : nat)
  (merged_pskt : PartiallySignedTransaction.t) : option PartiallySignedTransaction.t :=
  tx ← PartiallySignedTransaction.tx pskt;
  txout ← CMutableTransaction.vout tx !! i;
  psktout ← PartiallySignedTransaction.outputs pskt !! i;
  '(_, merged_pskt') ← PartiallySignedTransaction.AddOutput merged_pskt txout psktout;
  Some merged_pskt'.

(** The xpub loop and [unknown.insert] that close the body of the merge
    loop. *)
Definition join_globals (pskt merged_pskt : PartiallySignedTransaction.t)
  : PartiallySignedTransaction.t :=
  {| PartiallySignedTransaction.m_xpubs :=
       merge_xpubs (PartiallySignedTransaction.m_xpubs merged_pskt)
                   (PartiallySignedTransaction.m_xpubs pskt);
     PartiallySignedTransaction.unknown :=
       insert_range (PartiallySignedTransaction.unknown merged_pskt)
                    (PartiallySignedTransaction.unknown pskt);
     PartiallySignedTransaction.tx := PartiallySignedTransaction.tx merged_pskt;
     PartiallySignedTransaction.inputs := PartiallySignedTransaction.inputs merged_pskt;
     PartiallySignedTransaction.outputs := PartiallySignedTransaction.outputs merged_pskt;
     PartiallySignedTransaction.m_version :=
       PartiallySignedTransaction.m_version merged_pskt;
     PartiallySignedTransaction.m_proprietary :=
       PartiallySignedTransaction.m_proprietary merged_pskt |}.

(** The body of the merge loop for one PSKT; an exception ends the RPC. *)
Definition join_one (r : join_result) (pskt : PartiallySignedTransaction.t)
  : option join_result :=
  tx ← PartiallySignedTransaction.tx pskt;
  r ← loop_over (join_input pskt) (seq 0 (length (CMutableTransaction.vin tx))) r;
  match r with
  | InputExists outpoint => Some (InputExists outpoint)
  | Joined merged_pskt =>
      merged_pskt ←
        loop_over (join_output pskt) (seq 0 (length (CMutableTransaction.vout tx)))
                  merged_pskt;
      Some (Joined (join_globals pskt merged_pskt))
  end.

(** The merge loop over all PSKTs. *)
Fixpoint join_all (psktxs : list PartiallySignedTransaction.t) (r : join_result)
  : option join_result :=
  match psktxs with
  | [] => Some r
  | pskt :: rest =>
      match r with
      | InputExists outpoint => Some (InputExists outpoint)
      | Joined _ => r' ← join_one r pskt; join_all rest r'
      end
  end.

(** The shuffled copy: [shuffled_pskt.AddInput(merged_pskt.tx->vin[i],
    merged_pskt.inputs[i])] for [i] in [input_indices] (the result of
    [AddInput] is not looked at), the same for the outputs, then the
    unknown records.  The two index vectors are what [Shuffle] made of
    [0 .. size-1]. *)
Definition shuffle_input (merged_pskt : PartiallySignedTransaction.t) (i : nat)
  (shuffled_pskt : PartiallySignedTransaction.t) : option PartiallySignedTransaction.t :=
  tx ← PartiallySignedTransaction.tx merged_pskt;
  txin ← CMutableTransaction.vin tx !! i;
  psktin ← PartiallySignedTransaction.inputs merged_pskt !! i;
  '(_, shuffled_pskt', _) ←
    PartiallySignedTransaction.AddInput shuffled_pskt txin psktin;
  Some shuffled_pskt'.

Definition shuffle_pskt (merged_pskt : PartiallySignedTransaction.t)
  (input_indices output_indices : list nat) : option PartiallySignedTransaction.t :=
  tx ← PartiallySignedTransaction.tx merged_pskt;
  let shuffled_pskt :=
    join_start (CMutableTransaction.nVersion tx) (CMutableTransaction.nLockTime tx) in
  shuffled_pskt ← loop_over (shuffle_input merged_pskt) input_indices shuffled_pskt;
  shuffled_pskt ← loop_over (join_output merged_pskt) output_indices shuffled_pskt;
  Some {| PartiallySignedTransaction.unknown :=
            insert_range (PartiallySignedTransaction.unknown shuffled_pskt)
                         (PartiallySignedTransaction.unknown merged_pskt);
          PartiallySignedTransaction.tx := PartiallySignedTransaction.tx shuffled_pskt;
          PartiallySignedTransaction.inputs :=
            PartiallySignedTransaction.inputs shuffled_pskt;
          PartiallySignedTransaction.outputs :=
            PartiallySignedTransaction.outputs shuffled_pskt;
          PartiallySignedTransaction.m_xpubs :=
            PartiallySignedTransaction.m_xpubs shuffled_pskt;
          PartiallySignedTransaction.m_version :=
            PartiallySignedTransaction.m_version shuffled_pskt;
          PartiallySignedTransaction.m_proprietary :=
            PartiallySignedTransaction.m_proprietary shuffled_pskt |}.

(** What [joinpskts] answers from the decoded PSKTs on. *)
Inductive joinpskts_result :=
  | JoinedPSKT (shuffled_pskt : PartiallySignedTransaction.t)
  | TooFewPSKTs
  | InputInMultiplePSKTs (outpoint : COutPoint.t).

(** [joinpskts] from the decoded PSKTs on, given the two shuffled index
    vectors as functions of the merged PSKT's sizes. *)
Definition joinpskts (psktxs : list PartiallySignedTransaction.t)
  (shuffle_inputs shuffle_outputs : list nat → list nat) : option joinpskts_result :=
  if (length psktxs <=? 1)%nat then Some TooFewPSKTs
  else
    '(best_version, best_locktime) ← join_best psktxs (1, 4294967295%N);
    r ← join_all psktxs (Joined (join_start (to_int32 best_version) best_locktime));
    match r with
    | InputExists outpoint => Some (InputInMultiplePSKTs outpoint)
    | Joined merged_pskt =>
        let input_indices :=
          shuffle_inputs
            (seq 0 (length (PartiallySignedTransaction.inputs merged_pskt))) in
        let output_indices :=
          shuffle_outputs
            (seq 0 (length (PartiallySignedTransaction.outputs merged_pskt))) in
        shuffled_pskt ← shuffle_pskt merged_pskt input_indices output_indices;
        Some (JoinedPSKT shuffled_pskt)
    end.

(* ===================================================================== *)
(** ** Vocabulary of the further properties *)
(* ===================================================================== *)

(** The fields of an input record that neither [FromSignatureData] nor the
    witness-UTXO assignment of [SignPSKTInput] writes. *)
Definition PSKTInput_unsigned_fields (i : PSKTInput.t) :=
  (PSKTInput.non_witness_utxo i, PSKTInput.ripemd160_preimages i,
   PSKTInput.sha256_preimages i, PSKTInput.hash160_preimages i,
   PSKTInput.hash256_preimages i, PSKTInput.unknown i,
   PSKTInput.m_proprietary i, PSKTInput.sighash_type i).

(** What [FinalizePSKT] may do to one input record: the fields above stay,
    and a signed record stays as it is. *)
Definition finalized_from (input input' : PSKTInput.t) : Prop :=
  PSKTInput_unsigned_fields input' = PSKTInput_unsigned_fields input ∧
  (PSKTInputSigned input = true → input' = input).

(** [result.vin[i]] as [FinalizeAndExtractPSKT] leaves it: the input of the
    unsigned transaction with the final scriptSig and witness of the
    record. *)
Definition extracted_txin (input : PSKTInput.t) (txin : CTxIn.t) : CTxIn.t :=
  {| CTxIn.scriptSig := PSKTInput.final_script_sig input;
     CTxIn.scriptWitness := PSKTInput.final_script_witness input;
     CTxIn.prevout := CTxIn.prevout txin;
     CTxIn.nSequence := CTxIn.nSequence txin |}.

(** The row [AnalyzePSKT] records for input [j], read off its first loop:
    [found] is what [GetInputUTXO] answered for the input. *)
Definition input_row `{TxHasher, KeyHasher, ScriptSigner, Policy}
  (tx : CMutableTransaction.t) (txdata : PrecomputedTransactionData.t) (j : nat)
  (input : PSKTInput.t) (found : bool) (ia : PSKTInputAnalysis.t) : Prop :=
  PSKTInputAnalysis.has_utxo ia = found ∧
  PSKTInputAnalysis.is_final ia = found && PSKTInputSigned input ∧
  (found = false → PSKTInputAnalysis.next ia = UPDATER) ∧
  (found = true → PSKTInputSigned input = true →
   PSKTInputAnalysis.next ia = EXTRACTOR) ∧
  (found = true → PSKTInputSigned input = false →
   ∀ complete r outdata,
     sign_input DUMMY_SIGNING_PROVIDER tx input j (Some txdata) 1
       (Some SignatureData.default) SignPSKTInput_finalize_default
       = Some (complete, r, Some outdata) →
     PSKTInputAnalysis.next ia =
       (if complete then FINALIZER
        else if node.only_missing_sigs outdata then SIGNER else UPDATER) ∧
     (complete = false →
      PSKTInputAnalysis.missing_pubkeys ia = SignatureData.missing_pubkeys outdata ∧
      PSKTInputAnalysis.missing_sigs ia = SignatureData.missing_sigs outdata ∧
      PSKTInputAnalysis.missing_redeem_script ia =
        SignatureData.missing_redeem_script outdata ∧
      PSKTInputAnalysis.missing_witness_script ia =
        SignatureData.missing_witness_script outdata)).

(** A result in the state [SetInvalid] leaves. *)
Definition invalid_analysis (result : PSKTAnalysis.t) : Prop :=
  PSKTAnalysis.error result ≠ "" ∧
  PSKTAnalysis.fee result = None ∧
  PSKTAnalysis.estimated_vsize result = None ∧
  PSKTAnalysis.estimated_feerate result = None ∧
  PSKTAnalysis.inputs result = [] ∧
  PSKTAnalysis.next result = CREATOR.

(** Input [i] of [psktx] carries what the first loop of [AnalyzePSKT]
    rejects: a spent output whose value is out of range or whose script is
    unspendable, or a non-witness UTXO without an output at [prevout.n]. *)
Definition fatal_input `{TxHasher, Policy} (psktx : PartiallySignedTransaction.t)
  (i : nat) : Prop :=
  (∃ utxo,
     PartiallySignedTransaction.GetInputUTXO psktx CTxOut.Null i = Some (true, utxo) ∧
     (MoneyRange (CTxOut.nValue utxo) = false ∨
      IsUnspendable (CTxOut.scriptPubKey utxo) = true)) ∨
  (∃ tx input txin prev,
     PartiallySignedTransaction.tx psktx = Some tx ∧
     PartiallySignedTransaction.inputs psktx !! i = Some input ∧
     CMutableTransaction.vin tx !! i = Some txin ∧
     PSKTInput.non_witness_utxo input = Some prev ∧
     (N.of_nat (length (CMutableTransaction.vout prev)) ≤
        COutPoint.n (CTxIn.prevout txin))%N).

(** The predecessor transaction held by input [i], if there is one, has an
    output at that input's [prevout.n]. *)
Definition prevout_in_range (psktx : PartiallySignedTransaction.t) (i : nat) : Prop :=
  ∀ tx input txin prev,
    PartiallySignedTransaction.tx psktx = Some tx →
    PartiallySignedTransaction.inputs psktx !! i = Some input →
    CMutableTransaction.vin tx !! i = Some txin →
    PSKTInput.non_witness_utxo input = Some prev →
    (COutPoint.n (CTxIn.prevout txin) <
       N.of_nat (length (CMutableTransaction.vout prev)))%N.

(** The inputs of the unsigned transaction, each with its record, and the
    same for the outputs. *)
Definition input_pairs (p : PartiallySignedTransaction.t)
  : list (CTxIn.t * PSKTInput.t) :=
  match PartiallySignedTransaction.tx p with
  | Some tx => zip (CMutableTransaction.vin tx) (PartiallySignedTransaction.inputs p)
  | None => []
  end.

Definition output_pairs (p : PartiallySignedTransaction.t)
  : list (CTxOut.t * PSKTOutput.t) :=
  match PartiallySignedTransaction.tx p with
  | Some tx => zip (CMutableTransaction.vout tx) (PartiallySignedTransaction.outputs p)
  | None => []
  end.

(** An input and its record as [AddInput] stores them. *)
Definition added_input (pair : CTxIn.t * PSKTInput.t) : CTxIn.t * PSKTInput.t :=
  (pair.1, PSKTInput.clear_signatures pair.2).

(** What [CTxIn::operator==] compares: two inputs are equal for it, and for
    the [std::find] of [AddInput], exactly when these agree. *)
Definition CTxIn_key (txin : CTxIn.t) : COutPoint.t * CScript * N :=
  (CTxIn.prevout txin, CTxIn.scriptSig txin, CTxIn.nSequence txin).

(** The first input of [vin] that equals, under [CTxIn::operator==], one of
    [seen] or an earlier input of [vin]. *)
Fixpoint first_repeated (seen vin : list CTxIn.t) : option CTxIn.t :=
  match vin with
  | [] => None
  | txin :: rest =>
      if existsb (λ old, CTxIn.eqb old txin) seen then Some txin
      else first_repeated (seen ++ [txin]) rest
  end.

(** [p] after [AddInput] has accepted each of [pairs] in turn, and after
    [AddOutput] was called with each of [pairs] in turn. *)
Definition add_inputs (p : PartiallySignedTransaction.t)
  (pairs : list (CTxIn.t * PSKTInput.t)) : PartiallySignedTransaction.t :=
  {| PartiallySignedTransaction.tx :=
       (λ tx, {| CMutableTransaction.vin := CMutableTransaction.vin tx ++ pairs.*1;
                 CMutableTransaction.vout := CMutableTransaction.vout tx;
                 CMutableTransaction.nVersion := CMutableTransaction.nVersion tx;
                 CMutableTransaction.nLockTime := CMutableTransaction.nLockTime tx |})
       <$> PartiallySignedTransaction.tx p;
     PartiallySignedTransaction.inputs :=
       PartiallySignedTransaction.inputs p ++ (PSKTInput.clear_signatures <$> pairs.*2);
     PartiallySignedTransaction.outputs := PartiallySignedTransaction.outputs p;
     PartiallySignedTransaction.m_xpubs := PartiallySignedTransaction.m_xpubs p;
     PartiallySignedTransaction.unknown := PartiallySignedTransaction.unknown p;
     PartiallySignedTransaction.m_version := PartiallySignedTransaction.m_version p;
     PartiallySignedTransaction.m_proprietary :=
       PartiallySignedTransaction.m_proprietary p |}.

Definition add_outputs (p : PartiallySignedTransaction.t)
  (pairs : list (CTxOut.t * PSKTOutput.t)) : PartiallySignedTransaction.t :=
  {| PartiallySignedTransaction.tx :=
       (λ tx, {| CMutableTransaction.vout := CMutableTransaction.vout tx ++ pairs.*1;
                 CMutableTransaction.vin := CMutableTransaction.vin tx;
                 CMutableTransaction.nVersion := CMutableTransaction.nVersion tx;
                 CMutableTransaction.nLockTime := CMutableTransaction.nLockTime tx |})
       <$> PartiallySignedTransaction.tx p;
     PartiallySignedTransaction.outputs :=
       PartiallySignedTransaction.outputs p ++ pairs.*2;
     PartiallySignedTransaction.inputs := PartiallySignedTransaction.inputs p;
     PartiallySignedTransaction.m_xpubs := PartiallySignedTransaction.m_xpubs p;
     PartiallySignedTransaction.unknown := PartiallySignedTransaction.unknown p;
     PartiallySignedTransaction.m_version := PartiallySignedTransaction.m_version p;
     PartiallySignedTransaction.m_proprietary :=
       PartiallySignedTransaction.m_proprietary p |}.

Module Sample.

(** A stand-in transaction hash for the examples: it separates the sample
    transactions below by version, lock time and number of inputs. *)
Definition hasher : TxHasher :=
  λ tx, (Z.to_N (CMutableTransaction.nVersion tx) * 65536 +
         CMutableTransaction.nLockTime tx * 256 +
         N.of_nat (length (CMutableTransaction.vin tx)))%N.

Definition key_hasher : KeyHasher := λ pk, N.of_nat (length pk).

Definition outpoint (h n : N) : COutPoint.t :=
  {| COutPoint.hash := h; COutPoint.n := n |}.

Definition txin (h n seq : N) : CTxIn.t :=
  {| CTxIn.prevout := outpoint h n; CTxIn.scriptSig := [];
     CTxIn.nSequence := seq; CTxIn.scriptWitness := CScriptWitness.Null |}.

Definition txout (v : CAmount) (spk : CScript) : CTxOut.t :=
  {| CTxOut.nValue := v; CTxOut.scriptPubKey := spk |}.

Definition mktx (vin : list CTxIn.t) (vout : list CTxOut.t) : CMutableTransaction.t :=
  {| CMutableTransaction.vin := vin; CMutableTransaction.vout := vout;
     CMutableTransaction.nVersion := 2; CMutableTransaction.nLockTime := 0 |}.

(** A PSKT spending outpoint 7:0 with the final sequence number. *)
Definition spend_7_0 : PartiallySignedTransaction.t :=
  PartiallySignedTransaction.from_tx
    (mktx [txin 7 0 4294967295] [txout 50 [Byte.x51]]).

(** The same outpoint 7:0 again, signalling replaceability. *)
Definition txin_7_0_rbf : CTxIn.t := txin 7 0 4294967293.

(** An input record that carries one partial signature, both final fields
    and a redeem script. *)
Definition signed_record : PSKTInput.t :=
  {| PSKTInput.partial_sigs := {[ 33%N := ([Byte.x02], [Byte.x30]) ]};
     PSKTInput.final_script_sig := [Byte.x00];
     PSKTInput.final_script_witness := {| CScriptWitness.stack := [[Byte.x30]] |};
     PSKTInput.redeem_script := [Byte.x51];
     PSKTInput.non_witness_utxo := None;
     PSKTInput.witness_utxo := txout 50 [Byte.x00];
     PSKTInput.witness_script := []; PSKTInput.hd_keypaths := ∅;
     PSKTInput.ripemd160_preimages := ∅; PSKTInput.sha256_preimages := ∅;
     PSKTInput.hash160_preimages := ∅; PSKTInput.hash256_preimages := ∅;
     PSKTInput.m_tap_key_sig := []; PSKTInput.m_tap_script_sigs := ∅;
     PSKTInput.m_tap_scripts := ∅; PSKTInput.m_tap_bip32_paths := ∅;
     PSKTInput.m_tap_internal_key := 0%N; PSKTInput.m_tap_merkle_root := 0%N;
     PSKTInput.unknown := ∅;
     PSKTInput.m_proprietary :=
       {[ {| PSKTProprietary.subtype := 1%N; PSKTProprietary.identifier := [Byte.x6b];
             PSKTProprietary.key := [Byte.x01]; PSKTProprietary.value := [Byte.x02] |} ]};
     PSKTInput.sighash_type := Some 1 |}.

Definition proprietary (k v : byte) : PSKTProprietary.t :=
  {| PSKTProprietary.subtype := 1%N; PSKTProprietary.identifier := [Byte.x6b];
     PSKTProprietary.key := [k]; PSKTProprietary.value := [v] |}.

(** A PSKT over the sample transaction (one input, one output) as a signer
    would return it: a partial signature [v] under key id [id] for the
    public key [k], an unknown global record [k] with value [v], and a
    proprietary record in the global section, the input and the output. *)
Definition signed_by (id : CKeyID) (k v : byte) : PartiallySignedTransaction.t :=
  {| PartiallySignedTransaction.tx :=
       Some (mktx [txin 7 0 4294967295] [txout 50 [Byte.x51]]);
     PartiallySignedTransaction.m_xpubs := ∅;
     PartiallySignedTransaction.inputs :=
       [ {| PSKTInput.m_proprietary := {[ proprietary k v ]};
            PSKTInput.partial_sigs := {[ id := ([k], [v]) ]};
            PSKTInput.final_script_sig := [];
            PSKTInput.final_script_witness := CScriptWitness.Null;
            PSKTInput.redeem_script := [];
            PSKTInput.non_witness_utxo := None;
            PSKTInput.witness_utxo := CTxOut.Null;
            PSKTInput.witness_script := []; PSKTInput.hd_keypaths := ∅;
            PSKTInput.ripemd160_preimages := ∅; PSKTInput.sha256_preimages := ∅;
            PSKTInput.hash160_preimages := ∅; PSKTInput.hash256_preimages := ∅;
            PSKTInput.m_tap_key_sig := []; PSKTInput.m_tap_script_sigs := ∅;
            PSKTInput.m_tap_scripts := ∅; PSKTInput.m_tap_bip32_paths := ∅;
            PSKTInput.m_tap_internal_key := 0%N; PSKTInput.m_tap_merkle_root := 0%N;
            PSKTInput.unknown := ∅; PSKTInput.sighash_type := None |} ];
     PartiallySignedTransaction.outputs :=
       [ {| PSKTOutput.m_proprietary := {[ proprietary k v ]};
            PSKTOutput.redeem_script := []; PSKTOutput.witness_script := [];
            PSKTOutput.hd_keypaths := ∅; PSKTOutput.m_tap_internal_key := 0%N;
            PSKTOutput.m_tap_tree := []; PSKTOutput.m_tap_bip32_paths := ∅;
            PSKTOutput.unknown := ∅ |} ];
     PartiallySignedTransaction.unknown := {[ [k] := [v] ]};
     PartiallySignedTransaction.m_version := None;
     PartiallySignedTransaction.m_proprietary := {[ proprietary k v ]} |}.

(** The same with the key id 33 for every signer: two such PSKTs hold
    different signatures under one key. *)
Definition with_proprietary (k v : byte) : PartiallySignedTransaction.t :=
  signed_by 33 k v.

(** A PSKT over another transaction (two inputs, no output). *)
Definition other_tx : PartiallySignedTransaction.t :=
  PartiallySignedTransaction.from_tx (mktx [txin 9 0 0; txin 9 1 0] []).

(** A toy signer for the examples.  A script starting with byte 0x00 is a
    witness program.  One partial signature completes any script: the
    final witness stack (for a witness program) or the final scriptSig
    (otherwise) is made of the script itself.  Without a signature nothing
    is produced and the key 1 is reported as a missing signer. *)
Definition is_witness_program (script : CScript) : bool :=
  match script with Byte.x00 :: _ => true | _ => false end.

Definition produce (script : CScript) (d : SignatureData.t) : bool * SignatureData.t :=
  let have_sig := negb (bool_decide (SignatureData.signatures d = ∅)) in
  let wit := is_witness_program script in
  (have_sig,
   {| SignatureData.complete := have_sig;
      SignatureData.witness := wit;
      SignatureData.scriptSig :=
        if have_sig && negb wit then Byte.x01 :: script else SignatureData.scriptSig d;
      SignatureData.scriptWitness :=
        if have_sig && wit then {| CScriptWitness.stack := [script] |}
        else SignatureData.scriptWitness d;
      SignatureData.missing_sigs := if have_sig then [] else [1%N];
      SignatureData.signatures := SignatureData.signatures d;
      SignatureData.redeem_script := SignatureData.redeem_script d;
      SignatureData.witness_script := SignatureData.witness_script d;
      SignatureData.misc_pubkeys := SignatureData.misc_pubkeys d;
      SignatureData.taproot_key_path_sig := SignatureData.taproot_key_path_sig d;
      SignatureData.taproot_script_sigs := SignatureData.taproot_script_sigs d;
      SignatureData.tr_spenddata := SignatureData.tr_spenddata d;
      SignatureData.taproot_misc_pubkeys := SignatureData.taproot_misc_pubkeys d;
      SignatureData.missing_pubkeys := [];
      SignatureData.missing_redeem_script := 0%N;
      SignatureData.missing_witness_script := 0%N |}).

Definition signer : ScriptSigner :=
  {| SigningProvider := unit;
     DUMMY_SIGNING_PROVIDER := tt;
     ProduceSignature := λ _ _ script d, produce script d |}.

(** An input record holding only a witness UTXO. *)
Definition record_with_witness_utxo (utxo : CTxOut.t) : PSKTInput.t :=
  PSKTInput.set_witness_utxo utxo PSKTInput.default.

(** An input record holding a witness UTXO, one partial signature and no
    final field. *)
Definition record_with_signature (utxo : CTxOut.t) : PSKTInput.t :=
  {| PSKTInput.partial_sigs := {[ 33%N := ([Byte.x02], [Byte.x30]) ]};
     PSKTInput.witness_utxo := utxo;
     PSKTInput.final_script_sig := [];
     PSKTInput.final_script_witness := CScriptWitness.Null;
     PSKTInput.redeem_script := []; PSKTInput.non_witness_utxo := None;
     PSKTInput.witness_script := []; PSKTInput.hd_keypaths := ∅;
     PSKTInput.ripemd160_preimages := ∅; PSKTInput.sha256_preimages := ∅;
     PSKTInput.hash160_preimages := ∅; PSKTInput.hash256_preimages := ∅;
     PSKTInput.m_tap_key_sig := []; PSKTInput.m_tap_script_sigs := ∅;
     PSKTInput.m_tap_scripts := ∅; PSKTInput.m_tap_bip32_paths := ∅;
     PSKTInput.m_tap_internal_key := 0%N; PSKTInput.m_tap_merkle_root := 0%N;
     PSKTInput.unknown := ∅; PSKTInput.m_proprietary := ∅;
     PSKTInput.sighash_type := None |}.

(** A PSKT over the sample transaction with the given input record. *)
Definition spend_with (input : PSKTInput.t) : PartiallySignedTransaction.t :=
  set_input 0 input spend_7_0.

(** Stand-ins for the consensus and policy code: 21 million coins of 10^8
    units as the maximum amount, a script starting with OP_RETURN (0x6a) as
    the unspendable one, 100 vbytes per input as the size estimate. *)
Definition policy : Policy :=
  {| MAX_MONEY := 2100000000000000;
     IsUnspendable := λ script, match script with Byte.x6a :: _ => true | _ => false end;
     STANDARD_SCRIPT_VERIFY_FLAGS := 0%N;
     nBytesPerSigOp := 20%N;
     GetTransactionSigOpCost := λ _ _ _, 0;
     GetVirtualTransactionSize :=
       λ tx _ _, 100 * Z.of_nat (length (CMutableTransaction.vin tx));
     CFeeRate_of :=
       λ fee size, {| CFeeRate.nSatoshisPerK := if 0 <? size then fee * 1000 / size else 0 |};
     SignPSKTInput_finalize_default := true |}.

(** A PSKT whose only input holds a witness UTXO of 90 units paying to a
    witness program, and nothing else; the transaction pays out 50. *)
Definition unsigned_segwit : PartiallySignedTransaction.t :=
  spend_with (record_with_witness_utxo (txout 90 [Byte.x00; Byte.x14])).

(** The same with a spent output that pays to an OP_RETURN script. *)
Definition spends_op_return : PartiallySignedTransaction.t :=
  spend_with (record_with_witness_utxo (txout 90 [Byte.x6a])).
(** An input record holding a predecessor transaction and a witness UTXO,
    and nothing else. *)
Definition record_with_predecessor (prev : CMutableTransaction.t) (utxo : CTxOut.t)
  : PSKTInput.t :=
  {| PSKTInput.non_witness_utxo := Some prev;
     PSKTInput.witness_utxo := utxo;
     PSKTInput.redeem_script := []; PSKTInput.witness_script := [];
     PSKTInput.final_script_sig := [];
     PSKTInput.final_script_witness := CScriptWitness.Null;
     PSKTInput.hd_keypaths := ∅; PSKTInput.partial_sigs := ∅;
     PSKTInput.ripemd160_preimages := ∅; PSKTInput.sha256_preimages := ∅;
     PSKTInput.hash160_preimages := ∅; PSKTInput.hash256_preimages := ∅;
     PSKTInput.m_tap_key_sig := []; PSKTInput.m_tap_script_sigs := ∅;
     PSKTInput.m_tap_scripts := ∅; PSKTInput.m_tap_bip32_paths := ∅;
     PSKTInput.m_tap_internal_key := 0%N; PSKTInput.m_tap_merkle_root := 0%N;
     PSKTInput.unknown := ∅; PSKTInput.m_proprietary := ∅;
     PSKTInput.sighash_type := None |}.

(** A predecessor transaction with one output of 90 units; its sample hash
    is not 7, the hash the sample input names. *)
Definition foreign_predecessor : CMutableTransaction.t :=
  mktx [] [txout 90 [Byte.x51]].

(** A PSKT whose only input holds that predecessor beside a witness UTXO. *)
Definition spends_foreign : PartiallySignedTransaction.t :=
  spend_with (record_with_predecessor foreign_predecessor (txout 70 [Byte.x00])).

(** A PSKT whose only input carries one partial signature over a witness
    program. *)
Definition signed_segwit : PartiallySignedTransaction.t :=
  spend_with (record_with_signature (txout 90 [Byte.x00; Byte.x14])).
End Sample.

(* ===================================================================== *)
(** * Properties *)
(* ===================================================================== *)

(* --------------------------------------------------------------------- *)
(** ** AddInput *)
(* --------------------------------------------------------------------- *)

Lemma CTxIn_eqb_spec (a b : CTxIn.t) :
  CTxIn.eqb a b = true ↔
  CTxIn.prevout a = CTxIn.prevout b ∧ CTxIn.scriptSig a = CTxIn.scriptSig b ∧
  CTxIn.nSequence a = CTxIn.nSequence b.
Proof.
  unfold CTxIn.eqb. rewrite !andb_true_iff, !bool_decide_eq_true. tauto.
Qed.

(** [AddInput] refuses exactly the inputs that [std::find] locates: those
    for which [tx->vin] holds an element with the same outpoint, the same
    scriptSig and the same sequence number. *)
Lemma AddInput_refuses_iff_found (this : PartiallySignedTransaction.t)
  (tx : CMutableTransaction.t) (txin : CTxIn.t) (psktin : PSKTInput.t) :
  PartiallySignedTransaction.tx this = Some tx →
  PartiallySignedTransaction.AddInput this txin psktin = Some (false, this, psktin) ↔
  ∃ old, old ∈ CMutableTransaction.vin tx ∧
         CTxIn.prevout old = CTxIn.prevout txin ∧
         CTxIn.scriptSig old = CTxIn.scriptSig txin ∧
         CTxIn.nSequence old = CTxIn.nSequence txin.
Proof.
  intros Htx. unfold PartiallySignedTransaction.AddInput. rewrite Htx. simpl.
  destruct (existsb _ _) eqn:E.
  - split; [intros _|done].
    apply existsb_exists in E as (old & Hin & Heq).
    exists old. rewrite list_elem_of_In. by apply CTxIn_eqb_spec in Heq.
  - split; [done|]. intros (old & Hin & Heq).
    assert (existsb (λ old, CTxIn.eqb old txin) (CMutableTransaction.vin tx) = true) as E'.
    { apply existsb_exists. exists old. rewrite <- list_elem_of_In.
      split; [done|]. by apply CTxIn_eqb_spec. }
    congruence.
Qed.

(** C7 (the code at the failing input): a PSKT that already spends
    outpoint 7:0 accepts a second input spending 7:0 when only its sequence
    number differs; the result lists the outpoint twice, with one record per
    entry. *)
Theorem AddInput_accepts_outpoint_already_spent :
  ∃ this',
    PartiallySignedTransaction.AddInput Sample.spend_7_0 Sample.txin_7_0_rbf
      PSKTInput.default = Some (true, this', PSKTInput.default) ∧
    ((λ tx, CTxIn.prevout <$> CMutableTransaction.vin tx) <$>
       PartiallySignedTransaction.tx this')
      = Some [Sample.outpoint 7 0; Sample.outpoint 7 0] ∧
    length (PartiallySignedTransaction.inputs this') = 2%nat.
Proof. eexists. split; [reflexivity|]. split; reflexivity. Qed.



(* --------------------------------------------------------------------- *)
(** ** Merge: frame and success condition *)
(* --------------------------------------------------------------------- *)

Lemma merge_each_Some_length {A} (f : A → A → A) (mine theirs : list A) :
  (length mine ≤ length theirs)%nat →
  merge_each f mine theirs = Some (zip_with f mine theirs).
Proof.
  revert theirs. induction mine as [|x xs IH]; intros [|y ys] Hlen; simpl in *;
    try done; try lia.
  rewrite IH by lia. done.
Qed.

Lemma merge_each_Some_inv {A} (f : A → A → A) (mine theirs merged : list A) :
  merge_each f mine theirs = Some merged →
  (length mine ≤ length theirs)%nat ∧ merged = zip_with f mine theirs.
Proof.
  revert theirs merged. induction mine as [|x xs IH]; intros [|y ys] merged; simpl;
    try done.
  - intros [= <-]. split; [lia|done].
  - intros [= <-]. split; [simpl; lia|done].
  - destruct (merge_each f xs ys) as [rest|] eqn:E; [simpl|done].
    intros [= <-]. destruct (IH _ _ E) as [Hlen ->]. split; [simpl; lia|done].
Qed.

Lemma zip_with_fmap_frame {A B} (f : A → A → A) (g : A → B) (xs ys : list A) :
  (∀ x y, g (f x y) = g x) →
  (length xs ≤ length ys)%nat →
  g <$> zip_with f xs ys = g <$> xs.
Proof.
  intros Hg. revert ys. induction xs as [|x xs IH]; intros [|y ys] Hlen; simpl in *;
    try done; try lia.
  rewrite Hg, IH by lia. done.
Qed.

(** What a successful [Merge] returns. *)
Lemma Merge_true_inv `{TxHasher} (a b a' : PartiallySignedTransaction.t) :
  PartiallySignedTransaction.Merge a b = Some (true, a') →
  (length (PartiallySignedTransaction.inputs a) ≤
     length (PartiallySignedTransaction.inputs b))%nat ∧
  (length (PartiallySignedTransaction.outputs a) ≤
     length (PartiallySignedTransaction.outputs b))%nat ∧
  a' = merge_result a b.
Proof.
  unfold PartiallySignedTransaction.Merge, merge_result.
  destruct (PartiallySignedTransaction.tx a) as [ta|]; [simpl|done].
  destruct (PartiallySignedTransaction.tx b) as [tb|]; [simpl|done].
  case_bool_decide; [done|].
  destruct (merge_each PSKTInput.Merge _ _) as [ins|] eqn:Ei; [simpl|done].
  destruct (merge_each PSKTOutput.Merge _ _) as [outs|] eqn:Eo; [simpl|done].
  apply merge_each_Some_inv in Ei as [Hi ->].
  apply merge_each_Some_inv in Eo as [Ho ->].
  by intros [= <-].
Qed.

(** C9: a successful [Merge(a, b)] leaves the proprietary records of [a]
    as they were, in the global section, in every input record and in every
    output record; nothing of [b]'s proprietary records enters the result. *)
Theorem Merge_leaves_proprietary_untouched `{TxHasher}
  (a b a' : PartiallySignedTransaction.t) :
  PartiallySignedTransaction.Merge a b = Some (true, a') →
  PartiallySignedTransaction.m_proprietary a' =
    PartiallySignedTransaction.m_proprietary a ∧
  PSKTInput.m_proprietary <$> PartiallySignedTransaction.inputs a' =
    PSKTInput.m_proprietary <$> PartiallySignedTransaction.inputs a ∧
  PSKTOutput.m_proprietary <$> PartiallySignedTransaction.outputs a' =
    PSKTOutput.m_proprietary <$> PartiallySignedTransaction.outputs a.
Proof.
  intros (Hi & Ho & ->)%Merge_true_inv. simpl.
  split; [done|]. split; by apply zip_with_fmap_frame.
Qed.

(** The theorem above at a sample: two PSKTs over one transaction, each
    with proprietary records of its own in all three places. *)
Lemma Merge_leaves_proprietary_untouched_witness :
  ∃ a',
    PartiallySignedTransaction.Merge (H := Sample.hasher)
      (Sample.with_proprietary Byte.x01 Byte.x02)
      (Sample.with_proprietary Byte.x03 Byte.x04) = Some (true, a') ∧
    PartiallySignedTransaction.m_proprietary a' =
      {[ Sample.proprietary Byte.x01 Byte.x02 ]} ∧
    PSKTInput.m_proprietary <$> PartiallySignedTransaction.inputs a' =
      [ {[ Sample.proprietary Byte.x01 Byte.x02 ]} ] ∧
    PSKTOutput.m_proprietary <$> PartiallySignedTransaction.outputs a' =
      [ {[ Sample.proprietary Byte.x01 Byte.x02 ]} ].
Proof.
  eexists. split; [reflexivity|].
  exact (Merge_leaves_proprietary_untouched (H := Sample.hasher)
           (Sample.with_proprietary Byte.x01 Byte.x02)
           (Sample.with_proprietary Byte.x03 Byte.x04) _ eq_refl).
Defined.

Lemma Merge_in_range `{TxHasher} (a b : PartiallySignedTransaction.t)
  (ta tb : CMutableTransaction.t) :
  PartiallySignedTransaction.tx a = Some ta →
  PartiallySignedTransaction.tx b = Some tb →
  (length (PartiallySignedTransaction.inputs a) ≤
     length (PartiallySignedTransaction.inputs b))%nat →
  (length (PartiallySignedTransaction.outputs a) ≤
     length (PartiallySignedTransaction.outputs b))%nat →
  PartiallySignedTransaction.Merge a b =
    if bool_decide (GetHash ta ≠ GetHash tb) then Some (false, a)
    else Some (true, merge_result a b).
Proof.
  intros Ha Hb Hi Ho. unfold PartiallySignedTransaction.Merge, merge_result.
  rewrite Ha, Hb. simpl. case_bool_decide; [done|].
  rewrite !merge_each_Some_length by done. done.
Qed.

Lemma well_formed_tx (p : PartiallySignedTransaction.t) :
  well_formed p →
  ∃ tx, PartiallySignedTransaction.tx p = Some tx ∧
        length (PartiallySignedTransaction.inputs p) = length (CMutableTransaction.vin tx) ∧
        length (PartiallySignedTransaction.outputs p) = length (CMutableTransaction.vout tx).
Proof.
  unfold well_formed. destruct (PartiallySignedTransaction.tx p); [|done].
  intros [??]. eauto.
Qed.

(** Two well-formed PSKTs over one transaction have as many records. *)
Lemma well_formed_same_tx_lengths (a b : PartiallySignedTransaction.t) :
  well_formed a → well_formed b →
  PartiallySignedTransaction.tx a = PartiallySignedTransaction.tx b →
  length (PartiallySignedTransaction.inputs a) =
    length (PartiallySignedTransaction.inputs b) ∧
  length (PartiallySignedTransaction.outputs a) =
    length (PartiallySignedTransaction.outputs b).
Proof.
  intros (ta & Ha & Hai & Hao)%well_formed_tx (tb & Hb & Hbi & Hbo)%well_formed_tx Heq.
  assert (ta = tb) as -> by congruence. split; congruence.
Qed.

Lemma merge_result_well_formed (a b : PartiallySignedTransaction.t) :
  well_formed a →
  length (PartiallySignedTransaction.inputs a) =
    length (PartiallySignedTransaction.inputs b) →
  length (PartiallySignedTransaction.outputs a) =
    length (PartiallySignedTransaction.outputs b) →
  well_formed (merge_result a b).
Proof.
  unfold well_formed, merge_result. simpl.
  destruct (PartiallySignedTransaction.tx a); [|done].
  intros [Hi Ho] Hli Hlo. rewrite !length_zip_with. split; lia.
Qed.

(** [Merge] on well-formed PSKTs whose txids do not collide: it returns,
    and it returns true exactly when the txids agree. *)
Lemma Merge_well_formed `{TxHasher} (a b : PartiallySignedTransaction.t) :
  well_formed a → well_formed b →
  (txid a = txid b → PartiallySignedTransaction.tx a = PartiallySignedTransaction.tx b) →
  (txid a = txid b ∧
   PartiallySignedTransaction.Merge a b = Some (true, merge_result a b)) ∨
  (txid a ≠ txid b ∧ PartiallySignedTransaction.Merge a b = Some (false, a)).
Proof.
  intros Ha Hb Hcoll.
  destruct (well_formed_tx _ Ha) as (ta & Hta & _).
  destruct (well_formed_tx _ Hb) as (tb & Htb & _).
  unfold txid in *. rewrite Hta, Htb in *. simpl in *.
  destruct (decide (GetHash ta = GetHash tb)) as [Heq|Hne].
  - left. split; [by rewrite Heq|].
    destruct (well_formed_same_tx_lengths a b) as [Hi Ho]; [done|done| |].
    { rewrite Hta, Htb. apply Hcoll. by rewrite Heq. }
    rewrite (Merge_in_range a b ta tb) by (done || lia).
    by rewrite bool_decide_eq_false_2 by (by intros ?).
  - right. split; [congruence|].
    unfold PartiallySignedTransaction.Merge. rewrite Hta, Htb. simpl.
    by rewrite bool_decide_eq_true_2.
Qed.

Lemma combine_loop_spec `{TxHasher} (rest : list PartiallySignedTransaction.t) :
  ∀ out : PartiallySignedTransaction.t,
  well_formed out → Forall well_formed rest →
  (∀ p, p ∈ rest → txid p = txid out →
        PartiallySignedTransaction.tx p = PartiallySignedTransaction.tx out) →
  ∃ err out',
    combine_loop out rest = Some (err, out') ∧
    (err = PSKT_MISMATCH ↔ ∃ p, p ∈ rest ∧ txid p ≠ txid out) ∧
    (err = OK ↔ ∀ p, p ∈ rest → txid p = txid out).
Proof.
  induction rest as [|p rest IH]; intros out Hout Hall Hcoll; simpl.
  - eexists _, _. split; [done|]. split; split; try done.
    + intros (p & Hp & _). by apply elem_of_nil in Hp.
    + intros _ p Hp. by apply elem_of_nil in Hp.
  - apply Forall_cons in Hall as [Hp Hall].
    destruct (Merge_well_formed out p) as [[Heq ->]|[Hne ->]]; [done|done| | |].
    + intros E. symmetry. apply Hcoll; [left|done].
    + simpl.
      assert (PartiallySignedTransaction.tx p = PartiallySignedTransaction.tx out) as Htx
        by (apply Hcoll; [left|done]).
      destruct (well_formed_same_tx_lengths out p) as [Hi Ho]; [done|done|done|].
      destruct (IH (merge_result out p)) as (err & out' & -> & Hmis & Hok).
      * by apply merge_result_well_formed.
      * done.
      * intros q Hq Hqid. simpl. apply Hcoll; [by right|]. exact Hqid.
      * exists err, out'. split; [done|]. split.
        -- rewrite Hmis. split.
           ++ intros (q & Hq & Hne). exists q. split; [by right|exact Hne].
           ++ intros (q & [->|Hq]%elem_of_cons & Hne); [by rewrite Heq in Hne|].
              exists q. split; [done|exact Hne].
        -- rewrite Hok. split.
           ++ intros Hall' q [->|Hq]%elem_of_cons; [done|]. by apply Hall'.
           ++ intros Hall' q Hq. apply Hall'. by right.
    + simpl. eexists _, _. split; [done|]. split; split; try done.
      * intros _. exists p. split; [left|]. congruence.
      * intros Hall'. exfalso. apply Hne. symmetry. apply Hall'. left.
Qed.



(* --------------------------------------------------------------------- *)
(** ** SignPSKTInput: the failing paths *)
(* --------------------------------------------------------------------- *)

(** C3: on an input that is not yet signed, [SignPSKTInput] returns false
    and leaves the PSKT and [*out_sigdata] as they were when
    (a) the input has no non-witness UTXO and a null witness UTXO, or
    (b) it has a non-witness UTXO and either [prevout.n] is not an index of
        that transaction's outputs or that transaction's hash is not
        [prevout.hash], or
    (c) it has only a witness UTXO and [ProduceSignature] leaves
        [sigdata.witness] false. *)
Theorem SignPSKTInput_fails_without_verified_utxo `{TxHasher, KeyHasher, ScriptSigner}
  (provider : SigningProvider) (pskt : PartiallySignedTransaction.t) (index : nat)
  (txdata : option PrecomputedTransactionData.t) (sighash : Z)
  (out_sigdata : option SignatureData.t) (finalize : bool)
  (input : PSKTInput.t) (tx : CMutableTransaction.t) :
  PartiallySignedTransaction.inputs pskt !! index = Some input →
  PartiallySignedTransaction.tx pskt = Some tx →
  PSKTInputSigned input = false →
  (PSKTInput.non_witness_utxo input = None ∧
   CTxOut.IsNull (PSKTInput.witness_utxo input) = true) ∨
  (∃ prev txin,
     PSKTInput.non_witness_utxo input = Some prev ∧
     CMutableTransaction.vin tx !! index = Some txin ∧
     ((N.of_nat (length (CMutableTransaction.vout prev)) ≤
         COutPoint.n (CTxIn.prevout txin))%N ∨
      GetHash prev ≠ COutPoint.hash (CTxIn.prevout txin))) ∨
  (PSKTInput.non_witness_utxo input = None ∧
   CTxOut.IsNull (PSKTInput.witness_utxo input) = false ∧
   SignatureData.witness
     (ProduceSignature provider
        (sign_creator tx index (PSKTInput.witness_utxo input) txdata sighash)
        (CTxOut.scriptPubKey (PSKTInput.witness_utxo input))
        (SignatureData.set_witness false
           (PSKTInput.FillSignatureData input SignatureData.default))).2 = false) →
  SignPSKTInput provider pskt index txdata sighash out_sigdata finalize =
    Some (false, pskt, out_sigdata).
Proof.
  intros Hin Htx Hunsigned Hcase. unfold SignPSKTInput.
  rewrite Hin, Htx. simpl. rewrite Hunsigned.
  unfold sign_resolve_utxo.
  destruct Hcase as [[Hnw Hnull]|[(prev & txin & Hnw & Hvin & Hbad)|(Hnw & Hnull & Hwit)]].
  - rewrite Hnw, Hnull. done.
  - rewrite Hnw, Hvin. simpl. destruct Hbad as [Hrange|Hhash].
    + apply N.leb_le in Hrange. rewrite Hrange. done.
    + destruct (_ <=? _)%N; [done|]. by rewrite bool_decide_eq_true_2.
  - rewrite Hnw, Hnull. simpl.
    destruct (ProduceSignature _ _ _ _) as [sig_complete sigdata]. simpl in *.
    rewrite Hwit. done.
Qed.

(** The theorem above at a sample, path (c): the input holds a witness UTXO
    that pays to a script which is not a witness program, so the toy signer
    makes no witness signature. *)
Lemma SignPSKTInput_fails_without_verified_utxo_witness :
  SignPSKTInput (H := Sample.hasher) (H0 := Sample.key_hasher) (H1 := Sample.signer) tt
    (Sample.spend_with (Sample.record_with_signature (Sample.txout 50 [Byte.x51])))
    0 None 1 (Some SignatureData.default) true =
  Some (false,
        Sample.spend_with (Sample.record_with_signature (Sample.txout 50 [Byte.x51])),
        Some SignatureData.default).
Proof.
  eapply (SignPSKTInput_fails_without_verified_utxo
            (H := Sample.hasher) (H0 := Sample.key_hasher) (H1 := Sample.signer)).
  - reflexivity.
  - reflexivity.
  - reflexivity.
  - right. right. split; [reflexivity|]. split; reflexivity.
Defined.

(* --------------------------------------------------------------------- *)
(** ** SignPSKTInput and GetInputUTXO work on one input record *)
(* --------------------------------------------------------------------- *)

Lemma set_input_same (p : PartiallySignedTransaction.t) (i : nat) (input : PSKTInput.t) :
  PartiallySignedTransaction.inputs p !! i = Some input → set_input i input p = p.
Proof.
  intros Hin. destruct p. unfold set_input. simpl in *.
  by rewrite list_insert_id.
Qed.

Lemma SignPSKTInput_sign_input `{TxHasher, KeyHasher, ScriptSigner}
  (provider : SigningProvider) (pskt : PartiallySignedTransaction.t) (index : nat)
  (txdata : option PrecomputedTransactionData.t) (sighash : Z)
  (out_sigdata : option SignatureData.t) (finalize : bool) :
  SignPSKTInput provider pskt index txdata sighash out_sigdata finalize =
  input ← PartiallySignedTransaction.inputs pskt !! index;
  tx ← PartiallySignedTransaction.tx pskt;
  r ← sign_input provider tx input index txdata sighash out_sigdata finalize;
  Some (r.1.1, set_input index r.1.2 pskt, r.2).
Proof.
  unfold SignPSKTInput, sign_input.
  destruct (PartiallySignedTransaction.inputs pskt !! index) as [input|] eqn:Hin;
    [simpl|done].
  destruct (PartiallySignedTransaction.tx pskt) as [tx|]; [simpl|done].
  destruct (PSKTInputSigned input); simpl.
  { by rewrite set_input_same. }
  destruct (sign_resolve_utxo tx input index) as [[[utxo req]|]|]; simpl; [| |done].
  - destruct (ProduceSignature _ _ _ _) as [sig_complete sigdata]. 
    destruct (req && negb (SignatureData.witness sigdata)); simpl.
    + by rewrite set_input_same.
    + done.
  - by rewrite set_input_same.
Qed.

Lemma GetInputUTXO_local `{TxHasher} (p q : PartiallySignedTransaction.t)
  (utxo : CTxOut.t) (i : nat) :
  PartiallySignedTransaction.tx p = PartiallySignedTransaction.tx q →
  PartiallySignedTransaction.inputs p !! i = PartiallySignedTransaction.inputs q !! i →
  PartiallySignedTransaction.GetInputUTXO p utxo i =
  PartiallySignedTransaction.GetInputUTXO q utxo i.
Proof.
  intros Htx Hin. unfold PartiallySignedTransaction.GetInputUTXO.
  by rewrite Htx, Hin.
Qed.

(** [GetInputUTXO] and the lookup inlined in [SignPSKTInput] find the same
    spent output. *)
Lemma GetInputUTXO_resolve `{TxHasher} (p : PartiallySignedTransaction.t)
  (tx : CMutableTransaction.t) (input : PSKTInput.t) (utxo0 : CTxOut.t) (i : nat) :
  PartiallySignedTransaction.tx p = Some tx →
  PartiallySignedTransaction.inputs p !! i = Some input →
  is_Some (CMutableTransaction.vin tx !! i) →
  PartiallySignedTransaction.GetInputUTXO p utxo0 i =
  match sign_resolve_utxo tx input i with
  | Some (Some (utxo, _)) => Some (true, utxo)
  | Some None => Some (false, utxo0)
  | None => None
  end.
Proof.
  intros Htx Hin [txin Hvin].
  unfold PartiallySignedTransaction.GetInputUTXO, sign_resolve_utxo.
  rewrite Htx, Hin. simpl. rewrite Hvin. simpl.
  destruct (PSKTInput.non_witness_utxo input) as [prev|].
  - destruct (_ <=? _)%N; [done|]. case_bool_decide; [done|].
    by destruct (CMutableTransaction.vout prev !! _).
  - by destruct (CTxOut.IsNull _).
Qed.

Lemma sign_resolve_utxo_total `{TxHasher} (tx : CMutableTransaction.t)
  (input : PSKTInput.t) (i : nat) :
  is_Some (CMutableTransaction.vin tx !! i) →
  is_Some (sign_resolve_utxo tx input i).
Proof.
  intros [txin Hvin]. unfold sign_resolve_utxo. rewrite Hvin. simpl.
  destruct (PSKTInput.non_witness_utxo input) as [prev|].
  - destruct (_ <=? _)%N eqn:E; [done|]. case_bool_decide; [done|].
    apply N.leb_gt in E.
    destruct (lookup_lt_is_Some_2 (CMutableTransaction.vout prev)
                (N.to_nat (COutPoint.n (CTxIn.prevout txin)))) as [out ->]; [lia|].
    done.
  - by destruct (CTxOut.IsNull _).
Qed.

Lemma sign_input_total `{TxHasher, KeyHasher, ScriptSigner}
  (provider : SigningProvider) (tx : CMutableTransaction.t) (input : PSKTInput.t)
  (index : nat) (txdata : option PrecomputedTransactionData.t) (sighash : Z)
  (out_sigdata : option SignatureData.t) (finalize : bool) :
  is_Some (CMutableTransaction.vin tx !! index) →
  is_Some (sign_input provider tx input index txdata sighash out_sigdata finalize).
Proof.
  intros Hvin. unfold sign_input.
  destruct (PSKTInputSigned input); [done|].
  destruct (sign_resolve_utxo_total tx input index Hvin) as [[[utxo req]|] ->]; simpl;
    [|done].
  destruct (ProduceSignature _ _ _ _) as [sig_complete sigdata].
  by destruct (req && negb (SignatureData.witness sigdata)).
Qed.

(** [*out_sigdata] stays a valid pointer: it is [Some] after the call when
    it was before. *)
Lemma sign_input_out_sigdata `{TxHasher, KeyHasher, ScriptSigner}
  (provider : SigningProvider) (tx : CMutableTransaction.t) (input : PSKTInput.t)
  (index : nat) (txdata : option PrecomputedTransactionData.t) (sighash : Z)
  (out0 : SignatureData.t) (finalize : bool) r :
  sign_input provider tx input index txdata sighash (Some out0) finalize = Some r →
  is_Some r.2.
Proof.
  unfold sign_input. destruct (PSKTInputSigned input); [by intros [= <-]|].
  destruct (sign_resolve_utxo tx input index) as [[[utxo req]|]|]; simpl;
    [|by intros [= <-]|done].
  destruct (ProduceSignature _ _ _ _) as [sig_complete sigdata].
  destruct (req && negb (SignatureData.witness sigdata)); by intros [= <-].
Qed.

(** The well-formed PSKTs, seen through list lookups. *)
Lemma well_formed_lookup (p : PartiallySignedTransaction.t)
  (tx : CMutableTransaction.t) (i : nat) :
  PartiallySignedTransaction.tx p = Some tx →
  length (PartiallySignedTransaction.inputs p) = length (CMutableTransaction.vin tx) →
  (i < length (CMutableTransaction.vin tx))%nat →
  is_Some (PartiallySignedTransaction.inputs p !! i) ∧
  is_Some (CMutableTransaction.vin tx !! i).
Proof.
  intros _ Hlen Hi. split; apply lookup_lt_is_Some_2; lia.
Qed.

Lemma GetInputUTXO_total `{TxHasher} (p : PartiallySignedTransaction.t)
  (tx : CMutableTransaction.t) (utxo0 : CTxOut.t) (i : nat) :
  PartiallySignedTransaction.tx p = Some tx →
  length (PartiallySignedTransaction.inputs p) = length (CMutableTransaction.vin tx) →
  (i < length (CMutableTransaction.vin tx))%nat →
  is_Some (PartiallySignedTransaction.GetInputUTXO p utxo0 i).
Proof.
  intros Htx Hlen Hi.
  destruct (well_formed_lookup p tx i Htx Hlen Hi) as [[input Hin] Hvin].
  rewrite (GetInputUTXO_resolve p tx input) by done.
  destruct (sign_resolve_utxo_total tx input i Hvin) as [[[utxo req]|] ->]; done.
Qed.

Lemma mapM_is_Some_seq {A} (f : nat → option A) (start len : nat) :
  (∀ i, (start ≤ i < start + len)%nat → is_Some (f i)) →
  is_Some (mapM f (seq start len)).
Proof.
  intros Hf. apply mapM_is_Some, Forall_forall.
  intros i Hi%elem_of_seq. apply Hf. lia.
Qed.

Lemma PrecomputePSKTData_total `{TxHasher} (p : PartiallySignedTransaction.t) :
  well_formed p → is_Some (PrecomputePSKTData p).
Proof.
  intros (tx & Htx & Hi & _)%well_formed_tx. unfold PrecomputePSKTData.
  rewrite Htx. simpl.
  destruct (mapM_is_Some_seq
              (λ idx, PartiallySignedTransaction.GetInputUTXO p CTxOut.Null idx)
              0 (length (CMutableTransaction.vin tx))) as [found ->]; [|done].
  intros i Hlt. apply (GetInputUTXO_total p tx); [done|done|lia].
Qed.

(* --------------------------------------------------------------------- *)
(** ** AnalyzePSKT: next roles *)
(* --------------------------------------------------------------------- *)

Lemma MoneyRange_not_null `{Policy} (utxo : CTxOut.t) :
  MoneyRange (CTxOut.nValue utxo) = true → CTxOut.IsNull utxo = false.
Proof.
  unfold MoneyRange, CTxOut.IsNull. intros [H1 _]%andb_true_iff.
  apply Z.leb_le in H1. apply Z.eqb_neq. lia.
Qed.

Lemma PSKTRole_min_gt (a b : PSKTRole) :
  PSKTRole_ltb CREATOR a = true → PSKTRole_ltb CREATOR b = true →
  PSKTRole_ltb CREATOR (PSKTRole_min a b) = true.
Proof. unfold PSKTRole_min. by destruct (PSKTRole_ltb b a). Qed.

Section analyze.
Context `{TxHasher, KeyHasher, ScriptSigner, Policy}.

Lemma analyze_input_inr (txdata : PrecomputedTransactionData.t) (i : nat)
  (st st' : node.loop_state) (tx : CMutableTransaction.t) (input : PSKTInput.t) :
  PartiallySignedTransaction.tx (node.psktx st) = Some tx →
  PartiallySignedTransaction.inputs (node.psktx st) !! i = Some input →
  node.analyze_input txdata i st = Some (inr st') →
  ∃ input' ia,
    node.psktx st' = set_input i input' (node.psktx st) ∧
    node.analyses st' = <[i := ia]> (node.analyses st) ∧
    PSKTRole_ltb CREATOR (PSKTInputAnalysis.next ia) = true ∧
    (∀ utxo r outdata,
       PartiallySignedTransaction.GetInputUTXO (node.psktx st) CTxOut.Null i
         = Some (true, utxo) →
       PSKTInputSigned input = false →
       sign_input DUMMY_SIGNING_PROVIDER tx input i (Some txdata) 1
         (Some SignatureData.default) SignPSKTInput_finalize_default
         = Some (false, r, Some outdata) →
       PSKTInputAnalysis.next ia =
         if node.only_missing_sigs outdata then SIGNER else UPDATER) ∧
    (∀ utxo,
       PartiallySignedTransaction.GetInputUTXO (node.psktx st) CTxOut.Null i
         = Some (true, utxo) →
       node.in_amt st' = add64 (node.in_amt st) (CTxOut.nValue utxo) ∧
       node.calc_fee st' = node.calc_fee st).
Proof.
  intros Htx Hin. unfold node.analyze_input.
  rewrite Hin, Htx. simpl.
  destruct (node.analyses st !! i) as [ia0|]; [simpl|done].
  destruct (CMutableTransaction.vin tx !! i) as [txin|]; [simpl|done].
  destruct (PartiallySignedTransaction.GetInputUTXO _ _ _) as [[found utxo]|] eqn:Hget;
    [simpl|done].
  destruct found.
  - destruct (negb (MoneyRange (CTxOut.nValue utxo)) || _) eqn:Hmoney; [done|].
    apply orb_false_iff in Hmoney as [Hm1%negb_false_iff Hm2%negb_false_iff].
    rewrite (MoneyRange_not_null utxo Hm1). simpl.
    destruct (IsUnspendable _); [done|].
    destruct (PSKTInputSigned input) eqn:Hsigned; simpl.
    + intros [= <-]. simpl. eexists input, _. rewrite set_input_same by done.
      repeat split; try done; try (by simplify_eq).
    + rewrite SignPSKTInput_sign_input, Hin, Htx. simpl.
      destruct (sign_input _ _ _ _ _ _ _ _) as [[[ok input'] out]|] eqn:Hsign; [simpl|done].
      destruct out as [outdata|]; [simpl|done].
      intros [= <-]. simpl. eexists input', _.
      repeat split; try done; try (by simplify_eq).
      * destruct ok; simpl; [done|]. by destruct (node.only_missing_sigs outdata).
      * intros ??? _ _ [= -> _ <-]. simpl.
        by destruct (node.only_missing_sigs outdata).
  - destruct (match PSKTInput.non_witness_utxo input with Some _ => _ | None => _ end);
      [done|]. simpl.
    assert (utxo = CTxOut.Null) as ->.
    { unfold PartiallySignedTransaction.GetInputUTXO in Hget.
      rewrite Hin, Htx in Hget. simpl in Hget.
      destruct (CMutableTransaction.vin tx !! i); [simpl in Hget|done].
      destruct (PSKTInput.non_witness_utxo input) as [prev|].
      - revert Hget. destruct (_ <=? _)%N; [by intros [= <-]|].
        case_bool_decide; [by intros [= <-]|].
        by destruct (CMutableTransaction.vout prev !! _).
      - revert Hget. by destruct (CTxOut.IsNull _); intros [= <-]. }
    simpl. intros [= <-]. simpl. eexists input, _. rewrite set_input_same by done.
    repeat split; try done; try (by simplify_eq).
Qed.

Lemma analyze_input_total (txdata : PrecomputedTransactionData.t) (i : nat)
  (st : node.loop_state) (tx : CMutableTransaction.t) :
  PartiallySignedTransaction.tx (node.psktx st) = Some tx →
  length (PartiallySignedTransaction.inputs (node.psktx st)) =
    length (CMutableTransaction.vin tx) →
  (i < length (CMutableTransaction.vin tx))%nat →
  (i < length (node.analyses st))%nat →
  is_Some (node.analyze_input txdata i st).
Proof.
  intros Htx Hlen Hi Han.
  destruct (well_formed_lookup _ tx i Htx Hlen Hi) as [[input Hin] [txin Hvin]].
  destruct (lookup_lt_is_Some_2 (node.analyses st) i Han) as [ia0 Hia].
  destruct (GetInputUTXO_total (node.psktx st) tx CTxOut.Null i Htx Hlen Hi)
    as [[found utxo] Hget].
  unfold node.analyze_input. rewrite Hin, Hia, Htx. simpl. rewrite Hvin. simpl.
  rewrite Hget. simpl.
  set (checked := if found then _ else _).
  destruct checked as [msg|[[in_amt' calc_fee'] ia]]; [by eexists|].
  destruct (negb (CTxOut.IsNull utxo) && IsUnspendable _); [by eexists|].
  destruct (negb (CTxOut.IsNull utxo) && negb (PSKTInputSigned input)); [|by eexists].
  rewrite SignPSKTInput_sign_input, Hin, Htx. simpl.
  destruct (sign_input_total DUMMY_SIGNING_PROVIDER tx input i (Some txdata) 1
              (Some SignatureData.default) SignPSKTInput_finalize_default)
    as [r Hr]; [by eexists|].
  rewrite Hr. simpl.
  destruct (sign_input_out_sigdata _ _ _ _ _ _ _ _ _ Hr) as [outdata ->]. by eexists.
Qed.

Lemma analyze_input_inl (txdata : PrecomputedTransactionData.t) (i : nat)
  (st : node.loop_state) (msg : string) :
  node.analyze_input txdata i st = Some (inl msg) → msg ≠ "".
Proof.
  unfold node.analyze_input.
  destruct (PartiallySignedTransaction.inputs _ !! i) as [input|]; [simpl|done].
  destruct (node.analyses st !! i) as [ia0|]; [simpl|done].
  destruct (PartiallySignedTransaction.tx _) as [tx|]; [simpl|done].
  destruct (CMutableTransaction.vin tx !! i) as [txin|]; [simpl|done].
  destruct (PartiallySignedTransaction.GetInputUTXO _ _ _) as [[found utxo]|];
    [simpl|done].
  set (checked := if found then _ else _).
  assert (∀ m, checked = inl m → m ≠ "") as Hchecked.
  { subst checked. intros m. destruct found.
    - destruct (_ || _); [|done]. by intros [= <-].
    - destruct (match PSKTInput.non_witness_utxo input with Some _ => _ | None => _ end);
        [|done]. by intros [= <-]. }
  destruct checked as [m|[[in_amt' calc_fee'] ia]].
  { intros [= <-]. by apply Hchecked. }
  destruct (negb (CTxOut.IsNull utxo) && IsUnspendable _); [by intros [= <-]|].
  destruct (negb (CTxOut.IsNull utxo) && negb (PSKTInputSigned input)); [|done].
  destruct (SignPSKTInput _ _ _ _ _ _ _) as [[[complete psktx'] [outdata|]]|]; done.
Qed.

Lemma analyze_input_Some_lookups (txdata : PrecomputedTransactionData.t) (i : nat)
  (st : node.loop_state) r :
  node.analyze_input txdata i st = Some r →
  is_Some (PartiallySignedTransaction.inputs (node.psktx st) !! i) ∧
  is_Some (node.analyses st !! i).
Proof.
  unfold node.analyze_input.
  destruct (PartiallySignedTransaction.inputs _ !! i) as [input|]; [simpl|done].
  destruct (node.analyses st !! i) as [ia0|]; [simpl|done].
  intros _. split; by eexists.
Qed.

Lemma analyze_inputs_inr (txdata : PrecomputedTransactionData.t)
  (psktx0 : PartiallySignedTransaction.t) (tx : CMutableTransaction.t) (m : nat) :
  ∀ (k : nat) (st st' : node.loop_state),
  PartiallySignedTransaction.tx psktx0 = Some tx →
  PartiallySignedTransaction.tx (node.psktx st) = Some tx →
  (∀ j, (k ≤ j)%nat →
        PartiallySignedTransaction.inputs (node.psktx st) !! j =
        PartiallySignedTransaction.inputs psktx0 !! j) →
  node.analyze_inputs txdata (seq k m) st = Some (inr st') →
  PartiallySignedTransaction.tx (node.psktx st') = Some tx ∧
  length (PartiallySignedTransaction.inputs (node.psktx st')) =
    length (PartiallySignedTransaction.inputs (node.psktx st)) ∧
  length (node.analyses st') = length (node.analyses st) ∧
  (∀ j, (j < k)%nat → node.analyses st' !! j = node.analyses st !! j) ∧
  (∀ j, (k ≤ j < k + m)%nat →
        ∃ ia, node.analyses st' !! j = Some ia ∧
              analysis_of_input psktx0 tx txdata j ia).
Proof.
  induction m as [|m IH]; intros k st st' Htx0 Htx Hframe; simpl.
  - intros [= <-]. repeat split; try done. intros j Hj. lia.
  - destruct (node.analyze_input txdata k st) as [[msg|st1]|] eqn:Hstep; simpl;
      [done| |done].
    intros Hrest.
    destruct (analyze_input_Some_lookups _ _ _ _ Hstep) as [[input Hin] [ia0 Hia0]].
    destruct (analyze_input_inr txdata k st st1 tx input Htx Hin Hstep)
      as (input' & ia & Hp & Ha & Hgt & Hrole & _).
    destruct (IH (S k) st1 st' Htx0) as (Htx' & Hlen & Hlena & Hbefore & Hin_range);
      [by rewrite Hp|..|done|].
    { intros j Hj. rewrite Hp. simpl.
      rewrite list_lookup_insert_ne by lia. apply Hframe. lia. }
    split; [done|]. split.
    { rewrite Hlen, Hp. simpl. by rewrite length_insert. }
    split.
    { rewrite Hlena, Ha. by rewrite length_insert. }
    split.
    { intros j Hj. rewrite Hbefore by lia. rewrite Ha.
      by rewrite list_lookup_insert_ne by lia. }
    intros j Hj. destruct (decide (j = k)) as [->|Hne].
    + exists ia. split.
      * rewrite Hbefore by lia. rewrite Ha.
        apply list_lookup_insert_eq. by eapply lookup_lt_Some.
      * split; [done|]. intros input1 utxo r outdata Hin1 Hget Hsigned Hsign.
        rewrite <- Hframe in Hin1 by lia. assert (input1 = input) as -> by congruence.
        eapply Hrole; [|done|done].
        rewrite <- Hget. apply GetInputUTXO_local; [congruence|]. apply Hframe. lia.
    + apply Hin_range. lia.
Qed.

Lemma analyze_inputs_total (txdata : PrecomputedTransactionData.t)
  (tx : CMutableTransaction.t) (m : nat) :
  ∀ (k : nat) (st : node.loop_state),
  PartiallySignedTransaction.tx (node.psktx st) = Some tx →
  length (PartiallySignedTransaction.inputs (node.psktx st)) =
    length (CMutableTransaction.vin tx) →
  (k + m ≤ length (CMutableTransaction.vin tx))%nat →
  (k + m ≤ length (node.analyses st))%nat →
  is_Some (node.analyze_inputs txdata (seq k m) st).
Proof.
  induction m as [|m IH]; intros k st Htx Hlen Hk Han; simpl; [by eexists|].
  destruct (analyze_input_total txdata k st tx) as [[msg|st1] Hstep];
    [done|done|lia|lia|..]; rewrite Hstep; simpl; [by eexists|].
  destruct (analyze_input_Some_lookups _ _ _ _ Hstep) as [[input Hin] _].
  destruct (analyze_input_inr txdata k st st1 tx input Htx Hin Hstep)
    as (input' & ia & Hp & Ha & _).
  apply IH.
  - by rewrite Hp.
  - rewrite Hp. simpl. by rewrite length_insert.
  - lia.
  - rewrite Ha, length_insert. lia.
Qed.

Lemma estimate_loop_total (tx : CMutableTransaction.t) (m : nat) :
  ∀ (k : nat) (psktx : PartiallySignedTransaction.t) (mtx : CMutableTransaction.t)
    (view : gmap COutPoint.t Coin.t),
  PartiallySignedTransaction.tx psktx = Some tx →
  length (PartiallySignedTransaction.inputs psktx) = length (CMutableTransaction.vin tx) →
  length (CMutableTransaction.vin mtx) = length (CMutableTransaction.vin tx) →
  (k + m ≤ length (CMutableTransaction.vin tx))%nat →
  is_Some (node.estimate_loop (seq k m) psktx mtx view).
Proof.
  induction m as [|m IH]; intros k psktx mtx view Htx Hlen Hmtx Hk; simpl;
    [by eexists|].
  destruct (well_formed_lookup psktx tx k Htx Hlen) as [[input Hin] [txin Hvin]]; [lia|].
  rewrite SignPSKTInput_sign_input, Hin, Htx. simpl.
  destruct (sign_input_total DUMMY_SIGNING_PROVIDER tx input k None 1 None
              SignPSKTInput_finalize_default) as [[[ok input'] out] ->]; [by eexists|].
  simpl. destruct ok; simpl; [|by eexists].
  assert (length (PartiallySignedTransaction.inputs (set_input k input' psktx)) =
          length (CMutableTransaction.vin tx)) as Hlen'.
  { simpl. by rewrite length_insert. }
  destruct (GetInputUTXO_total (set_input k input' psktx) tx CTxOut.Null k)
    as [[found out'] ->]; [done|done|lia|].
  simpl. destruct found; simpl; [|by eexists].
  rewrite list_lookup_insert_eq by (rewrite Hlen; lia). simpl.
  rewrite Htx. simpl. rewrite Hvin. simpl.
  destruct (lookup_lt_is_Some_2 (CMutableTransaction.vin mtx) k) as [mtxin ->]; [lia|].
  simpl. apply IH; simpl; try done; try lia.
  by rewrite length_insert.
Qed.

Lemma minimum_role_fold_gt (l : list PSKTInputAnalysis.t) (start : PSKTRole) :
  PSKTRole_ltb CREATOR start = true →
  Forall (λ ia, PSKTRole_ltb CREATOR (PSKTInputAnalysis.next ia) = true) l →
  PSKTRole_ltb CREATOR
    (fold_left (λ next ia, PSKTRole_min next (PSKTInputAnalysis.next ia)) l start) = true.
Proof.
  revert start. induction l as [|ia l IH]; intros start Hs Hall; simpl; [done|].
  apply Forall_cons in Hall as [Hia Hall].
  apply IH; [|done]. by apply PSKTRole_min_gt.
Qed.

Lemma minimum_role_fold_le (l : list PSKTInputAnalysis.t) (start : PSKTRole) :
  let result :=
    fold_left (λ next ia, PSKTRole_min next (PSKTInputAnalysis.next ia)) l start in
  PSKTRole_value result ≤ PSKTRole_value start ∧
  (∀ ia, ia ∈ l → PSKTRole_value result ≤ PSKTRole_value (PSKTInputAnalysis.next ia)) ∧
  (result = start ∨ ∃ ia, ia ∈ l ∧ result = PSKTInputAnalysis.next ia).
Proof.
  revert start. induction l as [|ia l IH]; intros start; simpl.
  - split; [lia|]. split; [|by left]. intros ia Hia. by apply elem_of_nil in Hia.
  - destruct (IH (PSKTRole_min start (PSKTInputAnalysis.next ia))) as (Hle & Hall & Hex).
    assert (PSKTRole_value (PSKTRole_min start (PSKTInputAnalysis.next ia)) ≤
              PSKTRole_value start ∧
            PSKTRole_value (PSKTRole_min start (PSKTInputAnalysis.next ia)) ≤
              PSKTRole_value (PSKTInputAnalysis.next ia)) as [Hm1 Hm2].
    { unfold PSKTRole_min, PSKTRole_ltb.
      destruct (_ <? _) eqn:E; [apply Z.ltb_lt in E|apply Z.ltb_ge in E]; lia. }
    split; [lia|]. split.
    + intros ia' [->|Hia']%elem_of_cons; [lia|]. by apply Hall.
    + destruct Hex as [Heq|(ia' & Hia' & Heq)].
      * rewrite Heq. unfold PSKTRole_min.
        destruct (PSKTRole_ltb _ _); [right|by left].
        exists ia. split; [left|done].
      * right. exists ia'. split; [by right|done].
Qed.

(** The state in which [AnalyzePSKT] enters its first loop. *)
Lemma analyze_inputs_from_start (txdata : PrecomputedTransactionData.t)
  (psktx : PartiallySignedTransaction.t) (tx : CMutableTransaction.t)
  (st' : node.loop_state) :
  PartiallySignedTransaction.tx psktx = Some tx →
  node.analyze_inputs txdata (seq 0 (length (CMutableTransaction.vin tx)))
    {| node.psktx := psktx; node.in_amt := 0; node.calc_fee := true;
       node.analyses :=
         replicate (length (CMutableTransaction.vin tx)) PSKTInputAnalysis.zero |}
    = Some (inr st') →
  PartiallySignedTransaction.tx (node.psktx st') = Some tx ∧
  length (PartiallySignedTransaction.inputs (node.psktx st')) =
    length (PartiallySignedTransaction.inputs psktx) ∧
  length (node.analyses st') = length (CMutableTransaction.vin tx) ∧
  (∀ j ia, node.analyses st' !! j = Some ia → analysis_of_input psktx tx txdata j ia) ∧
  PSKTRole_ltb CREATOR (node.minimum_role (node.analyses st')) = true.
Proof.
  intros Htx Hrun.
  eapply (analyze_inputs_inr txdata psktx tx) in Hrun
    as (Htx' & Hlen & Hlena & _ & Hrole); [|done|done|done].
  simpl in Hlen, Hlena. rewrite length_replicate in Hlena.
  assert (∀ j ia, node.analyses st' !! j = Some ia →
                  analysis_of_input psktx tx txdata j ia) as Hall.
  { intros j ia Hj. destruct (Hrole j) as (ia' & Hj' & Hprop).
    - apply lookup_lt_Some in Hj. lia.
    - congruence. }
  split_and!; try done.
  apply minimum_role_fold_gt; [done|]. apply Forall_lookup.
  intros j ia Hj. by destruct (Hall j ia Hj).
Qed.

Lemma AnalyzePSKT_total (psktx : PartiallySignedTransaction.t) :
  well_formed psktx → is_Some (node.AnalyzePSKT psktx).
Proof.
  intros Hwf. destruct (PrecomputePSKTData_total psktx Hwf) as [txdata Htd].
  destruct (well_formed_tx _ Hwf) as (tx & Htx & Hlen & _).
  unfold node.AnalyzePSKT. rewrite Htx. simpl. rewrite Htd. simpl.
  destruct (analyze_inputs_total txdata tx (length (CMutableTransaction.vin tx)) 0
              {| node.psktx := psktx; node.in_amt := 0; node.calc_fee := true;
                 node.analyses := replicate (length (CMutableTransaction.vin tx))
                                            PSKTInputAnalysis.zero |})
    as [[msg|st'] Hrun]; simpl; try done; try lia.
  { rewrite length_replicate. lia. }
  { rewrite Hrun. simpl. by eexists. }
  rewrite Hrun. simpl.
  destruct (analyze_inputs_from_start txdata psktx tx st' Htx Hrun)
    as (Htx' & Hlen' & Hlena & _ & Hgt).
  rewrite Hgt. simpl.
  destruct (node.calc_fee st'); [|by eexists].
  destruct (negb (MoneyRange _)); [by eexists|].
  destruct (estimate_loop_total tx (length (CMutableTransaction.vin tx)) 0
              (node.psktx st') tx ∅) as [[[success mtx] view] ->];
    [done|congruence|done|lia|].
  simpl. destruct success; by eexists.
Qed.

Lemma AnalyzePSKT_valid_inv (psktx : PartiallySignedTransaction.t)
  (tx : CMutableTransaction.t) (result : PSKTAnalysis.t) :
  PartiallySignedTransaction.tx psktx = Some tx →
  node.AnalyzePSKT psktx = Some result →
  PSKTAnalysis.error result = "" →
  ∃ txdata st',
    PrecomputePSKTData psktx = Some txdata ∧
    node.analyze_inputs txdata (seq 0 (length (CMutableTransaction.vin tx)))
      {| node.psktx := psktx; node.in_amt := 0; node.calc_fee := true;
         node.analyses :=
           replicate (length (CMutableTransaction.vin tx)) PSKTInputAnalysis.zero |}
      = Some (inr st') ∧
    PSKTAnalysis.inputs result = node.analyses st' ∧
    PSKTAnalysis.next result = node.minimum_role (node.analyses st').
Proof.
  intros Htx. unfold node.AnalyzePSKT. rewrite Htx. simpl.
  destruct (PrecomputePSKTData psktx) as [txdata|]; [simpl|done].
  destruct (node.analyze_inputs _ _ _) as [[msg|st']|] eqn:Hrun; [simpl| |done].
  { intros [= <-] Herr. simpl in Herr. subst msg. exfalso.
    revert Hrun. generalize 0%nat at 1.
    generalize ({| node.psktx := psktx; node.in_amt := 0; node.calc_fee := true;
       node.analyses :=
         replicate (length (CMutableTransaction.vin tx)) PSKTInputAnalysis.zero |}).
    induction (length (CMutableTransaction.vin tx)) as [|m IH]; intros st k; simpl;
      [done|].
    destruct (node.analyze_input txdata k st) as [[msg|st1]|] eqn:Hstep; simpl;
      [|by apply IH|done].
    intros [= ->]. by apply analyze_input_inl in Hstep. }
  simpl. destruct (assert _); [simpl|done].
  intros Hres Herr. exists txdata, st'. split; [done|]. split; [done|].
  revert Hres. destruct (node.calc_fee st').
  - destruct (negb (MoneyRange _)).
    { intros [= <-]. done. }
    destruct (node.estimate_loop _ _ _ _) as [[[success mtx] view]|]; [simpl|done].
    destruct success; by intros [= <-].
  - by intros [= <-].
Qed.

(** C5: [AnalyzePSKT] returns on every well-formed PSKT (its assertion
    holds), and when it reports no error: an input that has a UTXO, is not
    signed and whose dummy signing attempt is incomplete gets next role
    [SIGNER] if the missing report has no missing pubkey, null missing
    redeem-script and witness-script hashes and some missing signature, and
    [UPDATER] otherwise; the PSKT-wide next role is the least of the
    per-input next roles ([EXTRACTOR] without inputs) and lies strictly
    above [CREATOR]. *)
Theorem AnalyzePSKT_next_role (psktx : PartiallySignedTransaction.t) :
  well_formed psktx →
  ∃ result,
    node.AnalyzePSKT psktx = Some result ∧
    (PSKTAnalysis.error result = "" →
     (∀ i input utxo txdata psktx' outdata,
        PartiallySignedTransaction.inputs psktx !! i = Some input →
        PartiallySignedTransaction.GetInputUTXO psktx CTxOut.Null i = Some (true, utxo) →
        PSKTInputSigned input = false →
        PrecomputePSKTData psktx = Some txdata →
        SignPSKTInput DUMMY_SIGNING_PROVIDER psktx i (Some txdata) 1
          (Some SignatureData.default) SignPSKTInput_finalize_default
          = Some (false, psktx', Some outdata) →
        ∃ input_analysis,
          PSKTAnalysis.inputs result !! i = Some input_analysis ∧
          PSKTInputAnalysis.next input_analysis =
            if is_empty (SignatureData.missing_pubkeys outdata) &&
               uint.IsNull (SignatureData.missing_redeem_script outdata) &&
               uint.IsNull (SignatureData.missing_witness_script outdata) &&
               negb (is_empty (SignatureData.missing_sigs outdata))
            then SIGNER else UPDATER) ∧
     (∀ input_analysis,
        input_analysis ∈ PSKTAnalysis.inputs result →
        PSKTRole_value (PSKTAnalysis.next result) ≤
        PSKTRole_value (PSKTInputAnalysis.next input_analysis)) ∧
     (PSKTAnalysis.inputs result = [] ∧ PSKTAnalysis.next result = EXTRACTOR ∨
      ∃ input_analysis,
        input_analysis ∈ PSKTAnalysis.inputs result ∧
        PSKTAnalysis.next result = PSKTInputAnalysis.next input_analysis) ∧
     PSKTRole_value CREATOR < PSKTRole_value (PSKTAnalysis.next result)).
Proof.
  intros Hwf. destruct (AnalyzePSKT_total psktx Hwf) as [result Hres].
  exists result. split; [done|]. intros Herr.
  destruct (well_formed_tx _ Hwf) as (tx & Htx & Hlen & _).
  destruct (AnalyzePSKT_valid_inv psktx tx result Htx Hres Herr)
    as (txdata & st' & Htd & Hrun & Hinputs & Hnext).
  destruct (analyze_inputs_from_start txdata psktx tx st' Htx Hrun)
    as (_ & _ & Hlena & Hrole & Hgt).
  rewrite Hinputs, Hnext.
  destruct (minimum_role_fold_le (node.analyses st') EXTRACTOR) as (_ & Hle & Hex).
  split_and!.
  - intros i input utxo txdata' psktx' outdata Hin Hget Hsigned Htd' Hsign.
    assert (txdata' = txdata) as -> by congruence.
    destruct (lookup_lt_is_Some_2 (node.analyses st') i) as [ia Hia].
    { apply lookup_lt_Some in Hin. lia. }
    exists ia. split; [done|].
    rewrite SignPSKTInput_sign_input, Hin, Htx in Hsign. simpl in Hsign.
    destruct (sign_input _ _ _ _ _ _ _ _) as [[[ok r] out]|] eqn:Hs; [|done].
    simpl in Hsign. injection Hsign as -> _ ->.
    destruct (Hrole i ia Hia) as [_ Hspec].
    by apply (Hspec input utxo r outdata).
  - done.
  - destruct Hex as [Heq|Hex]; [|by right].
    destruct (node.analyses st') as [|ia l] eqn:El; [by left|].
    right. exists ia. split; [left|].
    specialize (Hle ia (list_elem_of_here _ _)). unfold node.minimum_role.
    rewrite Heq in *. by destruct (PSKTInputAnalysis.next ia).
  - unfold PSKTRole_ltb in Hgt. by apply Z.ltb_lt in Hgt.
Qed.
End analyze.

(** The theorem above at a sample: one unsigned input with a witness UTXO
    and no signature; the analysis comes back valid with next role
    [SIGNER], above [CREATOR]. *)
Lemma AnalyzePSKT_next_role_witness :
  ∃ result,
    node.AnalyzePSKT (H := Sample.hasher) (H0 := Sample.key_hasher)
      (H1 := Sample.signer) (H2 := Sample.policy) Sample.unsigned_segwit = Some result ∧
    PSKTAnalysis.error result = "" ∧
    PSKTAnalysis.next result = SIGNER ∧
    PSKTRole_value CREATOR < PSKTRole_value (PSKTAnalysis.next result).
Proof.
  destruct (AnalyzePSKT_next_role (H := Sample.hasher) (H0 := Sample.key_hasher)
              (H1 := Sample.signer) (H2 := Sample.policy) Sample.unsigned_segwit)
    as (result & Hres & Hvalid).
  { simpl. split; reflexivity. }
  exists result. split; [exact Hres|].
  assert (PSKTAnalysis.error result = "" ∧ PSKTAnalysis.next result = SIGNER) as [Herr Hnext].
  { vm_compute in Hres. injection Hres as <-. split; reflexivity. }
  split; [exact Herr|]. split; [exact Hnext|].
  by destruct (Hvalid Herr) as (_ & _ & _ & ?).
Defined.

(* --------------------------------------------------------------------- *)
(** ** AnalyzePSKT: the fee *)
(* --------------------------------------------------------------------- *)

Lemma int64_wrap_small (z : Z) : -2^63 ≤ z < 2^63 → int64_wrap z = z.
Proof. intros Hz. unfold int64_wrap. rewrite Z.mod_small; lia. Qed.

Lemma total_value_app (xs ys : list CTxOut.t) :
  total_value (xs ++ ys) = total_value xs + total_value ys.
Proof. induction xs as [|x xs IH]; simpl; [done|]. unfold total_value in *. simpl. lia. Qed.

Section fee.
Context `{TxHasher, KeyHasher, ScriptSigner, Policy}.
Hypothesis MAX_MONEY_int64 : MAX_MONEY < 2^63.

Lemma MoneyRange_bounds (v : CAmount) : MoneyRange v = true ↔ 0 ≤ v ≤ MAX_MONEY.
Proof. unfold MoneyRange. rewrite andb_true_iff, !Z.leb_le. done. Qed.

Lemma add64_MoneyRange (a b : CAmount) :
  MoneyRange (a + b) = true → add64 a b = a + b.
Proof.
  intros Hab%MoneyRange_bounds. unfold add64. apply int64_wrap_small. lia.
Qed.

Lemma output_amount_fold (vout : list CTxOut.t) :
  ∀ a : CAmount,
  Forall (λ o, MoneyRange (CTxOut.nValue o) = true) vout →
  (∀ n, MoneyRange (a + total_value (take n vout)) = true) →
  fold_left (λ a b,
               if negb (MoneyRange a) || negb (MoneyRange (CTxOut.nValue b)) ||
                  negb (MoneyRange (add64 a (CTxOut.nValue b)))
               then -1
               else add64 a (CTxOut.nValue b))
            vout a = a + total_value vout.
Proof.
  induction vout as [|o vout IH]; intros a Hall Hsums; simpl.
  - unfold total_value. simpl. lia.
  - apply Forall_cons in Hall as [Ho Hall].
    pose proof (Hsums 0%nat) as Ha. simpl in Ha. rewrite Z.add_0_r in Ha.
    pose proof (Hsums 1%nat) as Hao. unfold total_value in Hao. simpl in Hao.
    rewrite Z.add_0_r in Hao.
    rewrite (add64_MoneyRange _ _ Hao), Ha, Ho, Hao. simpl.
    rewrite IH; [unfold total_value; simpl; lia|done|].
    intros n. specialize (Hsums (S n)). unfold total_value in *. simpl in Hsums.
    by rewrite Z.add_assoc in Hsums.
Qed.

Lemma analyze_input_found (txdata : PrecomputedTransactionData.t) (i : nat)
  (st : node.loop_state) (tx : CMutableTransaction.t) (utxo : CTxOut.t) :
  PartiallySignedTransaction.tx (node.psktx st) = Some tx →
  length (PartiallySignedTransaction.inputs (node.psktx st)) =
    length (CMutableTransaction.vin tx) →
  (i < length (CMutableTransaction.vin tx))%nat →
  (i < length (node.analyses st))%nat →
  PartiallySignedTransaction.GetInputUTXO (node.psktx st) CTxOut.Null i
    = Some (true, utxo) →
  MoneyRange (CTxOut.nValue utxo) = true →
  MoneyRange (node.in_amt st + CTxOut.nValue utxo) = true →
  IsUnspendable (CTxOut.scriptPubKey utxo) = false →
  ∃ st', node.analyze_input txdata i st = Some (inr st').
Proof.
  intros Htx Hlen Hi Han Hget Hv Hsum Hspend.
  destruct (analyze_input_total txdata i st tx Htx Hlen Hi Han) as [[msg|st'] Hstep];
    [exfalso|by eexists].
  revert Hstep. unfold node.analyze_input.
  destruct (PartiallySignedTransaction.inputs _ !! i) as [input|]; [simpl|done].
  destruct (node.analyses st !! i) as [ia0|]; [simpl|done].
  rewrite Htx. simpl.
  destruct (CMutableTransaction.vin tx !! i) as [txin|]; [simpl|done].
  rewrite Hget. simpl.
  rewrite (add64_MoneyRange _ _ Hsum), Hv, Hsum, Hspend. simpl.
  rewrite andb_false_r.
  destruct (negb (CTxOut.IsNull utxo) && negb (PSKTInputSigned input)); [|done].
  by destruct (SignPSKTInput _ _ _ _ _ _ _) as [[[complete psktx'] [outdata|]]|].
Qed.

Lemma analyze_inputs_found (txdata : PrecomputedTransactionData.t)
  (psktx0 : PartiallySignedTransaction.t) (tx : CMutableTransaction.t)
  (utxos : list CTxOut.t) :
  ∀ (k : nat) (st : node.loop_state),
  PartiallySignedTransaction.tx psktx0 = Some tx →
  PartiallySignedTransaction.tx (node.psktx st) = Some tx →
  length (PartiallySignedTransaction.inputs (node.psktx st)) =
    length (CMutableTransaction.vin tx) →
  (∀ j, (k ≤ j)%nat →
        PartiallySignedTransaction.inputs (node.psktx st) !! j =
        PartiallySignedTransaction.inputs psktx0 !! j) →
  (k + length utxos ≤ length (CMutableTransaction.vin tx))%nat →
  (k + length utxos ≤ length (node.analyses st))%nat →
  Forall2 (λ j utxo,
             PartiallySignedTransaction.GetInputUTXO psktx0 CTxOut.Null j
               = Some (true, utxo)) (seq k (length utxos)) utxos →
  Forall (λ o, MoneyRange (CTxOut.nValue o) = true) utxos →
  Forall (λ o, IsUnspendable (CTxOut.scriptPubKey o) = false) utxos →
  (∀ n, MoneyRange (node.in_amt st + total_value (take n utxos)) = true) →
  ∃ st',
    node.analyze_inputs txdata (seq k (length utxos)) st = Some (inr st') ∧
    node.in_amt st' = node.in_amt st + total_value utxos ∧
    node.calc_fee st' = node.calc_fee st.
Proof.
  induction utxos as [|utxo utxos IH];
    intros k st Htx0 Htx Hlen Hframe Hk Han Hfound Hvals Hspend Hsums; simpl.
  - exists st. unfold total_value. simpl. split; [done|]. split; [lia|done].
  - simpl in Hk, Han. apply Forall2_cons in Hfound as [Hget Hfound].
    apply Forall_cons in Hvals as [Hv Hvals].
    apply Forall_cons in Hspend as [Hsp Hspend].
    assert (PartiallySignedTransaction.GetInputUTXO (node.psktx st) CTxOut.Null k
              = Some (true, utxo)) as Hget'.
    { rewrite <- Hget. apply GetInputUTXO_local; [congruence|]. by apply Hframe. }
    pose proof (Hsums 1%nat) as Hsum1. unfold total_value in Hsum1. simpl in Hsum1.
    rewrite Z.add_0_r in Hsum1.
    destruct (analyze_input_found txdata k st tx utxo) as [st1 Hstep];
      try done; try lia.
    rewrite Hstep. simpl.
    destruct (analyze_input_Some_lookups _ _ _ _ Hstep) as [[input Hin] _].
    destruct (analyze_input_inr txdata k st st1 tx input Htx Hin Hstep)
      as (input' & ia & Hp & Ha & _ & _ & Hamt).
    destruct (Hamt utxo Hget') as [Hin_amt Hcalc].
    rewrite (add64_MoneyRange _ _ Hsum1) in Hin_amt.
    destruct (IH (S k) st1) as (st' & Hrun & Hamt' & Hcalc'); try done.
    + by rewrite Hp.
    + rewrite Hp. simpl. by rewrite length_insert.
    + intros j Hj. rewrite Hp. simpl. rewrite list_lookup_insert_ne by lia.
      apply Hframe. lia.
    + lia.
    + rewrite Ha, length_insert. lia.
    + intros n. specialize (Hsums (S n)). unfold total_value in *. simpl in Hsums.
      rewrite Hin_amt. by rewrite <- Z.add_assoc.
    + exists st'. split; [done|]. split; [|congruence].
      rewrite Hamt', Hin_amt. unfold total_value. simpl. lia.
Qed.

(** C6 (as amended): when [MAX_MONEY] fits [CAmount], every input's UTXO
    resolves, no spent output is unspendable, and the spent values, the
    output values and the running sums of both lie in the money range,
    [AnalyzePSKT] returns an analysis whose fee is the sum of the spent
    values minus the sum of the output values. *)
Theorem AnalyzePSKT_fee (psktx : PartiallySignedTransaction.t)
  (tx : CMutableTransaction.t) (utxos : list CTxOut.t) :
  well_formed psktx →
  PartiallySignedTransaction.tx psktx = Some tx →
  Forall2 (λ i utxo,
             PartiallySignedTransaction.GetInputUTXO psktx CTxOut.Null i
               = Some (true, utxo))
          (seq 0 (length (CMutableTransaction.vin tx))) utxos →
  Forall (λ o, MoneyRange (CTxOut.nValue o) = true) utxos →
  (∀ n, MoneyRange (total_value (take n utxos)) = true) →
  Forall (λ o, MoneyRange (CTxOut.nValue o) = true) (CMutableTransaction.vout tx) →
  (∀ n, MoneyRange (total_value (take n (CMutableTransaction.vout tx))) = true) →
  Forall (λ o, IsUnspendable (CTxOut.scriptPubKey o) = false) utxos →
  ∃ result,
    node.AnalyzePSKT psktx = Some result ∧
    PSKTAnalysis.fee result =
      Some (total_value utxos - total_value (CMutableTransaction.vout tx)).
Proof.
  intros Hwf Htx Hfound Hvals Hsums Hovals Hosums Hspend.
  destruct (PrecomputePSKTData_total psktx Hwf) as [txdata Htd].
  destruct (well_formed_tx _ Hwf) as (tx' & Htx' & Hlen & _).
  assert (tx' = tx) as -> by congruence.
  assert (length utxos = length (CMutableTransaction.vin tx)) as Hlu.
  { apply Forall2_length in Hfound. by rewrite length_seq in Hfound. }
  unfold node.AnalyzePSKT. rewrite Htx. simpl. rewrite Htd. simpl.
  destruct (analyze_inputs_found txdata psktx tx utxos 0
              {| node.psktx := psktx; node.in_amt := 0; node.calc_fee := true;
                 node.analyses := replicate (length (CMutableTransaction.vin tx))
                                            PSKTInputAnalysis.zero |})
    as (st' & Hrun & Hamt & Hcalc); simpl; try done; try lia.
  { rewrite length_replicate. lia. }
  { by rewrite Hlu. }
  rewrite Hlu in Hrun. rewrite Hrun. simpl.
  destruct (analyze_inputs_from_start txdata psktx tx st' Htx Hrun)
    as (Htxs & Hlens & _ & _ & Hgt).
  rewrite Hgt. simpl. simpl in Hcalc, Hamt. rewrite Hcalc.
  unfold node.output_amount.
  rewrite (output_amount_fold (CMutableTransaction.vout tx) 0) by done.
  simpl.
  pose proof (Hosums (length (CMutableTransaction.vout tx))) as Hout.
  rewrite firstn_all in Hout. rewrite !Z.add_0_l, Hout. simpl.
  pose proof (Hsums (length utxos)) as Hin. rewrite firstn_all in Hin.
  apply MoneyRange_bounds in Hout, Hin.
  assert (sub64 (node.in_amt st') (total_value (CMutableTransaction.vout tx)) =
          total_value utxos - total_value (CMutableTransaction.vout tx)) as ->.
  { rewrite Hamt. unfold sub64. apply int64_wrap_small. lia. }
  destruct (estimate_loop_total tx (length (CMutableTransaction.vin tx)) 0
              (node.psktx st') tx ∅) as [[[success mtx] view] ->];
    [done|congruence|done|lia|].
  simpl. destruct success; by eexists.
Qed.
End fee.

(** The theorem above at a sample: 90 units spent, 50 paid out. *)
Lemma AnalyzePSKT_fee_witness :
  ∃ result,
    node.AnalyzePSKT (H := Sample.hasher) (H0 := Sample.key_hasher)
      (H1 := Sample.signer) (H2 := Sample.policy) Sample.unsigned_segwit = Some result ∧
    PSKTAnalysis.fee result = Some 40.
Proof.
  apply (AnalyzePSKT_fee (H := Sample.hasher) (H0 := Sample.key_hasher)
           (H1 := Sample.signer) (H2 := Sample.policy) eq_refl Sample.unsigned_segwit
           (Sample.mktx [Sample.txin 7 0 4294967295] [Sample.txout 50 [Byte.x51]])
           [Sample.txout 90 [Byte.x00; Byte.x14]]).
  - simpl. split; reflexivity.
  - reflexivity.
  - repeat constructor.
  - repeat constructor.
  - intros [|[|n]]; reflexivity.
  - repeat constructor.
  - intros [|[|n]]; reflexivity.
  - repeat constructor.
Defined.

(** C6 (counterexample to the claim as stated): the only input resolves to
    a spent output of 90 units, all values and sums are in the money range,
    yet the spent output pays to an OP_RETURN script, so the analysis is
    invalid and reports no fee. *)
Lemma AnalyzePSKT_fee_counterexample :
  let psktx := Sample.spends_op_return in
  let utxos := [Sample.txout 90 [Byte.x6a]] in
  let vout := [Sample.txout 50 [Byte.x51]] in
  well_formed psktx ∧
  (CMutableTransaction.vout <$> PartiallySignedTransaction.tx psktx) = Some vout ∧
  Forall2 (λ i utxo,
             PartiallySignedTransaction.GetInputUTXO (H := Sample.hasher)
               psktx CTxOut.Null i = Some (true, utxo)) [0%nat] utxos ∧
  Forall (λ o, MoneyRange (H := Sample.policy) (CTxOut.nValue o) = true) utxos ∧
  (∀ n, MoneyRange (H := Sample.policy) (total_value (take n utxos)) = true) ∧
  Forall (λ o, MoneyRange (H := Sample.policy) (CTxOut.nValue o) = true) vout ∧
  (∀ n, MoneyRange (H := Sample.policy) (total_value (take n vout)) = true) ∧
  ∃ result,
    node.AnalyzePSKT (H := Sample.hasher) (H0 := Sample.key_hasher)
      (H1 := Sample.signer) (H2 := Sample.policy) psktx = Some result ∧
    PSKTAnalysis.fee result = None ∧
    PSKTAnalysis.error result = "PSKT is not valid. Input 0 spends unspendable output".
Proof.
  simpl.
  split; [split; reflexivity|].
  split; [reflexivity|].
  split; [repeat constructor|].
  split; [repeat constructor|].
  split; [intros [|[|n]]; reflexivity|].
  split; [repeat constructor|].
  split; [intros [|[|n]]; reflexivity|].
  eexists. split; [vm_compute; reflexivity|]. split; reflexivity.
Qed.

(* --------------------------------------------------------------------- *)
(** ** Merge and Combine: commutativity *)
(* --------------------------------------------------------------------- *)

Lemma map_merger_laws (K : Type) `{Countable K} (V : Type) :
  merger_laws (map_merger K V).
Proof.
  split; unfold map_merger, insert_range; simpl.
  - intros x y z. apply map_eq. intros k. rewrite !lookup_union.
    by destruct (x !! k), (y !! k), (z !! k).
  - intros x. apply map_eq. intros k. rewrite lookup_union.
    by destruct (x !! k).
  - intros x y Hxy. apply map_eq. intros k. rewrite !lookup_union.
    destruct (x !! k) as [vx|] eqn:Ex, (y !! k) as [vy|] eqn:Ey; simpl; try done.
    by rewrite (proj1 (map_agree_spec x y) Hxy k vx vy Ex Ey).
  - intros x y. by rewrite !dom_union_L, (comm_L (∪)).
  - intros x. done.
  - intros x y Hxy. done.
  - intros x y z Hxz Hyz. apply map_agree_spec. intros k v w Hv Hw.
    apply lookup_union_Some_raw in Hv as [Hv|[_ Hv]].
    + exact (proj1 (map_agree_spec x z) Hxz k v w Hv Hw).
    + exact (proj1 (map_agree_spec y z) Hyz k v w Hv Hw).
Qed.

Lemma first_merger_laws {A} (null : A → bool) : merger_laws (first_merger null).
Proof.
  split; unfold first_merger; simpl.
  - intros x y z.
    destruct (null x) eqn:Ex, (null y) eqn:Ey, (null z) eqn:Ez; simpl;
      rewrite ?Ex, ?Ey, ?Ez; simpl; done.
  - intros x. by destruct (null x).
  - intros x y [->|Hne]; [done|].
    by destruct (null x), (null y).
  - intros x y. by destruct (null x) eqn:Ex, (null y) eqn:Ey; simpl; rewrite ?Ex, ?Ey.
  - intros x. by left.
  - intros x y [->|Hne]; [by left|by right].
  - intros x y z Hxz Hyz. by destruct (null x && negb (null y)).
Qed.

Lemma pair_merger_laws {A B} (MA : merger A) (MB : merger B) :
  merger_laws MA → merger_laws MB → merger_laws (pair_merger MA MB).
Proof.
  intros LA LB. split; unfold pair_merger; simpl.
  - intros x y z. by rewrite (fuse_assoc _ LA), (fuse_assoc _ LB).
  - intros [x1 x2]. simpl. by rewrite (fuse_idemp _ LA), (fuse_idemp _ LB).
  - intros x y [H1 H2]. by rewrite (fuse_comm _ LA), (fuse_comm _ LB).
  - intros x y. split; [apply (fuse_alike _ LA)|apply (fuse_alike _ LB)].
  - intros x. split; [apply (agree_refl _ LA)|apply (agree_refl _ LB)].
  - intros x y [H1 H2]. split; [by apply (agree_sym _ LA)|by apply (agree_sym _ LB)].
  - intros x y z [H1 H2] [H3 H4].
    split; [by apply (agree_fuse _ LA)|by apply (agree_fuse _ LB)].
Qed.

Lemma list_merger_laws {A} (M : merger A) :
  merger_laws M → merger_laws (list_merger M).
Proof.
  intros L. split; unfold list_merger; simpl.
  - intros x. induction x as [|a x IH]; intros [|b y] [|c z]; simpl; try done.
    by rewrite (fuse_assoc _ L), IH.
  - intros x. induction x as [|a x IH]; simpl; [done|].
    by rewrite (fuse_idemp _ L), IH.
  - intros x y Hxy. induction Hxy as [|a b x y Hab Hxy IH]; simpl; [done|].
    by rewrite (fuse_comm _ L), IH.
  - intros x. induction x as [|a x IH]; intros [|b y]; simpl; constructor;
      [apply (fuse_alike _ L)|apply IH].
  - intros x. apply Forall2_same_length_lookup. split; [done|].
    intros i a b Ha Hb. assert (a = b) as -> by congruence. apply (agree_refl _ L).
  - intros x y Hxy. induction Hxy; constructor; [by apply (agree_sym _ L)|done].
  - intros x y z Hxz. revert y. induction Hxz as [|a c x z Hac Hxz IH];
      intros y Hyz; inversion Hyz; subst; simpl; constructor.
    + by apply (agree_fuse _ L).
    + by apply IH.
Qed.

Lemma merge_xpubs_lookup (mine theirs : gmap KeyOriginInfo.t (gset CExtPubKey))
  (origin : KeyOriginInfo.t) :
  merge_xpubs mine theirs !! origin =
  union_with (λ s1 s2, Some (s1 ∪ s2)) (mine !! origin) (theirs !! origin).
Proof.
  unfold merge_xpubs.
  apply (map_fold_weak_ind
           (λ acc (m : gmap KeyOriginInfo.t (gset CExtPubKey)),
              acc !! origin =
              union_with (λ s1 s2, Some (s1 ∪ s2)) (mine !! origin) (m !! origin))).
  - rewrite lookup_empty. by destruct (mine !! origin).
  - intros k keys m acc Hk IH.
    destruct (decide (k = origin)) as [->|Hne].
    + rewrite lookup_insert_eq. rewrite Hk in IH.
      destruct (acc !! origin) as [known|] eqn:Ea.
      * rewrite lookup_insert_eq. destruct (mine !! origin); simpl in *; by simplify_eq.
      * rewrite lookup_insert_eq. destruct (mine !! origin); simpl in *; by simplify_eq.
    + rewrite (lookup_insert_ne m) by done. rewrite <- IH.
      destruct (acc !! k); by rewrite lookup_insert_ne.
Qed.

Lemma xpubs_merger_laws : merger_laws xpubs_merger.
Proof.
  split; unfold xpubs_merger; simpl; try done.
  - intros x y z. apply map_eq. intros k. rewrite !merge_xpubs_lookup.
    destruct (x !! k), (y !! k), (z !! k); simpl; try done.
    by rewrite (assoc_L (∪)).
  - intros x. apply map_eq. intros k. rewrite !merge_xpubs_lookup.
    destruct (x !! k); simpl; [|done]. by rewrite union_idemp_L.
  - intros x y _. apply map_eq. intros k. rewrite !merge_xpubs_lookup.
    destruct (x !! k), (y !! k); simpl; try done. by rewrite (comm_L (∪)).
  - intros x y. apply map_eq. intros k. rewrite !merge_xpubs_lookup.
    destruct (x !! k), (y !! k); simpl; try done. by rewrite (comm_L (∪)).
Qed.

Lemma PSKTInput_merger_laws : merger_laws PSKTInput_merger.
Proof.
  unfold PSKTInput_merger.
  repeat apply pair_merger_laws;
    (apply map_merger_laws || apply first_merger_laws).
Qed.

Lemma PSKTOutput_merger_laws : merger_laws PSKTOutput_merger.
Proof.
  unfold PSKTOutput_merger.
  repeat apply pair_merger_laws;
    (apply map_merger_laws || apply first_merger_laws).
Qed.

Lemma PSKT_merger_laws : merger_laws PSKT_merger.
Proof.
  unfold PSKT_merger. repeat apply pair_merger_laws.
  - apply list_merger_laws, PSKTInput_merger_laws.
  - apply list_merger_laws, PSKTOutput_merger_laws.
  - apply xpubs_merger_laws.
  - apply map_merger_laws.
Qed.

Section merger_fold.
Context {A : Type} (M : merger A) (L : merger_laws M).

Lemma fold_fuse_perm (l1 l2 : list A) :
  Permutation l1 l2 →
  ∀ acc, Forall (agree M acc) l1 →
         (∀ x y, x ∈ l1 → y ∈ l1 → agree M x y) →
         fold_left (fuse M) l1 acc = fold_left (fuse M) l2 acc.
Proof.
  induction 1 as [|x l l' Hperm IH|x y l|l l' l'' Hp1 IH1 Hp2 IH2];
    intros acc Hacc Hpair; simpl.
  - done.
  - apply Forall_cons in Hacc as [Hx Hacc]. apply IH.
    + apply Forall_forall. intros e He. apply (agree_fuse _ L).
      * by apply (proj1 (Forall_forall _ _) Hacc).
      * apply Hpair; [left|by right].
    + intros a b Ha Hb. apply Hpair; by right.
  - f_equal. rewrite !(fuse_assoc _ L). f_equal. apply (fuse_comm _ L).
    apply Hpair; [left|right; left].
  - rewrite IH1 by done. apply IH2.
    + by rewrite <- Hp1.
    + intros a b Ha Hb. apply Hpair; by rewrite Hp1.
Qed.

Lemma fold_fuse_absorb (l : list A) (acc x : A) :
  x ∈ l → Forall (agree M acc) l →
  (∀ a b, a ∈ l → b ∈ l → agree M a b) →
  fold_left (fuse M) l (fuse M acc x) = fold_left (fuse M) l acc.
Proof.
  intros Hx Hacc Hpair.
  destruct (proj1 (elem_of_Permutation l x) Hx) as [k Hk].
  rewrite (fold_fuse_perm l (x :: k) Hk acc) by done.
  rewrite (fold_fuse_perm l (x :: k) Hk (fuse M acc x)); [|..|done].
  - simpl. by rewrite (fuse_assoc _ L), (fuse_idemp _ L).
  - apply Forall_forall. intros e He. apply (agree_fuse _ L).
    + by apply (proj1 (Forall_forall _ _) Hacc).
    + by apply Hpair.
Qed.

(** Folding a list of pairwise agreeing values into its head gives the
    same result for every arrangement of the list. *)
Lemma fold_fuse_head_perm (x y : A) (l l' : list A) :
  Permutation (x :: l) (y :: l') →
  (∀ a b, a ∈ x :: l → b ∈ x :: l → agree M a b) →
  fold_left (fuse M) l x = fold_left (fuse M) l' y.
Proof.
  intros Hperm Hpair.
  assert (∀ a b, a ∈ y :: l' → b ∈ y :: l' → agree M a b) as Hpair'.
  { intros a b Ha Hb. apply Hpair; by rewrite Hperm. }
  assert (y ∈ x :: l) as Hy by (rewrite Hperm; left).
  assert (x ∈ y :: l') as Hx by (rewrite <- Hperm; left).
  assert (∀ z (k : list A), (∀ a b, a ∈ z :: k → b ∈ z :: k → agree M a b) →
            fold_left (fuse M) k z = fold_left (fuse M) (z :: k) z) as Hhead.
  { intros z k _. simpl. by rewrite (fuse_idemp _ L). }
  rewrite (Hhead x l Hpair), (Hhead y l' Hpair').
  rewrite <- (fold_fuse_absorb (x :: l) x y Hy); [|..|done].
  2:{ apply Forall_forall. intros e He. apply Hpair; [left|done]. }
  rewrite <- (fold_fuse_absorb (y :: l') y x Hx); [|..|done].
  2:{ apply Forall_forall. intros e He. apply Hpair'; [left|done]. }
  rewrite (fuse_comm _ L y x) by (apply Hpair; [done|left]).
  apply fold_fuse_perm; [done| |done].
  apply Forall_forall. intros e He. apply (agree_fuse _ L); apply Hpair; try done; left.
Qed.
End merger_fold.

Lemma PSKTInput_merged_fields_Merge (x y : PSKTInput.t) :
  PSKTInput_merged_fields (PSKTInput.Merge x y) =
  fuse PSKTInput_merger (PSKTInput_merged_fields x) (PSKTInput_merged_fields y).
Proof.
  unfold PSKTInput_merged_fields, PSKTInput.Merge, fill_empty, fill_null. simpl.
  by destruct (PSKTInput.non_witness_utxo x), (PSKTInput.non_witness_utxo y).
Qed.

Lemma PSKTOutput_merged_fields_Merge (x y : PSKTOutput.t) :
  PSKTOutput_merged_fields (PSKTOutput.Merge x y) =
  fuse PSKTOutput_merger (PSKTOutput_merged_fields x) (PSKTOutput_merged_fields y).
Proof. done. Qed.

Lemma fmap_zip_with_fuse {A B} (g : A → B) (f : A → A → A) (h : B → B → B)
  (xs ys : list A) :
  (∀ x y, g (f x y) = h (g x) (g y)) →
  g <$> zip_with f xs ys = zip_with h (g <$> xs) (g <$> ys).
Proof.
  intros Hg. revert ys. induction xs as [|x xs IH]; intros [|y ys]; simpl; try done.
  by rewrite Hg, IH.
Qed.

Lemma merged_fields_merge_result (a b : PartiallySignedTransaction.t) :
  merged_fields (merge_result a b) =
  fuse PSKT_merger (merged_fields a) (merged_fields b).
Proof.
  unfold merged_fields, merge_result. simpl.
  rewrite (fmap_zip_with_fuse _ _ _ _ _ PSKTInput_merged_fields_Merge).
  by rewrite (fmap_zip_with_fuse _ _ _ _ _ PSKTOutput_merged_fields_Merge).
Qed.

Section combine.
Context `{TxHasher}.

Lemma Merge_same_tx (a b : PartiallySignedTransaction.t) (tx : CMutableTransaction.t) :
  well_formed a → well_formed b →
  PartiallySignedTransaction.tx a = Some tx →
  PartiallySignedTransaction.tx b = Some tx →
  PartiallySignedTransaction.Merge a b = Some (true, merge_result a b) ∧
  well_formed (merge_result a b).
Proof.
  intros Ha Hb Hta Htb.
  destruct (well_formed_same_tx_lengths a b Ha Hb) as [Hi Ho]; [congruence|].
  split.
  - rewrite (Merge_in_range a b tx tx) by (done || lia).
    by rewrite bool_decide_eq_false_2 by (by intros ?).
  - by apply merge_result_well_formed.
Qed.

Lemma combine_loop_same_tx (tx : CMutableTransaction.t)
  (rest : list PartiallySignedTransaction.t) :
  ∀ out : PartiallySignedTransaction.t,
  well_formed out → PartiallySignedTransaction.tx out = Some tx →
  Forall well_formed rest →
  Forall (λ p, PartiallySignedTransaction.tx p = Some tx) rest →
  combine_loop out rest = Some (OK, fold_left merge_result rest out).
Proof.
  induction rest as [|p rest IH]; intros out Hout Htx Hwf Hsame; simpl; [done|].
  apply Forall_cons in Hwf as [Hp Hwf]. apply Forall_cons in Hsame as [Hptx Hsame].
  destruct (Merge_same_tx out p tx Hout Hp Htx Hptx) as [-> Hwf']. simpl.
  by apply IH.
Qed.

Lemma merged_fields_fold (rest : list PartiallySignedTransaction.t) :
  ∀ out : PartiallySignedTransaction.t,
  merged_fields (fold_left merge_result rest out) =
  fold_left (fuse PSKT_merger) (merged_fields <$> rest) (merged_fields out).
Proof.
  induction rest as [|p rest IH]; intros out; simpl; [done|].
  by rewrite IH, merged_fields_merge_result.
Qed.

End combine.

(** Two signers that used different keys do not conflict. *)
Lemma signed_by_conflict_free :
  conflict_free (Sample.signed_by 33 Byte.x01 Byte.x02)
                (Sample.signed_by 34 Byte.x03 Byte.x04).
Proof.
  unfold conflict_free, merged_fields. simpl.
  assert (∀ (K V : Type) `{Countable K} (k1 k2 : K) (v1 v2 : V),
            k1 ≠ k2 → map_agree (M := gmap K) {[ k1 := v1 ]} {[ k2 := v2 ]}) as Hsingle.
  { intros K V ?? k1 k2 v1 v2 Hne. apply map_agree_spec. intros k x y Hx Hy.
    apply lookup_singleton_Some in Hx as [<- _].
    apply lookup_singleton_Some in Hy as [<- _]. done. }
  split; [split; [split|]|].
  - repeat constructor; simpl; try (by apply map_agree_refl). by apply Hsingle.
  - repeat constructor; simpl; by apply map_agree_refl.
  - done.
  - by apply Hsingle.
Qed.



(* ===================================================================== *)
(** ** FinalizePSKT: idempotence *)
(* ===================================================================== *)

Lemma emplace_present `{Countable K} {V} (k : K) (v : V) (m : gmap K V) :
  is_Some (m !! k) → emplace k v m = m.
Proof. intros [x Hx]. unfold emplace. by rewrite Hx. Qed.

Section keypaths.
Context `{KeyHasher}.

(** Every entry that [FillSignatureData] files under a key id comes from
    [hd_keypaths]. *)
Lemma misc_pubkeys_from_keypaths (hd : gmap CPubKey KeyOriginInfo.t) :
  ∀ id entry,
    map_fold (λ pk origin acc, emplace (GetID pk) (pk, origin) acc) ∅ hd !! id
      = Some entry →
    hd !! entry.1 = Some entry.2.
Proof.
  apply (map_fold_weak_ind
           (λ acc (m : gmap CPubKey KeyOriginInfo.t),
              ∀ id (entry : CPubKey * KeyOriginInfo.t),
                acc !! id = Some entry → m !! entry.1 = Some entry.2)).
  - intros id entry Hl. by rewrite lookup_empty in Hl.
  - intros pk origin m acc Hfresh IH id entry. unfold emplace.
    destruct (acc !! GetID pk) as [old|] eqn:Eold.
    + intros Hl. specialize (IH id entry Hl).
      rewrite lookup_insert_ne; [done|]. intros ->. congruence.
    + destruct (decide (GetID pk = id)) as [<-|Hne].
      * rewrite lookup_insert_eq. intros [= <-]. simpl. by rewrite lookup_insert_eq.
      * rewrite lookup_insert_ne by done. intros Hl. specialize (IH id entry Hl).
        rewrite lookup_insert_ne; [done|]. intros ->. congruence.
Qed.

(** Writing those entries back with [emplace] changes nothing. *)
Lemma keypaths_round_trip (hd : gmap CPubKey KeyOriginInfo.t) :
  map_fold (λ (_ : CKeyID) (entry : CPubKey * KeyOriginInfo.t) acc,
              emplace entry.1 entry.2 acc) hd
    (map_fold (λ pk origin acc, emplace (GetID pk) (pk, origin) acc) ∅ hd) = hd.
Proof.
  pose proof (misc_pubkeys_from_keypaths hd) as Hfrom.
  revert Hfrom.
  generalize (map_fold (λ pk origin acc, emplace (GetID pk) (pk, origin) acc) ∅ hd).
  intros misc.
  apply (map_fold_weak_ind
           (λ acc (m : gmap CKeyID (CPubKey * KeyOriginInfo.t)),
              (∀ id entry, m !! id = Some entry → hd !! entry.1 = Some entry.2) →
              acc = hd)).
  - done.
  - intros id entry m acc Hfresh IH Hall.
    rewrite IH.
    + apply emplace_present. exists entry.2.
      apply (Hall id). by rewrite lookup_insert_eq.
    + intros id' entry' Hl. apply (Hall id').
      rewrite lookup_insert_ne; [done|]. intros ->. congruence.
Qed.
End keypaths.

Lemma insert_range_same `{Countable K} {V} (m : gmap K V) : insert_range m m = m.
Proof. apply (fuse_idemp _ (map_merger_laws K V)). Qed.

Lemma fill_empty_same {A} (x : list A) : fill_empty x x = x.
Proof. unfold fill_empty. by destruct (is_empty x). Qed.

Lemma uint_IsNull_zero (h : N) : uint.IsNull h = true → h = 0%N.
Proof. unfold uint.IsNull. by intros ?%N.eqb_eq. Qed.

Lemma is_empty_nil {A} (x : list A) : is_empty x = true → x = [].
Proof. by destruct x. Qed.

Section finalize.
Context `{TxHasher, KeyHasher, ScriptSigner}.

(** What [FillSignatureData] hands to the signer for an unsigned input. *)
Lemma FillSignatureData_unsigned (input : PSKTInput.t) :
  PSKTInputSigned input = false →
  let filled := PSKTInput.FillSignatureData input SignatureData.default in
  SignatureData.complete filled = false ∧
  SignatureData.signatures filled = PSKTInput.partial_sigs input ∧
  SignatureData.redeem_script filled = PSKTInput.redeem_script input ∧
  SignatureData.witness_script filled = PSKTInput.witness_script input ∧
  SignatureData.misc_pubkeys filled =
    map_fold (λ pk origin acc, emplace (GetID pk) (pk, origin) acc) ∅
             (PSKTInput.hd_keypaths input) ∧
  SignatureData.taproot_key_path_sig filled = PSKTInput.m_tap_key_sig input ∧
  SignatureData.taproot_script_sigs filled = PSKTInput.m_tap_script_sigs input ∧
  SignatureData.tr_spenddata filled =
    {| TaprootSpendData.internal_key := PSKTInput.m_tap_internal_key input;
       TaprootSpendData.merkle_root := PSKTInput.m_tap_merkle_root input;
       TaprootSpendData.scripts := PSKTInput.m_tap_scripts input |} ∧
  SignatureData.taproot_misc_pubkeys filled = PSKTInput.m_tap_bip32_paths input.
Proof.
  unfold PSKTInputSigned. intros [Hs Hw]%orb_false_iff.
  apply negb_false_iff in Hs, Hw.
  unfold PSKTInput.FillSignatureData. rewrite Hs, Hw. simpl.
  unfold insert_range. rewrite !(left_id_L ∅ (∪)).
  split_and!; try done.
  - destruct (is_empty (PSKTInput.redeem_script input)) eqn:E; simpl; [|done].
    by rewrite (is_empty_nil _ E).
  - destruct (is_empty (PSKTInput.witness_script input)) eqn:E; simpl; [|done].
    by rewrite (is_empty_nil _ E).
  - destruct (is_empty (PSKTInput.m_tap_key_sig input)) eqn:E; simpl; [|done].
    by rewrite (is_empty_nil _ E).
  - f_equal.
    + destruct (uint.IsNull (PSKTInput.m_tap_internal_key input)) eqn:E; simpl; [|done].
      by rewrite (uint_IsNull_zero _ E).
    + destruct (uint.IsNull (PSKTInput.m_tap_merkle_root input)) eqn:E; simpl; [|done].
      by rewrite (uint_IsNull_zero _ E).
Qed.

(** Writing back signature data that holds nothing beyond what the input
    supplied leaves the input as it was. *)
Lemma FromSignatureData_nothing_new (input : PSKTInput.t) (sigdata : SignatureData.t) :
  SignatureData.complete sigdata = false →
  SignatureData.signatures sigdata = PSKTInput.partial_sigs input →
  SignatureData.redeem_script sigdata = PSKTInput.redeem_script input →
  SignatureData.witness_script sigdata = PSKTInput.witness_script input →
  SignatureData.misc_pubkeys sigdata =
    map_fold (λ pk origin acc, emplace (GetID pk) (pk, origin) acc) ∅
             (PSKTInput.hd_keypaths input) →
  SignatureData.taproot_key_path_sig sigdata = PSKTInput.m_tap_key_sig input →
  SignatureData.taproot_script_sigs sigdata = PSKTInput.m_tap_script_sigs input →
  SignatureData.tr_spenddata sigdata =
    {| TaprootSpendData.internal_key := PSKTInput.m_tap_internal_key input;
       TaprootSpendData.merkle_root := PSKTInput.m_tap_merkle_root input;
       TaprootSpendData.scripts := PSKTInput.m_tap_scripts input |} →
  SignatureData.taproot_misc_pubkeys sigdata = PSKTInput.m_tap_bip32_paths input →
  PSKTInput.FromSignatureData input sigdata = input.
Proof.
  intros Hc Hsig Hrs Hws Hmisc Hkey Hss Hsp Hbip.
  unfold PSKTInput.FromSignatureData.
  rewrite Hc, Hsig, Hrs, Hws, Hmisc, Hkey, Hss, Hsp, Hbip. simpl.
  rewrite keypaths_round_trip, !fill_empty_same, !insert_range_same.
  destruct input; simpl. f_equal.
  - by destruct (is_empty _).
  - by destruct (uint.IsNull _).
  - by destruct (uint.IsNull _).
Qed.

Lemma sign_resolve_utxo_ext (tx : CMutableTransaction.t) (a b : PSKTInput.t) (i : nat) :
  PSKTInput.non_witness_utxo a = PSKTInput.non_witness_utxo b →
  (PSKTInput.non_witness_utxo a = None →
   PSKTInput.witness_utxo a = PSKTInput.witness_utxo b) →
  sign_resolve_utxo tx a i = sign_resolve_utxo tx b i.
Proof.
  intros Hnw Hw. unfold sign_resolve_utxo. rewrite <- Hnw.
  destruct (PSKTInput.non_witness_utxo a); [done|]. by rewrite Hw.
Qed.

Lemma FromSignatureData_utxos (input : PSKTInput.t) (sigdata : SignatureData.t) :
  PSKTInput.non_witness_utxo (PSKTInput.FromSignatureData input sigdata) =
    PSKTInput.non_witness_utxo input ∧
  PSKTInput.witness_utxo (PSKTInput.FromSignatureData input sigdata) =
    PSKTInput.witness_utxo input.
Proof.
  unfold PSKTInput.FromSignatureData. by destruct (SignatureData.complete sigdata).
Qed.

(** The spent output an input resolves to is the same after signing. *)
Lemma sign_input_resolve_stable (provider : SigningProvider)
  (tx : CMutableTransaction.t) (input input' : PSKTInput.t) (i : nat)
  (txdata : option PrecomputedTransactionData.t) (sighash : Z)
  (out out' : option SignatureData.t) (finalize ok : bool) :
  sign_input provider tx input i txdata sighash out finalize = Some (ok, input', out') →
  sign_resolve_utxo tx input' i = sign_resolve_utxo tx input i.
Proof.
  unfold sign_input. destruct (PSKTInputSigned input); [by intros [= _ <- _]|].
  destruct (sign_resolve_utxo tx input i) as [[[utxo req]|]|] eqn:Hres; simpl;
    [|by intros [= _ <- _]|done].
  destruct (ProduceSignature _ _ _ _) as [sig_complete sigdata].
  destruct (req && negb (SignatureData.witness sigdata)); [by intros [= _ <- _]|].
  intros [= _ <- _]. rewrite <- Hres.
  set (sigdata' := if negb finalize && SignatureData.complete sigdata
                   then SignatureData.set_complete false sigdata else sigdata).
  destruct (FromSignatureData_utxos input sigdata') as [Hnw Hw].
  apply sign_resolve_utxo_ext.
  - by destruct (SignatureData.witness sigdata').
  - destruct (SignatureData.witness sigdata'); simpl; [|by rewrite Hw].
    intros Hnone. rewrite Hnw in Hnone.
    unfold sign_resolve_utxo in Hres. rewrite Hnone in Hres.
    destruct (negb (CTxOut.IsNull (PSKTInput.witness_utxo input))); by simplify_eq.
Qed.

(** The finalizer's loop returns for every range of inputs of the
    transaction. *)
Lemma finalize_loop_total (txdata : PrecomputedTransactionData.t)
  (tx : CMutableTransaction.t) (m : nat) :
  ∀ (k : nat) (p : PartiallySignedTransaction.t) (c : bool),
  PartiallySignedTransaction.tx p = Some tx →
  length (PartiallySignedTransaction.inputs p) = length (CMutableTransaction.vin tx) →
  (k + m ≤ length (CMutableTransaction.vin tx))%nat →
  is_Some (finalize_loop txdata (seq k m) p c).
Proof.
  induction m as [|m IH]; intros k p c Htx Hlen Hk; simpl; [by eexists|].
  destruct (well_formed_lookup p tx k Htx Hlen) as [[input Hin] Hvin]; [lia|].
  rewrite SignPSKTInput_sign_input, Hin, Htx. simpl.
  destruct (sign_input_total DUMMY_SIGNING_PROVIDER tx input k (Some txdata)
              SIGHASH_ALL None true Hvin) as [[[ok input'] out] ->].
  simpl. apply IH; simpl; [done| |lia]. by rewrite length_insert.
Qed.

Section contract.
Hypothesis contract : finalizer_contract.

(** Signing an input again during finalization changes nothing. *)
Lemma sign_input_finalize_idempotent (tx : CMutableTransaction.t)
  (input input' : PSKTInput.t) (i : nat) (txdata : PrecomputedTransactionData.t)
  (ok : bool) (out : option SignatureData.t) :
  sign_input DUMMY_SIGNING_PROVIDER tx input i (Some txdata) SIGHASH_ALL None true
    = Some (ok, input', out) →
  sign_input DUMMY_SIGNING_PROVIDER tx input' i (Some txdata) SIGHASH_ALL None true
    = Some (ok, input', out).
Proof.
  intros Hrun.
  pose proof (sign_input_resolve_stable _ _ _ _ _ _ _ _ _ _ _ Hrun) as Hstable.
  revert Hrun. unfold sign_input at 1.
  destruct (PSKTInputSigned input) eqn:Hsigned.
  { intros [= <- <- <-]. unfold sign_input. by rewrite Hsigned. }
  destruct (sign_resolve_utxo tx input i) as [[[utxo req]|]|] eqn:Hres; simpl;
    [| |done].
  2:{ intros [= <- <- <-]. unfold sign_input. by rewrite Hsigned, Hres. }
  destruct (ProduceSignature _ _ _ _) as [sig_complete sigdata] eqn:Hprod.
  destruct (req && negb (SignatureData.witness sigdata)) eqn:Hreq.
  { intros [= <- <- <-]. unfold sign_input. rewrite Hsigned, Hres. simpl.
    by rewrite Hprod, Hreq. }
  pose proof (produce_returns_complete contract
                (sign_creator tx i utxo (Some txdata) SIGHASH_ALL)
                (CTxOut.scriptPubKey utxo)
                (SignatureData.set_witness false
                   (PSKTInput.FillSignatureData input SignatureData.default))) as Hret.
  pose proof (complete_is_final contract
                (sign_creator tx i utxo (Some txdata) SIGHASH_ALL)
                (CTxOut.scriptPubKey utxo)
                (SignatureData.set_witness false
                   (PSKTInput.FillSignatureData input SignatureData.default))) as Hfinal.
  pose proof (incomplete_adds_nothing contract
                (sign_creator tx i utxo (Some txdata) SIGHASH_ALL)
                (CTxOut.scriptPubKey utxo)
                (SignatureData.set_witness false
                   (PSKTInput.FillSignatureData input SignatureData.default))) as Hnothing.
  unfold sign_creator in Hret, Hfinal, Hnothing.
  rewrite Hprod in Hret, Hfinal, Hnothing. simpl in Hret, Hfinal, Hnothing.
  subst sig_complete.
  intros [= <- <- <-].
  destruct (SignatureData.complete sigdata) eqn:Hcomplete.
  - (* promoted: the input is signed from now on *)
    assert (PSKTInputSigned
              (if SignatureData.witness sigdata
               then PSKTInput.set_witness_utxo utxo
                      (PSKTInput.FromSignatureData input sigdata)
               else PSKTInput.FromSignatureData input sigdata) = true) as Hnow.
    { unfold PSKTInputSigned, PSKTInput.FromSignatureData. rewrite Hcomplete.
      destruct (Hfinal eq_refl) as [Hs|Hw];
        destruct (SignatureData.witness sigdata); simpl;
        rewrite ?Hs, ?Hw; simpl; rewrite ?Hs, ?Hw; simpl; by rewrite ?orb_true_r. }
    unfold sign_input. by rewrite Hnow.
  - (* nothing new: the record is as before, up to the witness UTXO *)
    destruct (FillSignatureData_unsigned input Hsigned)
      as (_ & F1 & F2 & F3 & F4 & F5 & F6 & F7 & F8).
    destruct (Hnothing eq_refl) as (N1 & N2 & N3 & N4 & N5 & N6 & N7 & N8).
    simpl in N1, N2, N3, N4, N5, N6, N7, N8.
    assert (PSKTInput.FromSignatureData input sigdata = input) as Hsame.
    { apply FromSignatureData_nothing_new; congruence. }
    rewrite Hsame in *.
    destruct (SignatureData.witness sigdata) eqn:Hwit.
    + unfold sign_input.
      change (PSKTInputSigned (PSKTInput.set_witness_utxo utxo input))
        with (PSKTInputSigned input).
      rewrite Hsigned, Hstable. simpl.
      change (PSKTInput.FillSignatureData (PSKTInput.set_witness_utxo utxo input)
                SignatureData.default)
        with (PSKTInput.FillSignatureData input SignatureData.default).
      rewrite Hprod. rewrite Hwit, Hreq. simpl. rewrite ?Hwit.
      assert (PSKTInput.FromSignatureData (PSKTInput.set_witness_utxo utxo input) sigdata
              = PSKTInput.set_witness_utxo utxo
                  (PSKTInput.FromSignatureData input sigdata)) as ->.
      { unfold PSKTInput.FromSignatureData. by rewrite Hcomplete. }
      by rewrite Hsame.
    + unfold sign_input. rewrite Hsigned, Hres. simpl.
      rewrite Hprod. rewrite Hwit, Hreq. simpl. by rewrite ?Hwit, Hsame.
Qed.

Lemma finalize_loop_spec (txdata : PrecomputedTransactionData.t)
  (tx : CMutableTransaction.t) (m : nat) :
  ∀ (k : nat) (p p' : PartiallySignedTransaction.t) (c c' : bool),
  PartiallySignedTransaction.tx p = Some tx →
  finalize_loop txdata (seq k m) p c = Some (c', p') →
  PartiallySignedTransaction.tx p' = Some tx ∧
  length (PartiallySignedTransaction.inputs p') =
    length (PartiallySignedTransaction.inputs p) ∧
  (∀ j, (j < k)%nat →
        PartiallySignedTransaction.inputs p' !! j =
        PartiallySignedTransaction.inputs p !! j) ∧
  (∀ j, (k ≤ j < k + m)%nat →
        ∃ input input' ok out,
          PartiallySignedTransaction.inputs p !! j = Some input ∧
          sign_input DUMMY_SIGNING_PROVIDER tx input j (Some txdata) SIGHASH_ALL
            None true = Some (ok, input', out) ∧
          PartiallySignedTransaction.inputs p' !! j = Some input') ∧
  ∃ all_ok,
    c' = c && all_ok ∧
    ∀ (q : PartiallySignedTransaction.t) (d : bool),
      PartiallySignedTransaction.tx q = Some tx →
      (∀ j, (k ≤ j < k + m)%nat →
            PartiallySignedTransaction.inputs q !! j =
            PartiallySignedTransaction.inputs p' !! j) →
      finalize_loop txdata (seq k m) q d = Some (d && all_ok, q).
Proof.
  induction m as [|m IH]; intros k p p' c c' Htx; simpl.
  - intros [= <- <-]. split_and!; try done.
    + intros j Hj. lia.
    + exists true. split; [by rewrite andb_true_r|].
      intros q d _ _. by rewrite andb_true_r.
  - rewrite SignPSKTInput_sign_input.
    destruct (PartiallySignedTransaction.inputs p !! k) as [input|] eqn:Hin;
      [simpl|done].
    rewrite Htx. simpl.
    destruct (sign_input _ _ _ _ _ _ _ _) as [[[ok input'] out]|] eqn:Hsign;
      [simpl|done].
    intros Hrest.
    destruct (IH (S k) (set_input k input' p) p' (c && ok) c' Htx Hrest)
      as (Htx' & Hlen & Hbefore & Hrange & all_ok & Hc & Hagain).
    assert (PartiallySignedTransaction.inputs p' !! k = Some input') as Hk.
    { rewrite Hbefore by lia. simpl. apply list_lookup_insert_eq.
      by eapply lookup_lt_Some. }
    split_and!.
    + done.
    + rewrite Hlen. simpl. by rewrite length_insert.
    + intros j Hj. rewrite Hbefore by lia. simpl.
      by rewrite list_lookup_insert_ne by lia.
    + intros j Hj. destruct (decide (j = k)) as [->|Hne].
      * by exists input, input', ok, out.
      * destruct (Hrange j) as (inp & inp' & ok' & out' & Hj1 & Hj2 & Hj3); [lia|].
        exists inp, inp', ok', out'. split; [|done].
        simpl in Hj1. by rewrite list_lookup_insert_ne in Hj1 by lia.
    + exists (ok && all_ok). split; [by rewrite Hc, andb_assoc|].
      intros q d Hq Hsame.
      rewrite SignPSKTInput_sign_input, Hsame, Hk by lia. simpl.
      rewrite Hq. simpl.
      rewrite (sign_input_finalize_idempotent tx input input' k txdata ok out Hsign).
      simpl. rewrite set_input_same by (rewrite Hsame by lia; done).
      rewrite Hagain; [by rewrite andb_assoc|done|].
      intros j Hj. apply Hsame. lia.
Qed.

End contract.
End finalize.

(** The signer of the examples keeps the finalizer contract. *)
Lemma Sample_signer_contract : finalizer_contract (H := Sample.signer).
Proof.
  split.
  - done.
  - intros creator script sigdata. simpl.
    destruct (bool_decide (SignatureData.signatures sigdata = ∅)); simpl; [done|].
    intros _. destruct (Sample.is_witness_program script); simpl; [by right|by left].
  - intros creator script sigdata. by simpl.
Qed.


(* ===================================================================== *)
(** * Further properties of the code *)
(* ===================================================================== *)

(* --------------------------------------------------------------------- *)
(** ** Construction, Merge and Combine *)
(* --------------------------------------------------------------------- *)

(** X1: a PSKT built from a transaction is well formed and not null, its
    records are all null, and every input counts as unsigned. *)
Theorem from_tx_blank (tx : CMutableTransaction.t) :
  let p := PartiallySignedTransaction.from_tx tx in
  well_formed p ∧
  PartiallySignedTransaction.IsNull p = false ∧
  Forall (λ i, PSKTInput.IsNull i = true ∧ PSKTInputSigned i = false)
         (PartiallySignedTransaction.inputs p) ∧
  Forall (λ o, PSKTOutput.IsNull o = true) (PartiallySignedTransaction.outputs p) ∧
  CountPSKTUnsignedInputs p = length (CMutableTransaction.vin tx).
Proof.
  simpl. split_and!.
  - unfold well_formed. simpl. by rewrite !length_replicate.
  - done.
  - apply Forall_forall. by intros i ->%elem_of_replicate_inv.
  - apply Forall_forall. by intros o ->%elem_of_replicate_inv.
  - unfold CountPSKTUnsignedInputs. simpl.
    induction (length (CMutableTransaction.vin tx)) as [|n IH]; [done|].
    change (replicate (S n) PSKTInput.default)
      with (PSKTInput.default :: replicate n PSKTInput.default).
    rewrite filter_cons_True by done. simpl. by rewrite IH.
Qed.

Section combine_more.
Context `{TxHasher}.

Lemma combine_loop_app (l l' : list PartiallySignedTransaction.t) :
  ∀ out : PartiallySignedTransaction.t,
  combine_loop out (l ++ l') =
  match combine_loop out l with
  | Some (OK, out') => combine_loop out' l'
  | r => r
  end.
Proof.
  induction l as [|p l IH]; intros out; simpl; [done|].
  destruct (PartiallySignedTransaction.Merge out p) as [[merged out']|]; simpl; [|done].
  destruct merged; simpl; [apply IH|done].
Qed.

(** X4: combining a list in two steps: once a prefix of the list has been
    combined into [out], combining the whole list is combining [out] with
    the rest; a mismatch inside the prefix is the answer for the whole
    list. *)
Theorem CombinePSKTs_app (l l' : list PartiallySignedTransaction.t)
  (err : TransactionError) (out : PartiallySignedTransaction.t) :
  CombinePSKTs l = Some (err, out) →
  CombinePSKTs (l ++ l') =
    match err with
    | OK => CombinePSKTs (out :: l')
    | PSKT_MISMATCH => Some (PSKT_MISMATCH, out)
    end.
Proof.
  destruct l as [|first l]; [done|].
  unfold CombinePSKTs. simpl. intros Hl.
  rewrite combine_loop_app, Hl. by destruct err.
Qed.

Lemma Merge_keeps_frame (a b a' : PartiallySignedTransaction.t) (merged : bool) :
  well_formed a →
  PartiallySignedTransaction.Merge a b = Some (merged, a') →
  well_formed a' ∧
  PartiallySignedTransaction.tx a' = PartiallySignedTransaction.tx a ∧
  PartiallySignedTransaction.m_version a' = PartiallySignedTransaction.m_version a ∧
  PartiallySignedTransaction.m_proprietary a' =
    PartiallySignedTransaction.m_proprietary a.
Proof.
  intros Hwf Hm. destruct merged.
  - apply Merge_true_inv in Hm as (Hin & Hout & ->).
    split; [|done]. unfold well_formed, merge_result in *. simpl.
    destruct (PartiallySignedTransaction.tx a) as [tx|]; [|done].
    rewrite !length_zip_with. lia.
  - unfold PartiallySignedTransaction.Merge in Hm.
    destruct (PartiallySignedTransaction.tx a) eqn:Ha; [simpl in Hm|done].
    destruct (PartiallySignedTransaction.tx b); [simpl in Hm|done].
    case_bool_decide; [by simplify_eq|].
    destruct (merge_each PSKTInput.Merge _ _); simpl in Hm; [|done].
    destruct (merge_each PSKTOutput.Merge _ _); simpl in Hm; done.
Qed.

(** X5: whatever [CombinePSKTs] answers, the PSKT it leaves in [out] is well
    formed and is over the transaction of the first element, with that
    element's version and global proprietary records. *)
Theorem CombinePSKTs_keeps_transaction (first : PartiallySignedTransaction.t)
  (rest : list PartiallySignedTransaction.t) (err : TransactionError)
  (out : PartiallySignedTransaction.t) :
  well_formed first →
  CombinePSKTs (first :: rest) = Some (err, out) →
  well_formed out ∧
  PartiallySignedTransaction.tx out = PartiallySignedTransaction.tx first ∧
  PartiallySignedTransaction.m_version out =
    PartiallySignedTransaction.m_version first ∧
  PartiallySignedTransaction.m_proprietary out =
    PartiallySignedTransaction.m_proprietary first.
Proof.
  unfold CombinePSKTs. simpl. revert first.
  induction rest as [|p rest IH]; intros first Hwf; simpl.
  - by intros [= <- <-].
  - destruct (PartiallySignedTransaction.Merge first p) as [[merged first']|] eqn:Hm;
      simpl; [|done].
    destruct (Merge_keeps_frame _ _ _ _ Hwf Hm) as (Hwf' & Htx & Hv & Hp).
    destruct merged; simpl.
    + intros Hrest. destruct (IH first' Hwf' Hrest) as (? & ? & ? & ?).
      split_and!; [done|congruence..].
    + by intros [= <- <-].
Qed.
End combine_more.

Lemma CombinePSKTs_app_witness :
  ∃ out,
    CombinePSKTs (H := Sample.hasher)
      [Sample.signed_by 33 Byte.x01 Byte.x02; Sample.signed_by 34 Byte.x03 Byte.x04]
      = Some (OK, out) ∧
    CombinePSKTs (H := Sample.hasher)
      ([Sample.signed_by 33 Byte.x01 Byte.x02; Sample.signed_by 34 Byte.x03 Byte.x04]
         ++ [Sample.signed_by 35 Byte.x05 Byte.x06]) =
    CombinePSKTs (H := Sample.hasher) [out; Sample.signed_by 35 Byte.x05 Byte.x06].
Proof.
  exists (merge_result (Sample.signed_by 33 Byte.x01 Byte.x02)
                        (Sample.signed_by 34 Byte.x03 Byte.x04)).
  split; [reflexivity|].
  apply (CombinePSKTs_app (H := Sample.hasher)
           [Sample.signed_by 33 Byte.x01 Byte.x02; Sample.signed_by 34 Byte.x03 Byte.x04]
           [Sample.signed_by 35 Byte.x05 Byte.x06] OK).
  reflexivity.
Defined.

Lemma CombinePSKTs_keeps_transaction_witness :
  ∃ out,
    CombinePSKTs (H := Sample.hasher)
      [Sample.signed_by 33 Byte.x01 Byte.x02; Sample.other_tx] = Some (PSKT_MISMATCH, out) ∧
    well_formed out ∧
    PartiallySignedTransaction.tx out =
      PartiallySignedTransaction.tx (Sample.signed_by 33 Byte.x01 Byte.x02).
Proof.
  exists (Sample.signed_by 33 Byte.x01 Byte.x02). split; [reflexivity|].
  destruct (CombinePSKTs_keeps_transaction (H := Sample.hasher)
              (Sample.signed_by 33 Byte.x01 Byte.x02) [Sample.other_tx] PSKT_MISMATCH
              (Sample.signed_by 33 Byte.x01 Byte.x02)
              (conj eq_refl eq_refl) eq_refl) as (Hwf & Htx & _).
  split; [exact Hwf|exact Htx].
Defined.

(** An input record is its merged fields together with the two fields
    [Merge] leaves alone. *)
Lemma PSKTInput_eq_fields (x y : PSKTInput.t) :
  PSKTInput_merged_fields x = PSKTInput_merged_fields y →
  PSKTInput.m_proprietary x = PSKTInput.m_proprietary y →
  PSKTInput.sighash_type x = PSKTInput.sighash_type y →
  x = y.
Proof.
  destruct x, y. unfold PSKTInput_merged_fields. simpl.
  intros Hf -> ->. by simplify_eq.
Qed.

Lemma PSKTOutput_eq_fields (x y : PSKTOutput.t) :
  PSKTOutput_merged_fields x = PSKTOutput_merged_fields y →
  PSKTOutput.m_proprietary x = PSKTOutput.m_proprietary y →
  x = y.
Proof.
  destruct x, y. unfold PSKTOutput_merged_fields. simpl.
  intros Hf ->. by simplify_eq.
Qed.

Lemma PSKTInput_Merge_idemp (x : PSKTInput.t) : PSKTInput.Merge x x = x.
Proof.
  apply PSKTInput_eq_fields; [|done..].
  rewrite PSKTInput_merged_fields_Merge.
  apply (fuse_idemp _ PSKTInput_merger_laws).
Qed.

Lemma PSKTOutput_Merge_idemp (x : PSKTOutput.t) : PSKTOutput.Merge x x = x.
Proof.
  apply PSKTOutput_eq_fields; [|done].
  rewrite PSKTOutput_merged_fields_Merge.
  apply (fuse_idemp _ PSKTOutput_merger_laws).
Qed.

Lemma PSKTInput_Merge_assoc (x y z : PSKTInput.t) :
  PSKTInput.Merge (PSKTInput.Merge x y) z = PSKTInput.Merge x (PSKTInput.Merge y z).
Proof.
  apply PSKTInput_eq_fields; [|done..].
  rewrite !PSKTInput_merged_fields_Merge.
  apply (fuse_assoc _ PSKTInput_merger_laws).
Qed.

Lemma PSKTOutput_Merge_assoc (x y z : PSKTOutput.t) :
  PSKTOutput.Merge (PSKTOutput.Merge x y) z = PSKTOutput.Merge x (PSKTOutput.Merge y z).
Proof.
  apply PSKTOutput_eq_fields; [|done].
  rewrite !PSKTOutput_merged_fields_Merge.
  apply (fuse_assoc _ PSKTOutput_merger_laws).
Qed.

Lemma zip_with_idemp {A} (f : A → A → A) (l : list A) :
  (∀ x, f x x = x) → zip_with f l l = l.
Proof. intros Hf. induction l as [|x l IH]; simpl; [done|]. by rewrite Hf, IH. Qed.

Lemma zip_with_assoc {A} (f : A → A → A) (xs ys zs : list A) :
  (∀ x y z, f (f x y) z = f x (f y z)) →
  zip_with f (zip_with f xs ys) zs = zip_with f xs (zip_with f ys zs).
Proof.
  intros Hf. revert ys zs.
  induction xs as [|x xs IH]; intros [|y ys] [|z zs]; simpl; try done.
  by rewrite Hf, IH.
Qed.

Lemma merge_result_idemp (a : PartiallySignedTransaction.t) : merge_result a a = a.
Proof.
  destruct a as [tx xp ins outs unk ver prop]. unfold merge_result. simpl.
  f_equal.
  - apply (fuse_idemp _ xpubs_merger_laws).
  - apply zip_with_idemp, PSKTInput_Merge_idemp.
  - apply zip_with_idemp, PSKTOutput_Merge_idemp.
  - apply (fuse_idemp _ (map_merger_laws bytes bytes)).
Qed.

Lemma merge_result_assoc (a b c : PartiallySignedTransaction.t) :
  merge_result (merge_result a b) c = merge_result a (merge_result b c).
Proof.
  unfold merge_result. simpl. f_equal.
  - apply (fuse_assoc _ xpubs_merger_laws).
  - apply zip_with_assoc, PSKTInput_Merge_assoc.
  - apply zip_with_assoc, PSKTOutput_Merge_assoc.
  - apply (fuse_assoc _ (map_merger_laws bytes bytes)).
Qed.

Section merge_more.
Context `{TxHasher}.

(** X2: merging a PSKT into itself changes nothing. *)
Theorem Merge_idempotent (a : PartiallySignedTransaction.t) :
  well_formed a →
  PartiallySignedTransaction.Merge a a = Some (true, a).
Proof.
  intros Hwf. destruct (well_formed_tx a Hwf) as (tx & Htx & _).
  destruct (Merge_same_tx a a tx Hwf Hwf Htx Htx) as [-> _].
  by rewrite merge_result_idemp.
Qed.

(** X3: merging is associative. *)
Theorem Merge_associative (a b c : PartiallySignedTransaction.t)
  (tx : CMutableTransaction.t) :
  well_formed a → well_formed b → well_formed c →
  PartiallySignedTransaction.tx a = Some tx →
  PartiallySignedTransaction.tx b = Some tx →
  PartiallySignedTransaction.tx c = Some tx →
  ∃ ab bc abc,
    PartiallySignedTransaction.Merge a b = Some (true, ab) ∧
    PartiallySignedTransaction.Merge b c = Some (true, bc) ∧
    PartiallySignedTransaction.Merge ab c = Some (true, abc) ∧
    PartiallySignedTransaction.Merge a bc = Some (true, abc).
Proof.
  intros Ha Hb Hc Hta Htb Htc.
  destruct (Merge_same_tx a b tx Ha Hb Hta Htb) as [Hab Hwab].
  destruct (Merge_same_tx b c tx Hb Hc Htb Htc) as [Hbc Hwbc].
  exists (merge_result a b), (merge_result b c), (merge_result (merge_result a b) c).
  split_and!; [done|done| |].
  - by apply (Merge_same_tx _ c tx).
  - rewrite merge_result_assoc. by apply (Merge_same_tx a _ tx).
Qed.
End merge_more.

Lemma Merge_idempotent_witness :
  PartiallySignedTransaction.Merge (H := Sample.hasher)
    (Sample.signed_by 33 Byte.x01 Byte.x02) (Sample.signed_by 33 Byte.x01 Byte.x02)
  = Some (true, Sample.signed_by 33 Byte.x01 Byte.x02).
Proof.
  exact (Merge_idempotent (H := Sample.hasher) (Sample.signed_by 33 Byte.x01 Byte.x02)
           (conj eq_refl eq_refl)).
Defined.

Lemma Merge_associative_witness :
  ∃ ab bc abc,
    PartiallySignedTransaction.Merge (H := Sample.hasher)
      (Sample.signed_by 33 Byte.x01 Byte.x02) (Sample.signed_by 34 Byte.x03 Byte.x04)
      = Some (true, ab) ∧
    PartiallySignedTransaction.Merge (H := Sample.hasher)
      (Sample.signed_by 34 Byte.x03 Byte.x04) (Sample.signed_by 35 Byte.x05 Byte.x06)
      = Some (true, bc) ∧
    PartiallySignedTransaction.Merge (H := Sample.hasher)
      ab (Sample.signed_by 35 Byte.x05 Byte.x06) = Some (true, abc) ∧
    PartiallySignedTransaction.Merge (H := Sample.hasher)
      (Sample.signed_by 33 Byte.x01 Byte.x02) bc = Some (true, abc).
Proof.
  exact (Merge_associative (H := Sample.hasher)
           (Sample.signed_by 33 Byte.x01 Byte.x02) (Sample.signed_by 34 Byte.x03 Byte.x04)
           (Sample.signed_by 35 Byte.x05 Byte.x06)
           (Sample.mktx [Sample.txin 7 0 4294967295] [Sample.txout 50 [Byte.x51]])
           (conj eq_refl eq_refl) (conj eq_refl eq_refl) (conj eq_refl eq_refl)
           eq_refl eq_refl eq_refl).
Defined.

(* --------------------------------------------------------------------- *)
(** ** AddInput, AddOutput and GetInputUTXO *)
(* --------------------------------------------------------------------- *)



Lemma count_unsigned_app (xs ys : list PSKTInput.t) :
  length (filter (λ i, PSKTInputSigned i = false) (xs ++ ys)) =
  (length (filter (λ i, PSKTInputSigned i = false) xs) +
   length (filter (λ i, PSKTInputSigned i = false) ys))%nat.
Proof. by rewrite filter_app, length_app. Qed.

(** X7: [AddInput] keeps a PSKT well formed whether it accepts or refuses, and
    an accepted input always arrives unsigned: the number of unsigned
    inputs grows by one. *)
Theorem AddInput_adds_unsigned_input (this this' : PartiallySignedTransaction.t)
  (txin : CTxIn.t) (psktin psktin' : PSKTInput.t) (added : bool) :
  well_formed this →
  PartiallySignedTransaction.AddInput this txin psktin = Some (added, this', psktin') →
  well_formed this' ∧
  CountPSKTUnsignedInputs this' =
    (CountPSKTUnsignedInputs this + if added then 1 else 0)%nat.
Proof.
  intros Hwf. unfold PartiallySignedTransaction.AddInput.
  unfold well_formed in Hwf.
  destruct (PartiallySignedTransaction.tx this) as [tx|] eqn:Htx; [simpl|done].
  destruct (existsb _ _).
  - intros [= <- <- <-]. unfold well_formed. rewrite Htx. split; [done|lia].
  - intros [= <- <- <-]. split.
    + unfold well_formed. simpl. rewrite !length_app. simpl. lia.
    + unfold CountPSKTUnsignedInputs. simpl. rewrite count_unsigned_app.
      rewrite (filter_cons_True _ (PSKTInput.clear_signatures psktin)) by done.
      done.
Qed.

Lemma AddInput_adds_unsigned_input_witness :
  ∃ this' r,
    PartiallySignedTransaction.AddInput Sample.spend_7_0 (Sample.txin 8 1 0)
      Sample.signed_record = Some (true, this', r) ∧
    PSKTInputSigned Sample.signed_record = true ∧
    well_formed this' ∧
    CountPSKTUnsignedInputs this' = 2%nat.
Proof.
  eexists _, _. split; [reflexivity|]. split; [reflexivity|].
  exact (AddInput_adds_unsigned_input Sample.spend_7_0 _ (Sample.txin 8 1 0)
           Sample.signed_record _ true (conj eq_refl eq_refl) eq_refl).
Defined.

Section utxo.
Context `{TxHasher}.

(** X8: with a non-witness UTXO in the record, [GetInputUTXO] is decided by it
    alone: it succeeds exactly when [prevout.n] indexes the outputs of the
    predecessor and the predecessor's hash is [prevout.hash], and then
    yields that output; the witness UTXO of the record plays no part, and
    on failure [utxo] is left as it was. *)
Theorem GetInputUTXO_non_witness (p : PartiallySignedTransaction.t)
  (tx prev : CMutableTransaction.t) (input : PSKTInput.t) (txin : CTxIn.t)
  (utxo0 : CTxOut.t) (i : nat) :
  PartiallySignedTransaction.tx p = Some tx →
  PartiallySignedTransaction.inputs p !! i = Some input →
  CMutableTransaction.vin tx !! i = Some txin →
  PSKTInput.non_witness_utxo input = Some prev →
  PartiallySignedTransaction.GetInputUTXO p utxo0 i =
    match CMutableTransaction.vout prev !! N.to_nat (COutPoint.n (CTxIn.prevout txin)) with
    | Some out =>
        if bool_decide (GetHash prev = COutPoint.hash (CTxIn.prevout txin))
        then Some (true, out) else Some (false, utxo0)
    | None => Some (false, utxo0)
    end ∧
  ∀ w, PartiallySignedTransaction.GetInputUTXO
         (set_input i (PSKTInput.set_witness_utxo w input) p) utxo0 i =
       PartiallySignedTransaction.GetInputUTXO p utxo0 i.
Proof.
  intros Htx Hin Hvin Hprev.
  assert (∀ q inp, PartiallySignedTransaction.tx q = Some tx →
                   PartiallySignedTransaction.inputs q !! i = Some inp →
                   PSKTInput.non_witness_utxo inp = Some prev →
            PartiallySignedTransaction.GetInputUTXO q utxo0 i =
            match CMutableTransaction.vout prev
                    !! N.to_nat (COutPoint.n (CTxIn.prevout txin)) with
            | Some out =>
                if bool_decide (GetHash prev = COutPoint.hash (CTxIn.prevout txin))
                then Some (true, out) else Some (false, utxo0)
            | None => Some (false, utxo0)
            end) as Hgen.
  { intros q inp Hq Hi Hp. unfold PartiallySignedTransaction.GetInputUTXO.
    rewrite Hi, Hq. simpl. rewrite Hvin. simpl. rewrite Hp.
    destruct (_ <=? _)%N eqn:E.
    - apply N.leb_le in E. rewrite lookup_ge_None_2; [done|lia].
    - apply N.leb_gt in E.
      destruct (lookup_lt_is_Some_2 (CMutableTransaction.vout prev)
                  (N.to_nat (COutPoint.n (CTxIn.prevout txin)))) as [out ->]; [lia|].
      simpl. by repeat case_bool_decide. }
  split; [by apply (Hgen p input)|].
  intros w. rewrite (Hgen p input Htx Hin Hprev).
  apply (Hgen _ (PSKTInput.set_witness_utxo w input)); simpl; [done| |done].
  apply list_lookup_insert_eq. by eapply lookup_lt_Some.
Qed.
End utxo.

Lemma GetInputUTXO_non_witness_witness :
  PartiallySignedTransaction.GetInputUTXO (H := Sample.hasher)
    Sample.spends_foreign CTxOut.Null 0 = Some (false, CTxOut.Null) ∧
  ∀ w, PartiallySignedTransaction.GetInputUTXO (H := Sample.hasher)
         (set_input 0
            (PSKTInput.set_witness_utxo w
               (Sample.record_with_predecessor Sample.foreign_predecessor
                  (Sample.txout 70 [Byte.x00])))
            Sample.spends_foreign) CTxOut.Null 0 =
       PartiallySignedTransaction.GetInputUTXO (H := Sample.hasher)
         Sample.spends_foreign CTxOut.Null 0.
Proof.
  exact (GetInputUTXO_non_witness (H := Sample.hasher) Sample.spends_foreign
           (Sample.mktx [Sample.txin 7 0 4294967295] [Sample.txout 50 [Byte.x51]])
           Sample.foreign_predecessor
           (Sample.record_with_predecessor Sample.foreign_predecessor
              (Sample.txout 70 [Byte.x00]))
           (Sample.txin 7 0 4294967295) CTxOut.Null 0
           eq_refl eq_refl eq_refl eq_refl).
Defined.

(* --------------------------------------------------------------------- *)
(** ** Signing one input *)
(* --------------------------------------------------------------------- *)

Section sign_more.
Context `{TxHasher, KeyHasher, ScriptSigner}.

Lemma FromSignatureData_unsigned_fields (input : PSKTInput.t) (sigdata : SignatureData.t) :
  PSKTInput_unsigned_fields (PSKTInput.FromSignatureData input sigdata) =
  PSKTInput_unsigned_fields input.
Proof. unfold PSKTInput.FromSignatureData. by destruct (SignatureData.complete sigdata). Qed.

Lemma sign_input_frame (provider : SigningProvider) (tx : CMutableTransaction.t)
  (input input' : PSKTInput.t) (index : nat)
  (txdata : option PrecomputedTransactionData.t) (sighash : Z)
  (out out' : option SignatureData.t) (finalize ok : bool) :
  sign_input provider tx input index txdata sighash out finalize = Some (ok, input', out') →
  PSKTInput_unsigned_fields input' = PSKTInput_unsigned_fields input ∧
  (PSKTInputSigned input = true → ok = true ∧ input' = input ∧ out' = out).
Proof.
  unfold sign_input. destruct (PSKTInputSigned input); [by intros [= <- <- <-]|].
  destruct (sign_resolve_utxo tx input index) as [[[utxo req]|]|]; simpl;
    [|by intros [= <- <- <-]|done].
  destruct (ProduceSignature _ _ _ _) as [sig_complete sigdata].
  destruct (req && negb (SignatureData.witness sigdata)); [by intros [= <- <- <-]|].
  intros [= <- <- <-]. split; [|done].
  destruct (SignatureData.witness _);
    [change (PSKTInput_unsigned_fields (PSKTInput.set_witness_utxo utxo ?i))
       with (PSKTInput_unsigned_fields i)|];
    apply FromSignatureData_unsigned_fields.
Qed.

(** X10: [SignPSKTInput] works on [inputs[index]] only.  The transaction, the
    output records, the global maps and every other input record are left
    as they were, and in the record it works on the non-witness UTXO, the
    preimages, the unknown and proprietary records and the sighash type are
    never changed; a record that is already signed is not changed at all
    and the call returns true. *)
Theorem SignPSKTInput_frame (provider : SigningProvider)
  (pskt pskt' : PartiallySignedTransaction.t) (index : nat)
  (txdata : option PrecomputedTransactionData.t) (sighash : Z)
  (out out' : option SignatureData.t) (finalize ok : bool) :
  SignPSKTInput provider pskt index txdata sighash out finalize = Some (ok, pskt', out') →
  PartiallySignedTransaction.tx pskt' = PartiallySignedTransaction.tx pskt ∧
  PartiallySignedTransaction.outputs pskt' = PartiallySignedTransaction.outputs pskt ∧
  PartiallySignedTransaction.m_xpubs pskt' = PartiallySignedTransaction.m_xpubs pskt ∧
  PartiallySignedTransaction.unknown pskt' = PartiallySignedTransaction.unknown pskt ∧
  PartiallySignedTransaction.m_version pskt' = PartiallySignedTransaction.m_version pskt ∧
  PartiallySignedTransaction.m_proprietary pskt' =
    PartiallySignedTransaction.m_proprietary pskt ∧
  length (PartiallySignedTransaction.inputs pskt') =
    length (PartiallySignedTransaction.inputs pskt) ∧
  (∀ j, j ≠ index →
        PartiallySignedTransaction.inputs pskt' !! j =
        PartiallySignedTransaction.inputs pskt !! j) ∧
  ∃ input input',
    PartiallySignedTransaction.inputs pskt !! index = Some input ∧
    PartiallySignedTransaction.inputs pskt' !! index = Some input' ∧
    PSKTInput.non_witness_utxo input' = PSKTInput.non_witness_utxo input ∧
    PSKTInput.ripemd160_preimages input' = PSKTInput.ripemd160_preimages input ∧
    PSKTInput.sha256_preimages input' = PSKTInput.sha256_preimages input ∧
    PSKTInput.hash160_preimages input' = PSKTInput.hash160_preimages input ∧
    PSKTInput.hash256_preimages input' = PSKTInput.hash256_preimages input ∧
    PSKTInput.unknown input' = PSKTInput.unknown input ∧
    PSKTInput.m_proprietary input' = PSKTInput.m_proprietary input ∧
    PSKTInput.sighash_type input' = PSKTInput.sighash_type input ∧
    (PSKTInputSigned input = true → ok = true ∧ pskt' = pskt ∧ out' = out).
Proof.
  rewrite SignPSKTInput_sign_input.
  destruct (PartiallySignedTransaction.inputs pskt !! index) as [input|] eqn:Hin;
    [simpl|done].
  destruct (PartiallySignedTransaction.tx pskt) as [tx|] eqn:Htx; [simpl|done].
  destruct (sign_input _ _ _ _ _ _ _ _) as [[[ok0 input'] out0]|] eqn:Hsign; [simpl|done].
  intros [= <- <- <-]. simpl.
  destruct (sign_input_frame _ _ _ _ _ _ _ _ _ _ _ Hsign) as [Hfields Hsigned].
  split_and!; try done.
  - by rewrite length_insert.
  - intros j Hj. by rewrite list_lookup_insert_ne.
  - exists input, input'. unfold PSKTInput_unsigned_fields in Hfields.
    split; [done|]. split.
    { apply list_lookup_insert_eq. by eapply lookup_lt_Some. }
    simplify_eq. split_and!; try done.
    intros Hs. destruct (Hsigned Hs) as (-> & -> & ->).
    by rewrite set_input_same.
Qed.

(** X9: the round trip through [SignatureData]: writing back what
    [FillSignatureData] took out of an unsigned input record gives the
    record back; for a record with a final scriptSig or witness it drops
    the partial signatures, key paths, redeem script and witness script and
    keeps the rest. *)
Theorem FromSignatureData_FillSignatureData (input : PSKTInput.t) :
  let back :=
    PSKTInput.FromSignatureData input
      (PSKTInput.FillSignatureData input SignatureData.default) in
  (PSKTInputSigned input = false → back = input) ∧
  (PSKTInputSigned input = true →
   back = {| PSKTInput.partial_sigs := ∅; PSKTInput.hd_keypaths := ∅;
             PSKTInput.redeem_script := []; PSKTInput.witness_script := [];
             PSKTInput.final_script_sig := PSKTInput.final_script_sig input;
             PSKTInput.final_script_witness := PSKTInput.final_script_witness input;
             PSKTInput.non_witness_utxo := PSKTInput.non_witness_utxo input;
             PSKTInput.witness_utxo := PSKTInput.witness_utxo input;
             PSKTInput.ripemd160_preimages := PSKTInput.ripemd160_preimages input;
             PSKTInput.sha256_preimages := PSKTInput.sha256_preimages input;
             PSKTInput.hash160_preimages := PSKTInput.hash160_preimages input;
             PSKTInput.hash256_preimages := PSKTInput.hash256_preimages input;
             PSKTInput.m_tap_key_sig := PSKTInput.m_tap_key_sig input;
             PSKTInput.m_tap_script_sigs := PSKTInput.m_tap_script_sigs input;
             PSKTInput.m_tap_scripts := PSKTInput.m_tap_scripts input;
             PSKTInput.m_tap_bip32_paths := PSKTInput.m_tap_bip32_paths input;
             PSKTInput.m_tap_internal_key := PSKTInput.m_tap_internal_key input;
             PSKTInput.m_tap_merkle_root := PSKTInput.m_tap_merkle_root input;
             PSKTInput.unknown := PSKTInput.unknown input;
             PSKTInput.m_proprietary := PSKTInput.m_proprietary input;
             PSKTInput.sighash_type := PSKTInput.sighash_type input |}).
Proof.
  split.
  - intros Hs. destruct (FillSignatureData_unsigned input Hs)
      as (? & ? & ? & ? & ? & ? & ? & ? & ?).
    by apply FromSignatureData_nothing_new.
  - unfold PSKTInputSigned, PSKTInput.FillSignatureData, PSKTInput.FromSignatureData.
    destruct (is_empty (PSKTInput.final_script_sig input)) eqn:Es,
      (CScriptWitness.IsNull (PSKTInput.final_script_witness input)) eqn:Ew;
      simpl; try done; intros _; rewrite ?Es, ?Ew; simpl; done.
Qed.
End sign_more.

(** The theorem above at a sample: finalizing the one input of the sample
    PSKT promotes its signature and leaves the transaction alone. *)
Lemma SignPSKTInput_frame_witness :
  ∃ ok pskt' out',
    SignPSKTInput (H := Sample.hasher) (H0 := Sample.key_hasher) (H1 := Sample.signer)
      tt Sample.signed_segwit 0 None 1 None true = Some (ok, pskt', out') ∧
    PSKTInputSigned <$> PartiallySignedTransaction.inputs pskt' = [true] ∧
    PartiallySignedTransaction.tx pskt' =
      PartiallySignedTransaction.tx Sample.signed_segwit ∧
    PartiallySignedTransaction.outputs pskt' =
      PartiallySignedTransaction.outputs Sample.signed_segwit.
Proof.
  eexists _, _, _. split; [reflexivity|]. split; [reflexivity|].
  destruct (SignPSKTInput_frame (H := Sample.hasher) (H0 := Sample.key_hasher)
              (H1 := Sample.signer) tt Sample.signed_segwit _ 0 None 1 None _ true _
              eq_refl) as (Htx & Houts & _).
  split; [exact Htx|exact Houts].
Defined.

(* --------------------------------------------------------------------- *)
(** ** FinalizePSKT and extraction *)
(* --------------------------------------------------------------------- *)

Section finalize_more.
Context `{TxHasher, KeyHasher, ScriptSigner}.

Lemma finalize_loop_frame (txdata : PrecomputedTransactionData.t) (indices : list nat) :
  ∀ (p p' : PartiallySignedTransaction.t) (c c' : bool),
  NoDup indices →
  finalize_loop txdata indices p c = Some (c', p') →
  PartiallySignedTransaction.tx p' = PartiallySignedTransaction.tx p ∧
  PartiallySignedTransaction.outputs p' = PartiallySignedTransaction.outputs p ∧
  PartiallySignedTransaction.m_xpubs p' = PartiallySignedTransaction.m_xpubs p ∧
  PartiallySignedTransaction.unknown p' = PartiallySignedTransaction.unknown p ∧
  PartiallySignedTransaction.m_version p' = PartiallySignedTransaction.m_version p ∧
  PartiallySignedTransaction.m_proprietary p' =
    PartiallySignedTransaction.m_proprietary p ∧
  Forall2 finalized_from (PartiallySignedTransaction.inputs p)
          (PartiallySignedTransaction.inputs p') ∧
  (c' = true → c = true) ∧
  (Forall (λ i, PSKTInputSigned i = true) (PartiallySignedTransaction.inputs p) →
   c' = c ∧ p' = p).
Proof.
  induction indices as [|i rest IH]; intros p p' c c' Hnd; simpl.
  - intros [= <- <-]. split_and!; try done.
    apply Forall2_same_length_lookup_2; [done|].
    intros j x y Hx Hy. by simplify_eq.
  - rewrite SignPSKTInput_sign_input.
    destruct (PartiallySignedTransaction.inputs p !! i) as [input|] eqn:Hin;
      [simpl|done].
    destruct (PartiallySignedTransaction.tx p) as [tx|] eqn:Htx; [simpl|done].
    destruct (sign_input _ _ _ _ _ _ _ _) as [[[ok input1] out1]|] eqn:Hsign;
      [simpl|done].
    intros Hrest. apply NoDup_cons in Hnd as [Hi Hnd].
    destruct (sign_input_frame _ _ _ _ _ _ _ _ _ _ _ Hsign) as [Hfields Hsigned].
    destruct (IH (set_input i input1 p) p' (c && ok) c' Hnd Hrest)
      as (Htx' & Houts' & Hx' & Hu' & Hv' & Hp' & Hins' & Hc' & Hall').
    simpl in *.
    split_and!; try congruence.
    + apply Forall2_same_length_lookup_2.
      { apply Forall2_length in Hins'. by rewrite length_insert in Hins'. }
      intros j x y Hj Hj'.
      destruct (Forall2_lookup_r _ _ _ _ _ Hins' Hj') as (x1 & Hj1 & [Hf1 Hs1]).
      destruct (decide (j = i)) as [->|Hne].
      * rewrite Hin in Hj. injection Hj as <-.
        rewrite list_lookup_insert_eq in Hj1 by (by eapply lookup_lt_Some).
        injection Hj1 as <-. split; [congruence|].
        intros Hs. destruct (Hsigned Hs) as (_ & -> & _). by apply Hs1.
      * rewrite list_lookup_insert_ne in Hj1 by done.
        rewrite Hj in Hj1. injection Hj1 as <-. by split.
    + intros Hc. apply Hc' in Hc. by apply andb_true_iff in Hc as [? _].
    + intros Hall.
      assert (PSKTInputSigned input = true) as Hs.
      { eapply (proj1 (Forall_lookup _ _)) in Hall; [exact Hall|exact Hin]. }
      destruct (Hsigned Hs) as (-> & -> & _).
      rewrite list_insert_id in Hall' by done.
      destruct (Hall' Hall) as [-> ->].
      rewrite andb_true_r. split; [done|]. by apply set_input_same.
Qed.

Lemma count_unsigned_finalized (xs ys : list PSKTInput.t) :
  Forall2 finalized_from xs ys →
  (length (filter (λ i, PSKTInputSigned i = false) ys) ≤
   length (filter (λ i, PSKTInputSigned i = false) xs))%nat.
Proof.
  induction 1 as [|x y xs ys [_ Hxy] _ IH]; [done|].
  rewrite !filter_cons.
  destruct (decide (PSKTInputSigned y = false)) as [Hy|Hy];
    destruct (decide (PSKTInputSigned x = false)) as [Hx|Hx]; simpl; try lia.
  apply not_false_is_true in Hx. rewrite (Hxy Hx) in Hy. congruence.
Qed.

(** X11: [FinalizePSKT] on a well-formed PSKT returns and leaves a well-formed
    PSKT over the same transaction; it changes input records only, never
    touches a record that is already signed, and so never raises the
    number of unsigned inputs.  When every input is signed already, it
    returns true and changes nothing. *)
Theorem FinalizePSKT_frame (p : PartiallySignedTransaction.t) :
  well_formed p →
  ∃ complete p',
    FinalizePSKT p = Some (complete, p') ∧
    well_formed p' ∧
    PartiallySignedTransaction.tx p' = PartiallySignedTransaction.tx p ∧
    PartiallySignedTransaction.outputs p' = PartiallySignedTransaction.outputs p ∧
    PartiallySignedTransaction.m_xpubs p' = PartiallySignedTransaction.m_xpubs p ∧
    PartiallySignedTransaction.unknown p' = PartiallySignedTransaction.unknown p ∧
    PartiallySignedTransaction.m_version p' = PartiallySignedTransaction.m_version p ∧
    PartiallySignedTransaction.m_proprietary p' =
      PartiallySignedTransaction.m_proprietary p ∧
    (∀ j input,
       PartiallySignedTransaction.inputs p !! j = Some input →
       PSKTInputSigned input = true →
       PartiallySignedTransaction.inputs p' !! j = Some input) ∧
    (CountPSKTUnsignedInputs p' ≤ CountPSKTUnsignedInputs p)%nat ∧
    (CountPSKTUnsignedInputs p = 0%nat → complete = true ∧ p' = p).
Proof.
  intros Hwf. destruct (PrecomputePSKTData_total p Hwf) as [txdata Htd].
  destruct (well_formed_tx _ Hwf) as (tx & Htx & Hlen & Hlen').
  destruct (finalize_loop_total txdata tx (length (CMutableTransaction.vin tx)) 0 p true
              Htx Hlen) as [[complete p'] Hloop]; [lia|].
  destruct (finalize_loop_frame txdata _ p p' true complete (NoDup_seq _ _) Hloop)
    as (Htx' & Houts & Hx & Hu & Hv & Hp & Hins & _ & Hall).
  exists complete, p'. unfold FinalizePSKT. rewrite Htd, Htx. simpl.
  split_and!; try done.
  - unfold well_formed. rewrite Htx', Htx, Houts.
    apply Forall2_length in Hins. split; congruence.
  - congruence.
  - intros j input Hj Hs.
    destruct (Forall2_lookup_l _ _ _ _ _ Hins Hj) as (y & Hy & [_ Hsame]).
    by rewrite Hy, (Hsame Hs).
  - by apply count_unsigned_finalized.
  - unfold CountPSKTUnsignedInputs. intros Hz%length_zero_iff_nil.
    apply Hall, Forall_forall. intros i Hi.
    destruct (PSKTInputSigned i) eqn:Es; [done|].
    assert (i ∈ filter (λ i, PSKTInputSigned i = false)
                  (PartiallySignedTransaction.inputs p)) as Hin
      by (by apply list_elem_of_filter).
    rewrite Hz in Hin. by apply elem_of_nil in Hin.
Qed.
End finalize_more.

Lemma FinalizePSKT_frame_witness :
  ∃ complete p',
    FinalizePSKT (H := Sample.hasher) (H0 := Sample.key_hasher) (H1 := Sample.signer)
      Sample.signed_segwit = Some (complete, p') ∧
    well_formed p' ∧
    PartiallySignedTransaction.tx p' = PartiallySignedTransaction.tx Sample.signed_segwit ∧
    (CountPSKTUnsignedInputs p' ≤ CountPSKTUnsignedInputs Sample.signed_segwit)%nat.
Proof.
  destruct (FinalizePSKT_frame (H := Sample.hasher) (H0 := Sample.key_hasher)
              (H1 := Sample.signer) Sample.signed_segwit (conj eq_refl eq_refl))
    as (complete & p' & Hfin & Hwf & Htx & _ & _ & _ & _ & _ & _ & Hcount & _).
  exists complete, p'. split; [exact Hfin|]. split; [exact Hwf|].
  split; [exact Htx|exact Hcount].
Defined.

Lemma count_unsigned_zero (l : list PSKTInput.t) :
  length (filter (λ i, PSKTInputSigned i = false) l) = 0%nat ↔
  Forall (λ i, PSKTInputSigned i = true) l.
Proof.
  rewrite length_zero_iff_nil. split.
  - intros Hz. apply Forall_forall. intros i Hi.
    destruct (PSKTInputSigned i) eqn:Es; [done|].
    assert (i ∈ filter (λ i, PSKTInputSigned i = false) l) as Hin
      by (by apply list_elem_of_filter).
    rewrite Hz in Hin. by apply elem_of_nil in Hin.
  - induction 1 as [|x l Hx _ IH]; [done|].
    rewrite filter_cons_False by (by rewrite Hx). done.
Qed.

Section finalize_complete.
Context `{TxHasher, KeyHasher, ScriptSigner}.
Hypothesis contract : finalizer_contract.

(** Under the finalizer contract the boolean of a finalizing
    [SignPSKTInput] says whether the record is signed afterwards. *)
Lemma sign_input_finalize_signed (tx : CMutableTransaction.t)
  (input input' : PSKTInput.t) (i : nat) (txdata : PrecomputedTransactionData.t)
  (ok : bool) (out : option SignatureData.t) :
  sign_input DUMMY_SIGNING_PROVIDER tx input i (Some txdata) SIGHASH_ALL None true
    = Some (ok, input', out) →
  PSKTInputSigned input' = ok.
Proof.
  unfold sign_input. destruct (PSKTInputSigned input) eqn:Hs; [by intros [= <- <- <-]|].
  destruct (sign_resolve_utxo tx input i) as [[[utxo req]|]|]; simpl;
    [|by intros [= <- <- <-]|done].
  pose proof (produce_returns_complete contract
                (sign_creator tx i utxo (Some txdata) SIGHASH_ALL)
                (CTxOut.scriptPubKey utxo)
                (SignatureData.set_witness false
                   (PSKTInput.FillSignatureData input SignatureData.default))) as Hret.
  pose proof (complete_is_final contract
                (sign_creator tx i utxo (Some txdata) SIGHASH_ALL)
                (CTxOut.scriptPubKey utxo)
                (SignatureData.set_witness false
                   (PSKTInput.FillSignatureData input SignatureData.default))) as Hfinal.
  unfold sign_creator in Hret, Hfinal. simpl in Hret, Hfinal.
  destruct (ProduceSignature _ _ _ _) as [sig_complete sigdata]. simpl in *.
  destruct (req && negb (SignatureData.witness sigdata)); [by intros [= <- <- <-]|].
  intros [= <- <- <-]. subst sig_complete.
  assert (PSKTInputSigned (PSKTInput.FromSignatureData input sigdata) =
          SignatureData.complete sigdata) as Hfrom.
  { unfold PSKTInput.FromSignatureData, PSKTInputSigned in *.
    destruct (SignatureData.complete sigdata); simpl; [|exact Hs].
    destruct (Hfinal eq_refl) as [E|E]; rewrite E; simpl; rewrite E; simpl; [done|].
    by rewrite orb_true_r. }
  by destruct (SignatureData.witness sigdata).
Qed.

Lemma finalize_loop_complete (txdata : PrecomputedTransactionData.t)
  (tx : CMutableTransaction.t) (m : nat) :
  ∀ (k : nat) (p p' : PartiallySignedTransaction.t) (c c' : bool),
  PartiallySignedTransaction.tx p = Some tx →
  finalize_loop txdata (seq k m) p c = Some (c', p') →
  c' = true ↔
  c = true ∧
  ∀ j input', (k ≤ j < k + m)%nat →
              PartiallySignedTransaction.inputs p' !! j = Some input' →
              PSKTInputSigned input' = true.
Proof.
  induction m as [|m IH]; intros k p p' c c' Htx; simpl.
  - intros [= <- <-]. split; [|by intros [? _]]. intros ->. split; [done|]. lia.
  - rewrite SignPSKTInput_sign_input.
    destruct (PartiallySignedTransaction.inputs p !! k) as [input|] eqn:Hin;
      [simpl|done].
    rewrite Htx. simpl.
    destruct (sign_input _ _ _ _ _ _ _ _) as [[[ok input1] out]|] eqn:Hsign;
      [simpl|done].
    intros Hrest.
    pose proof (sign_input_finalize_signed _ _ _ _ _ _ _ Hsign) as Hok.
    destruct (finalize_loop_spec contract txdata tx m (S k) (set_input k input1 p) p'
                (c && ok) c' Htx Hrest) as (_ & _ & Hbefore & _).
    assert (PartiallySignedTransaction.inputs p' !! k = Some input1) as Hk.
    { rewrite Hbefore by lia. simpl. apply list_lookup_insert_eq.
      by eapply lookup_lt_Some. }
    rewrite (IH (S k) (set_input k input1 p) p' (c && ok) c' Htx Hrest).
    rewrite andb_true_iff. split.
    + intros [[-> Hoktrue] Hlater]. split; [done|].
      intros j input' Hj Hlook. destruct (decide (j = k)) as [->|Hne].
      * rewrite Hk in Hlook. injection Hlook as <-. congruence.
      * apply (Hlater j); [lia|done].
    + intros [-> Hall]. split_and!; [done| |].
      * rewrite <- Hok. apply (Hall k); [lia|done].
      * intros j input' Hj. apply Hall. lia.
Qed.

End finalize_complete.


Lemma mapM_imap_pair_Some {A B C} (f : A → B → C) (xs : list A) (ys : list B) :
  length xs = length ys →
  mapM (λ '(i, y), x ← xs !! i; Some (f x y)) (imap pair ys) =
  Some (zip_with f xs ys).
Proof.
  intros Hlen. apply mapM_Some, Forall2_same_length_lookup_2.
  { rewrite length_imap, length_zip_with. lia. }
  intros i [j y] z Hi Hz. rewrite list_lookup_imap in Hi.
  destruct (ys !! i) as [y'|] eqn:Hy; [simpl in Hi|done]. injection Hi as <- <-.
  apply lookup_zip_with_Some in Hz as (x & y'' & -> & Hx & Hy'').
  rewrite Hx. simpl. congruence.
Qed.

Lemma forallb_lookup {A} (f : A → bool) (l : list A) (i : nat) (x : A) :
  forallb f l = true → l !! i = Some x → f x = true.
Proof.
  revert i. induction l as [|y l IH]; intros i; [done|]. simpl.
  intros [Hy Hl]%andb_true_iff. destruct i as [|i]; simpl.
  - by intros [= <-].
  - by apply IH.
Qed.

Section extract.
Context `{TxHasher, KeyHasher, ScriptSigner}.

(** X13: [FinalizeAndExtractPSKT] on a well-formed PSKT returns what
    [FinalizePSKT] returns and leaves the PSKT as [FinalizePSKT] does.
    When that is false, [result] is not written.  When it is true,
    [result] is the unsigned transaction with, in every input, the final
    scriptSig and the final witness of the matching record: outputs,
    version, lock time, outpoints and sequence numbers are those of the
    unsigned transaction. *)
Theorem FinalizeAndExtractPSKT_result (psktx : PartiallySignedTransaction.t)
  (tx result0 : CMutableTransaction.t) :
  well_formed psktx →
  PartiallySignedTransaction.tx psktx = Some tx →
  ∃ complete psktx' result,
    FinalizePSKT psktx = Some (complete, psktx') ∧
    FinalizeAndExtractPSKT psktx result0 = Some (complete, psktx', result) ∧
    (complete = false → result = result0) ∧
    (complete = true →
     CMutableTransaction.vout result = CMutableTransaction.vout tx ∧
     CMutableTransaction.nVersion result = CMutableTransaction.nVersion tx ∧
     CMutableTransaction.nLockTime result = CMutableTransaction.nLockTime tx ∧
     CMutableTransaction.vin result =
       zip_with extracted_txin (PartiallySignedTransaction.inputs psktx')
                (CMutableTransaction.vin tx)).
Proof.
  intros Hwf Htx. destruct (PrecomputePSKTData_total psktx Hwf) as [txdata Htd].
  destruct (well_formed_tx _ Hwf) as (tx' & Htx' & Hlen & _).
  rewrite Htx in Htx'. injection Htx' as <-.
  destruct (finalize_loop_total txdata tx (length (CMutableTransaction.vin tx)) 0 psktx
              true Htx Hlen) as [[complete psktx'] Hloop]; [lia|].
  destruct (finalize_loop_frame txdata _ psktx psktx' true complete (NoDup_seq _ _) Hloop)
    as (Htx1 & _ & _ & _ & _ & _ & Hins & _).
  assert (FinalizePSKT psktx = Some (complete, psktx')) as Hfin.
  { unfold FinalizePSKT. by rewrite Htd, Htx. }
  unfold FinalizeAndExtractPSKT. rewrite Hfin. simpl.
  destruct complete; simpl.
  - rewrite Htx1, Htx. simpl.
    rewrite (mapM_imap_pair_Some extracted_txin).
    2:{ apply Forall2_length in Hins. congruence. }
    simpl. eexists true, psktx', _. split_and!; done.
  - exists false, psktx', result0. split_and!; done.
Qed.

(** X14: [PrecomputePSKTData] hands the signature checker either the spent
    output of every input, in input order, or none at all: the list is
    empty as soon as one input has no verified UTXO. *)
Theorem PrecomputePSKTData_spent_outputs (p : PartiallySignedTransaction.t)
  (tx : CMutableTransaction.t) :
  well_formed p →
  PartiallySignedTransaction.tx p = Some tx →
  ∃ txdata,
    PrecomputePSKTData p = Some txdata ∧
    PrecomputedTransactionData.tx txdata = tx ∧
    PrecomputedTransactionData.force txdata = true ∧
    ((length (PrecomputedTransactionData.spent_outputs txdata) =
        length (CMutableTransaction.vin tx) ∧
      ∀ i utxo,
        PrecomputedTransactionData.spent_outputs txdata !! i = Some utxo →
        PartiallySignedTransaction.GetInputUTXO p CTxOut.Null i = Some (true, utxo)) ∨
     (PrecomputedTransactionData.spent_outputs txdata = [] ∧
      ∃ i, (i < length (CMutableTransaction.vin tx))%nat ∧
           PartiallySignedTransaction.GetInputUTXO p CTxOut.Null i
             = Some (false, CTxOut.Null))).
Proof.
  intros Hwf Htx. destruct (well_formed_tx _ Hwf) as (tx' & Htx' & Hlen & _).
  rewrite Htx in Htx'. injection Htx' as <-.
  unfold PrecomputePSKTData. rewrite Htx. simpl.
  destruct (mapM _ _) as [found|] eqn:Hfound.
  2:{ destruct (PrecomputePSKTData_total p Hwf) as [td Htd].
      unfold PrecomputePSKTData in Htd. rewrite Htx in Htd. simpl in Htd.
      by rewrite Hfound in Htd. }
  simpl. apply mapM_Some in Hfound.
  destruct (forallb fst found) eqn:Hall; eexists; (split; [done|]); simpl;
    (split; [done|]); (split; [done|]).
  - left. split.
    { rewrite length_fmap. apply Forall2_length in Hfound.
      by rewrite length_seq in Hfound. }
    intros i utxo Hi. rewrite list_lookup_fmap in Hi.
    destruct (found !! i) as [[b u]|] eqn:Hf; [simpl in Hi|done]. injection Hi as ->.
    destruct (Forall2_lookup_r _ _ _ _ _ Hfound Hf) as (j & Hj & Hget).
    apply lookup_seq in Hj as [-> _]. simpl in Hget.
    apply (forallb_lookup _ _ _ _ Hall) in Hf. simpl in Hf. by subst b.
  - right. split; [done|].
    assert (∃ b u, (b, u) ∈ found ∧ b = false) as (b & u & Hin & ->).
    { clear Hfound. induction found as [|[b u] found IH]; [done|].
      simpl in Hall. apply andb_false_iff in Hall as [Hb|Hrest].
      - exists b, u. split; [left|done].
      - destruct (IH Hrest) as (b' & u' & Hin & ->). exists false, u'. split; [by right|done]. }
    apply list_elem_of_lookup in Hin as [i Hi].
    destruct (Forall2_lookup_r _ _ _ _ _ Hfound Hi) as (j & Hj & Hget).
    apply lookup_seq in Hj as [-> Hlt]. simpl in Hget, Hlt.
    exists i. split; [done|].
    unfold PartiallySignedTransaction.GetInputUTXO in *.
    destruct (PartiallySignedTransaction.inputs p !! i) as [input|]; [simpl in *|done].
    rewrite Htx in *. simpl in *.
    destruct (CMutableTransaction.vin tx !! i) as [txin|]; [simpl in *|done].
    destruct (PSKTInput.non_witness_utxo input) as [prev|].
    + destruct (_ <=? _)%N; [done|]. case_bool_decide; [done|].
      by destruct (CMutableTransaction.vout prev !! _).
    + by destruct (negb _).
Qed.
End extract.

(** The theorems above at a sample: the signed sample PSKT finalizes
    completely, and the extracted input carries the final witness. *)
Lemma FinalizeAndExtractPSKT_result_witness :
  ∃ psktx' result,
    FinalizeAndExtractPSKT (H := Sample.hasher) (H0 := Sample.key_hasher)
      (H1 := Sample.signer) Sample.signed_segwit (Sample.mktx [] [])
      = Some (true, psktx', result) ∧
    CMutableTransaction.vout result = [Sample.txout 50 [Byte.x51]] ∧
    CMutableTransaction.vin result =
      zip_with extracted_txin (PartiallySignedTransaction.inputs psktx')
               [Sample.txin 7 0 4294967295].
Proof.
  destruct (FinalizeAndExtractPSKT_result (H := Sample.hasher) (H0 := Sample.key_hasher)
              (H1 := Sample.signer) Sample.signed_segwit
              (Sample.mktx [Sample.txin 7 0 4294967295] [Sample.txout 50 [Byte.x51]])
              (Sample.mktx [] []) (conj eq_refl eq_refl) eq_refl)
    as (complete & psktx' & result & Hfin & Hext & _ & Htrue).
  assert (complete = true) as ->.
  { vm_compute in Hfin. by injection Hfin as <- _. }
  exists psktx', result. split; [exact Hext|].
  destruct (Htrue eq_refl) as (Hvout & _ & _ & Hvin).
  split; [exact Hvout|exact Hvin].
Defined.

Lemma PrecomputePSKTData_spent_outputs_witness :
  ∃ txdata,
    PrecomputePSKTData (H := Sample.hasher) Sample.spends_foreign = Some txdata ∧
    PrecomputedTransactionData.force txdata = true ∧
    PrecomputedTransactionData.spent_outputs txdata = [].
Proof.
  destruct (PrecomputePSKTData_spent_outputs (H := Sample.hasher) Sample.spends_foreign
              (Sample.mktx [Sample.txin 7 0 4294967295] [Sample.txout 50 [Byte.x51]])
              (conj eq_refl eq_refl) eq_refl)
    as (txdata & Htd & _ & Hforce & _).
  exists txdata. split; [exact Htd|]. split; [exact Hforce|].
  vm_compute in Htd. by injection Htd as <-.
Defined.

(* --------------------------------------------------------------------- *)
(** ** AnalyzePSKT: rows, validity and fee *)
(* --------------------------------------------------------------------- *)

Section analyze_more.
Context `{TxHasher, KeyHasher, ScriptSigner, Policy}.

Lemma GetInputUTXO_not_found (p : PartiallySignedTransaction.t) (utxo0 utxo : CTxOut.t)
  (i : nat) :
  PartiallySignedTransaction.GetInputUTXO p utxo0 i = Some (false, utxo) → utxo = utxo0.
Proof.
  unfold PartiallySignedTransaction.GetInputUTXO.
  destruct (PartiallySignedTransaction.inputs p !! i) as [input|]; [simpl|done].
  destruct (PartiallySignedTransaction.tx p) as [tx|]; [simpl|done].
  destruct (CMutableTransaction.vin tx !! i) as [txin|]; [simpl|done].
  destruct (PSKTInput.non_witness_utxo input) as [prev|].
  - destruct (_ <=? _)%N; [by intros [= <-]|].
    case_bool_decide; [by intros [= <-]|].
    by destruct (CMutableTransaction.vout prev !! _).
  - by destruct (CTxOut.IsNull _); intros [= <-].
Qed.

Lemma analyze_input_row (txdata : PrecomputedTransactionData.t) (i : nat)
  (st st' : node.loop_state) (tx : CMutableTransaction.t) (input : PSKTInput.t)
  (found : bool) (utxo : CTxOut.t) :
  PartiallySignedTransaction.tx (node.psktx st) = Some tx →
  PartiallySignedTransaction.inputs (node.psktx st) !! i = Some input →
  PartiallySignedTransaction.GetInputUTXO (node.psktx st) CTxOut.Null i
    = Some (found, utxo) →
  node.analyze_input txdata i st = Some (inr st') →
  ∃ ia,
    node.analyses st' = <[i := ia]> (node.analyses st) ∧
    input_row tx txdata i input found ia ∧
    node.calc_fee st' = node.calc_fee st && found ∧
    (found = true →
     MoneyRange (add64 (node.in_amt st) (CTxOut.nValue utxo)) = true ∧
     node.in_amt st' = add64 (node.in_amt st) (CTxOut.nValue utxo)) ∧
    (found = false → node.in_amt st' = node.in_amt st).
Proof.
  intros Htx Hin Hget. unfold node.analyze_input.
  rewrite Hin, Htx. simpl.
  destruct (node.analyses st !! i) as [ia0|]; [simpl|done].
  destruct (CMutableTransaction.vin tx !! i) as [txin|]; [simpl|done].
  rewrite Hget. simpl.
  destruct found.
  - destruct (negb (MoneyRange (CTxOut.nValue utxo)) || _) eqn:Hmoney; [done|].
    apply orb_false_iff in Hmoney as [Hm1%negb_false_iff Hm2%negb_false_iff].
    rewrite (MoneyRange_not_null utxo Hm1). simpl.
    destruct (IsUnspendable _); [done|].
    destruct (PSKTInputSigned input) eqn:Hsigned; simpl.
    + intros [= <-]. simpl. eexists. split; [done|].
      unfold input_row. rewrite andb_true_r, Hsigned. simpl. split_and!; try done.
    + rewrite SignPSKTInput_sign_input, Hin, Htx. simpl.
      destruct (sign_input _ _ _ _ _ _ _ _) as [[[ok input'] out]|] eqn:Hsign; [simpl|done].
      destruct out as [outdata|]; [simpl|done].
      intros [= <-]. simpl. eexists. split; [done|].
      unfold input_row. rewrite andb_true_r, Hsigned. simpl. split_and!; try done.
      * by destruct ok; simpl; [|destruct (node.only_missing_sigs outdata)].
      * by destruct ok; simpl; [|destruct (node.only_missing_sigs outdata)].
      * intros _ _ complete r outdata' Hs'. rewrite Hsign in Hs'.
        injection Hs' as <- _ <-.
        destruct ok; simpl; [done|].
        by destruct (node.only_missing_sigs outdata).
  - destruct (match PSKTInput.non_witness_utxo input with Some _ => _ | None => _ end);
      [done|]. simpl.
    apply GetInputUTXO_not_found in Hget as ->. simpl.
    intros [= <-]. simpl. eexists. split; [done|].
    unfold input_row. rewrite andb_false_r. simpl. split_and!; done.
Qed.

Lemma analyze_inputs_rows (txdata : PrecomputedTransactionData.t)
  (psktx0 : PartiallySignedTransaction.t) (tx : CMutableTransaction.t) (m : nat) :
  ∀ (k : nat) (st st' : node.loop_state),
  PartiallySignedTransaction.tx psktx0 = Some tx →
  PartiallySignedTransaction.tx (node.psktx st) = Some tx →
  (∀ j, (k ≤ j)%nat →
        PartiallySignedTransaction.inputs (node.psktx st) !! j =
        PartiallySignedTransaction.inputs psktx0 !! j) →
  node.analyze_inputs txdata (seq k m) st = Some (inr st') →
  (∀ j input found utxo,
     (k ≤ j < k + m)%nat →
     PartiallySignedTransaction.inputs psktx0 !! j = Some input →
     PartiallySignedTransaction.GetInputUTXO psktx0 CTxOut.Null j = Some (found, utxo) →
     ∃ ia, node.analyses st' !! j = Some ia ∧ input_row tx txdata j input found ia) ∧
  (node.calc_fee st' = true ↔
   node.calc_fee st = true ∧
   ∀ j found utxo,
     (k ≤ j < k + m)%nat →
     PartiallySignedTransaction.GetInputUTXO psktx0 CTxOut.Null j = Some (found, utxo) →
     found = true) ∧
  (node.in_amt st = 0 ∨ MoneyRange (node.in_amt st) = true →
   node.in_amt st' = 0 ∨ MoneyRange (node.in_amt st') = true).
Proof.
  induction m as [|m IH]; intros k st st' Htx0 Htx Hframe; simpl.
  - intros [= <-]. split_and!; [intros; lia| |done].
    split; [|by intros [? _]]. intros Hc. split; [done|]. intros; lia.
  - destruct (node.analyze_input txdata k st) as [[msg|st1]|] eqn:Hstep; simpl;
      [done| |done].
    intros Hrest.
    destruct (analyze_input_Some_lookups _ _ _ _ Hstep) as [[input Hin] [ia0 Hia0]].
    destruct (analyze_input_inr txdata k st st1 tx input Htx Hin Hstep)
      as (input' & ia' & Hp & _).
    assert (is_Some (PartiallySignedTransaction.GetInputUTXO (node.psktx st)
                       CTxOut.Null k)) as [[found utxo] Hget].
    { unfold node.analyze_input in Hstep. rewrite Hin, Hia0, Htx in Hstep.
      simpl in Hstep.
      destruct (CMutableTransaction.vin tx !! k); [simpl in Hstep|done].
      destruct (PartiallySignedTransaction.GetInputUTXO _ _ _); [by eexists|done]. }
    destruct (analyze_input_row txdata k st st1 tx input found utxo Htx Hin Hget Hstep)
      as (ia & Ha & Hrow & Hcalc & Hfound & Hnot).
    assert (PartiallySignedTransaction.GetInputUTXO psktx0 CTxOut.Null k
              = Some (found, utxo)) as Hget0.
    { rewrite <- Hget. apply GetInputUTXO_local; [congruence|].
      symmetry. apply Hframe. lia. }
    assert (∀ j, (S k ≤ j)%nat →
                 PartiallySignedTransaction.inputs (node.psktx st1) !! j =
                 PartiallySignedTransaction.inputs psktx0 !! j) as Hframe1.
    { intros j Hj. rewrite Hp. simpl.
      rewrite list_lookup_insert_ne by lia. apply Hframe. lia. }
    assert (PartiallySignedTransaction.tx (node.psktx st1) = Some tx) as Htx1
      by (by rewrite Hp).
    destruct (IH (S k) st1 st' Htx0 Htx1 Hframe1 Hrest) as (Hrows & Hfee & Hamt).
    destruct (analyze_inputs_inr txdata psktx0 tx m (S k) st1 st' Htx0 Htx1 Hframe1 Hrest)
      as (_ & _ & _ & Hbefore & _).
    split_and!.
    + intros j input1 found1 utxo1 Hj Hin1 Hget1.
      destruct (decide (j = k)) as [->|Hne]; [|apply (Hrows j input1 found1 utxo1); [lia|done..]].
      rewrite Hget0 in Hget1. injection Hget1 as <- <-.
      rewrite <- Hframe in Hin1 by lia. rewrite Hin in Hin1. injection Hin1 as <-.
      exists ia. split; [|done].
      rewrite Hbefore by lia. rewrite Ha.
      apply list_lookup_insert_eq. by eapply lookup_lt_Some.
    + rewrite Hfee, Hcalc, andb_true_iff. split.
      * intros [[Hc ->] Hlater]. split; [done|].
        intros j found1 utxo1 Hj Hget1. destruct (decide (j = k)) as [->|Hne].
        -- rewrite Hget0 in Hget1. by injection Hget1 as <- <-.
        -- apply (Hlater j found1 utxo1); [lia|done].
      * intros [Hc Hall]. split_and!; [done|by apply (Hall k found utxo); [lia|]|].
        intros j found1 utxo1 Hj. apply Hall. lia.
    + intros Hinv. apply Hamt. destruct found.
      * destruct (Hfound eq_refl) as [Hm ->]. by right.
      * by rewrite (Hnot eq_refl).
Qed.
End analyze_more.

Section analyze_results.
Context `{TxHasher, KeyHasher, ScriptSigner, Policy}.

Lemma analyze_inputs_inl (txdata : PrecomputedTransactionData.t) (indices : list nat) :
  ∀ (st : node.loop_state) (msg : string),
  node.analyze_inputs txdata indices st = Some (inl msg) → msg ≠ "".
Proof.
  induction indices as [|i rest IH]; intros st msg; simpl; [done|].
  destruct (node.analyze_input txdata i st) as [[m|st1]|] eqn:Hstep; simpl;
    [|by apply IH|done].
  intros [= ->]. by apply analyze_input_inl in Hstep.
Qed.

(** [AnalyzePSKT] unfolded once. *)
Lemma AnalyzePSKT_inv (psktx : PartiallySignedTransaction.t)
  (tx : CMutableTransaction.t) (result : PSKTAnalysis.t) :
  PartiallySignedTransaction.tx psktx = Some tx →
  node.AnalyzePSKT psktx = Some result →
  ∃ txdata r,
    PrecomputePSKTData psktx = Some txdata ∧
    node.analyze_inputs txdata (seq 0 (length (CMutableTransaction.vin tx)))
      {| node.psktx := psktx; node.in_amt := 0; node.calc_fee := true;
         node.analyses :=
           replicate (length (CMutableTransaction.vin tx)) PSKTInputAnalysis.zero |}
      = Some r ∧
    match r with
    | inl msg => invalid_analysis result
    | inr st' =>
        let out_amt := node.output_amount (CMutableTransaction.vout tx) in
        if node.calc_fee st' && negb (MoneyRange out_amt) then invalid_analysis result
        else
          PSKTAnalysis.error result = "" ∧
          PSKTAnalysis.inputs result = node.analyses st' ∧
          PSKTAnalysis.next result = node.minimum_role (node.analyses st') ∧
          PSKTRole_ltb CREATOR (PSKTAnalysis.next result) = true ∧
          PSKTAnalysis.fee result =
            (if node.calc_fee st' then Some (sub64 (node.in_amt st') out_amt) else None) ∧
          (PSKTAnalysis.estimated_vsize result = None ↔
           PSKTAnalysis.estimated_feerate result = None) ∧
          (PSKTAnalysis.fee result = None → PSKTAnalysis.estimated_vsize result = None)
    end.
Proof.
  intros Htx. unfold node.AnalyzePSKT. rewrite Htx. simpl.
  destruct (PrecomputePSKTData psktx) as [txdata|]; [simpl|done].
  destruct (node.analyze_inputs _ _ _) as [[msg|st']|] eqn:Hrun; [simpl| |done].
  { intros [= <-]. exists txdata, (inl msg). split; [done|]. split; [done|].
    split; [|done]. simpl. by eapply analyze_inputs_inl. }
  simpl. destruct (PSKTRole_ltb CREATOR _) eqn:Hgt; [simpl|done].
  intros Hres. exists txdata, (inr st'). split; [done|]. split; [done|].
  simpl. revert Hres. destruct (node.calc_fee st'); simpl.
  - destruct (negb (MoneyRange _)); simpl.
    { intros [= <-]. by split. }
    destruct (node.estimate_loop _ _ _ _) as [[[success mtx] view]|]; [simpl|done].
    destruct success; intros [= <-]; simpl; split_and!; done.
  - intros [= <-]. simpl. split_and!; done.
Qed.

(** X15: the shape of every analysis: an analysis with an error message has
    been emptied by [SetInvalid]; one without has one row per input, a next
    role above [CREATOR], a size estimate exactly when it has a fee-rate
    estimate, and no estimate without a fee. *)
Theorem AnalyzePSKT_result_shape (psktx : PartiallySignedTransaction.t)
  (tx : CMutableTransaction.t) (result : PSKTAnalysis.t) :
  PartiallySignedTransaction.tx psktx = Some tx →
  node.AnalyzePSKT psktx = Some result →
  (PSKTAnalysis.error result ≠ "" →
   PSKTAnalysis.fee result = None ∧
   PSKTAnalysis.estimated_vsize result = None ∧
   PSKTAnalysis.estimated_feerate result = None ∧
   PSKTAnalysis.inputs result = [] ∧
   PSKTAnalysis.next result = CREATOR) ∧
  (PSKTAnalysis.error result = "" →
   length (PSKTAnalysis.inputs result) = length (CMutableTransaction.vin tx) ∧
   PSKTRole_value CREATOR < PSKTRole_value (PSKTAnalysis.next result) ∧
   (PSKTAnalysis.estimated_vsize result = None ↔
    PSKTAnalysis.estimated_feerate result = None) ∧
   (PSKTAnalysis.fee result = None → PSKTAnalysis.estimated_vsize result = None)).
Proof.
  intros Htx Hres.
  destruct (AnalyzePSKT_inv psktx tx result Htx Hres) as (txdata & r & Htd & Hrun & Hr).
  destruct r as [msg|st'].
  { destruct Hr as (Herr & ? & ? & ? & ? & ?). split; [done|]. by intros ?. }
  simpl in Hr. destruct (node.calc_fee st' && negb _).
  { destruct Hr as (Herr & ? & ? & ? & ? & ?). split; [done|]. by intros ?. }
  destruct Hr as (Herr & Hins & Hnext & Hgt & Hfee & Hest & Hnofee).
  split; [by intros ?|]. intros _.
  destruct (analyze_inputs_from_start txdata psktx tx st' Htx Hrun)
    as (_ & _ & Hlena & _).
  split_and!; try done.
  - congruence.
  - unfold PSKTRole_ltb in Hgt. by apply Z.ltb_lt in Hgt.
Qed.

Lemma analyze_input_not_fatal (txdata : PrecomputedTransactionData.t) (i : nat)
  (st st' : node.loop_state) :
  node.analyze_input txdata i st = Some (inr st') → ¬ fatal_input (node.psktx st) i.
Proof.
  unfold node.analyze_input.
  destruct (PartiallySignedTransaction.inputs _ !! i) as [input|] eqn:Hin; [simpl|done].
  destruct (node.analyses st !! i) as [ia0|]; [simpl|done].
  destruct (PartiallySignedTransaction.tx _) as [tx|] eqn:Htx; [simpl|done].
  destruct (CMutableTransaction.vin tx !! i) as [txin|] eqn:Hvin; [simpl|done].
  destruct (PartiallySignedTransaction.GetInputUTXO _ _ _) as [[found utxo]|] eqn:Hget;
    [simpl|done].
  intros Hstep [(utxo' & Hget' & Hbad)|(tx' & input' & txin' & prev & ? & ? & ? & Hprev & Hoob)].
  - rewrite Hget in Hget'. injection Hget' as -> <-. revert Hstep.
    destruct (negb (MoneyRange (CTxOut.nValue utxo)) || _) eqn:Hmoney; [done|].
    apply orb_false_iff in Hmoney as [Hm1%negb_false_iff Hm2%negb_false_iff].
    rewrite (MoneyRange_not_null utxo Hm1). simpl.
    destruct Hbad as [Hbad|Hbad]; [congruence|]. by rewrite Hbad.
  - simplify_eq. revert Hstep.
    assert (found = false) as ->.
    { unfold PartiallySignedTransaction.GetInputUTXO in Hget.
      rewrite Hin, Htx in Hget. simpl in Hget. rewrite Hvin in Hget. simpl in Hget.
      rewrite Hprev in Hget. apply N.leb_le in Hoob. rewrite Hoob in Hget.
      by injection Hget as <- _. }
    rewrite Hprev. apply N.leb_le in Hoob. by rewrite Hoob.
Qed.

Lemma fatal_input_local (p q : PartiallySignedTransaction.t) (i : nat) :
  PartiallySignedTransaction.tx p = PartiallySignedTransaction.tx q →
  PartiallySignedTransaction.inputs p !! i = PartiallySignedTransaction.inputs q !! i →
  fatal_input p i → fatal_input q i.
Proof.
  intros Htx Hin [(utxo & Hget & Hbad)|(tx & input & txin & prev & ? & ? & ? & ? & ?)].
  - left. exists utxo. split; [|done]. rewrite <- Hget. symmetry.
    by apply GetInputUTXO_local.
  - right. exists tx, input, txin, prev. split_and!; congruence.
Qed.

Lemma analyze_inputs_not_fatal (txdata : PrecomputedTransactionData.t)
  (psktx0 : PartiallySignedTransaction.t) (tx : CMutableTransaction.t) (m : nat) :
  ∀ (k : nat) (st st' : node.loop_state),
  PartiallySignedTransaction.tx psktx0 = Some tx →
  PartiallySignedTransaction.tx (node.psktx st) = Some tx →
  (∀ j, (k ≤ j)%nat →
        PartiallySignedTransaction.inputs (node.psktx st) !! j =
        PartiallySignedTransaction.inputs psktx0 !! j) →
  node.analyze_inputs txdata (seq k m) st = Some (inr st') →
  ∀ j, (k ≤ j < k + m)%nat → ¬ fatal_input psktx0 j.
Proof.
  induction m as [|m IH]; intros k st st' Htx0 Htx Hframe; simpl; [intros; lia|].
  destruct (node.analyze_input txdata k st) as [[msg|st1]|] eqn:Hstep; simpl;
    [done| |done].
  intros Hrest j Hj.
  destruct (decide (j = k)) as [->|Hne].
  - intros Hfatal. apply (analyze_input_not_fatal _ _ _ _ Hstep).
    apply (fatal_input_local psktx0); [congruence| |done].
    symmetry. apply Hframe. lia.
  - destruct (analyze_input_Some_lookups _ _ _ _ Hstep) as [[input Hin] _].
    destruct (analyze_input_inr txdata k st st1 tx input Htx Hin Hstep)
      as (input' & ia' & Hp & _).
    apply (IH (S k) st1 st'); [done|by rewrite Hp| |done|lia].
    intros j' Hj'. rewrite Hp. simpl.
    rewrite list_lookup_insert_ne by lia. apply Hframe. lia.
Qed.

Lemma analyze_from_start (txdata : PrecomputedTransactionData.t)
  (psktx : PartiallySignedTransaction.t) (tx : CMutableTransaction.t)
  (st' : node.loop_state) :
  PartiallySignedTransaction.tx psktx = Some tx →
  node.analyze_inputs txdata (seq 0 (length (CMutableTransaction.vin tx)))
    {| node.psktx := psktx; node.in_amt := 0; node.calc_fee := true;
       node.analyses :=
         replicate (length (CMutableTransaction.vin tx)) PSKTInputAnalysis.zero |}
    = Some (inr st') →
  (∀ j input found utxo,
     (j < length (CMutableTransaction.vin tx))%nat →
     PartiallySignedTransaction.inputs psktx !! j = Some input →
     PartiallySignedTransaction.GetInputUTXO psktx CTxOut.Null j = Some (found, utxo) →
     ∃ ia, node.analyses st' !! j = Some ia ∧ input_row tx txdata j input found ia) ∧
  (node.calc_fee st' = true ↔
   ∀ j found utxo,
     (j < length (CMutableTransaction.vin tx))%nat →
     PartiallySignedTransaction.GetInputUTXO psktx CTxOut.Null j = Some (found, utxo) →
     found = true) ∧
  (node.in_amt st' = 0 ∨ MoneyRange (node.in_amt st') = true) ∧
  (∀ j, (j < length (CMutableTransaction.vin tx))%nat → ¬ fatal_input psktx j).
Proof.
  intros Htx Hrun.
  set (st := {| node.psktx := psktx; node.in_amt := 0; node.calc_fee := true;
                node.analyses :=
                  replicate (length (CMutableTransaction.vin tx))
                            PSKTInputAnalysis.zero |}) in *.
  destruct (analyze_inputs_rows txdata psktx tx _ 0 st st' Htx Htx (λ _ _, eq_refl) Hrun)
    as (Hrows & Hcalc & Hamt).
  pose proof (analyze_inputs_not_fatal txdata psktx tx _ 0 st st' Htx Htx
                (λ _ _, eq_refl) Hrun) as Hnf.
  simpl in Hcalc. split_and!.
  - intros j input found utxo Hj. apply Hrows. lia.
  - rewrite Hcalc. split.
    + intros [_ Hall] j found utxo Hj. apply Hall. lia.
    + intros Hall. split; [done|]. intros j found utxo Hj. apply Hall. lia.
  - apply Hamt. by left.
  - intros j Hj. apply Hnf. lia.
Qed.

(** X16: the per-input rows of a valid analysis.  [has_utxo] is what
    [GetInputUTXO] answers for the input; [is_final] holds exactly when
    there is a UTXO and the input is signed.  Without a UTXO the next role
    is [UPDATER]; with a UTXO and signed it is [EXTRACTOR]; with a UTXO and
    unsigned it follows the dummy signing attempt: [FINALIZER] when that
    is complete, otherwise [SIGNER] or [UPDATER] by the missing report,
    which is then copied into the row. *)
Theorem AnalyzePSKT_input_rows (psktx : PartiallySignedTransaction.t)
  (result : PSKTAnalysis.t) (txdata : PrecomputedTransactionData.t)
  (i : nat) (input : PSKTInput.t) (found : bool) (utxo : CTxOut.t) :
  node.AnalyzePSKT psktx = Some result →
  PSKTAnalysis.error result = "" →
  PrecomputePSKTData psktx = Some txdata →
  PartiallySignedTransaction.inputs psktx !! i = Some input →
  PartiallySignedTransaction.GetInputUTXO psktx CTxOut.Null i = Some (found, utxo) →
  ∃ ia,
    PSKTAnalysis.inputs result !! i = Some ia ∧
    PSKTInputAnalysis.has_utxo ia = found ∧
    PSKTInputAnalysis.is_final ia = found && PSKTInputSigned input ∧
    (found = false → PSKTInputAnalysis.next ia = UPDATER) ∧
    (found = true → PSKTInputSigned input = true →
     PSKTInputAnalysis.next ia = EXTRACTOR) ∧
    (found = true → PSKTInputSigned input = false →
     ∀ complete psktx' outdata,
       SignPSKTInput DUMMY_SIGNING_PROVIDER psktx i (Some txdata) 1
         (Some SignatureData.default) SignPSKTInput_finalize_default
         = Some (complete, psktx', Some outdata) →
       PSKTInputAnalysis.next ia =
         (if complete then FINALIZER
          else if node.only_missing_sigs outdata then SIGNER else UPDATER) ∧
       (complete = false →
        PSKTInputAnalysis.missing_pubkeys ia = SignatureData.missing_pubkeys outdata ∧
        PSKTInputAnalysis.missing_sigs ia = SignatureData.missing_sigs outdata ∧
        PSKTInputAnalysis.missing_redeem_script ia =
          SignatureData.missing_redeem_script outdata ∧
        PSKTInputAnalysis.missing_witness_script ia =
          SignatureData.missing_witness_script outdata)).
Proof.
  intros Hres Herr Htd Hin Hget.
  destruct (PartiallySignedTransaction.tx psktx) as [tx|] eqn:Htx;
    [|by unfold node.AnalyzePSKT in Hres; rewrite Htx in Hres].
  assert (i < length (CMutableTransaction.vin tx))%nat as Hi.
  { unfold PartiallySignedTransaction.GetInputUTXO in Hget.
    rewrite Hin, Htx in Hget. simpl in Hget.
    destruct (CMutableTransaction.vin tx !! i) eqn:Hv; [|done].
    by eapply lookup_lt_Some. }
  destruct (AnalyzePSKT_inv psktx tx result Htx Hres) as (txdata' & r & Htd' & Hrun & Hr).
  rewrite Htd in Htd'. injection Htd' as <-.
  destruct r as [msg|st']; [by destruct Hr as [? _]|].
  simpl in Hr. destruct (node.calc_fee st' && negb _); [by destruct Hr as [? _]|].
  destruct Hr as (_ & Hins & _).
  destruct (analyze_from_start txdata psktx tx st' Htx Hrun) as (Hrows & _).
  destruct (Hrows i input found utxo) as (ia & Hia & Hrow); [lia|done|done|].
  exists ia. rewrite Hins. split; [done|].
  destruct Hrow as (Hu & Hf & Hn1 & Hn2 & Hn3). split_and!; try done.
  intros Hfound Hsigned complete psktx' outdata Hsign.
  rewrite SignPSKTInput_sign_input, Hin, Htx in Hsign. simpl in Hsign.
  destruct (sign_input _ _ _ _ _ _ _ _) as [[[c r] o]|] eqn:Hs; [simpl in Hsign|done].
  injection Hsign as -> _ ->. by eapply Hn3.
Qed.

(** X17: a valid analysis reports a fee exactly when [GetInputUTXO] succeeds
    for every input.  An input for which it fails pulls the next role of
    the whole PSKT down to [UPDATER] and leaves fee, size and fee rate
    unset. *)
Theorem AnalyzePSKT_fee_iff_all_utxos (psktx : PartiallySignedTransaction.t)
  (tx : CMutableTransaction.t) (result : PSKTAnalysis.t) :
  PartiallySignedTransaction.tx psktx = Some tx →
  node.AnalyzePSKT psktx = Some result →
  PSKTAnalysis.error result = "" →
  (is_Some (PSKTAnalysis.fee result) ↔
   ∀ j found utxo,
     (j < length (CMutableTransaction.vin tx))%nat →
     PartiallySignedTransaction.GetInputUTXO psktx CTxOut.Null j = Some (found, utxo) →
     found = true) ∧
  (∀ j utxo,
     PartiallySignedTransaction.GetInputUTXO psktx CTxOut.Null j = Some (false, utxo) →
     PSKTAnalysis.next result = UPDATER ∧
     PSKTAnalysis.fee result = None ∧
     PSKTAnalysis.estimated_vsize result = None ∧
     PSKTAnalysis.estimated_feerate result = None).
Proof.
  intros Htx Hres Herr.
  destruct (AnalyzePSKT_inv psktx tx result Htx Hres) as (txdata & r & Htd & Hrun & Hr).
  destruct r as [msg|st']; [by destruct Hr as [? _]|].
  simpl in Hr. destruct (node.calc_fee st' && negb _); [by destruct Hr as [? _]|].
  destruct Hr as (_ & Hins & Hnext & Hgt & Hfee & Hest & Hnofee).
  destruct (analyze_from_start txdata psktx tx st' Htx Hrun) as (Hrows & Hcalc & _).
  assert (is_Some (PSKTAnalysis.fee result) ↔ node.calc_fee st' = true) as Hfee'.
  { rewrite Hfee. destruct (node.calc_fee st'); split; try done;
      try (by eexists); by intros [? ?]. }
  split.
  - by rewrite Hfee', Hcalc.
  - intros j utxo Hget.
    assert (j < length (CMutableTransaction.vin tx))%nat as Hj.
    { unfold PartiallySignedTransaction.GetInputUTXO in Hget.
      destruct (PartiallySignedTransaction.inputs psktx !! j); [simpl in Hget|done].
      rewrite Htx in Hget. simpl in Hget.
      destruct (CMutableTransaction.vin tx !! j) eqn:Hv; [|done].
      by eapply lookup_lt_Some. }
    assert (PSKTAnalysis.fee result = None) as Hnone.
    { rewrite Hfee. destruct (node.calc_fee st') eqn:Ec; [|done].
      by specialize (proj1 Hcalc eq_refl j false utxo Hj Hget). }
    split_and!; [|done|by apply Hnofee|by apply Hest, Hnofee].
    assert (is_Some (PartiallySignedTransaction.inputs psktx !! j)) as [input Hin].
    { unfold PartiallySignedTransaction.GetInputUTXO in Hget.
      destruct (PartiallySignedTransaction.inputs psktx !! j); [by eexists|done]. }
    destruct (Hrows j input false utxo) as (ia & Hia & Hrow); [lia|done|done|].
    destruct Hrow as (_ & _ & Hn1 & _). specialize (Hn1 eq_refl).
    destruct (minimum_role_fold_le (node.analyses st') EXTRACTOR) as (_ & Hle & _).
    specialize (Hle ia (list_elem_of_lookup_2 _ _ _ Hia)).
    fold (node.minimum_role (node.analyses st')) in Hle.
    rewrite <- Hnext, Hn1 in Hle.
    unfold PSKTRole_ltb in Hgt. apply Z.ltb_lt in Hgt.
    by destruct (PSKTAnalysis.next result).
Qed.

(** X18: an input that spends an output of a value outside the money range or
    with an unspendable script, or whose non-witness UTXO has no output at
    [prevout.n], makes the whole analysis invalid: an error message, no
    rows, no fee, no estimates, next role [CREATOR]. *)
Theorem AnalyzePSKT_rejects_fatal_input (psktx : PartiallySignedTransaction.t)
  (i : nat) :
  well_formed psktx →
  fatal_input psktx i →
  ∃ result,
    node.AnalyzePSKT psktx = Some result ∧
    PSKTAnalysis.error result ≠ "" ∧
    PSKTAnalysis.fee result = None ∧
    PSKTAnalysis.estimated_vsize result = None ∧
    PSKTAnalysis.estimated_feerate result = None ∧
    PSKTAnalysis.inputs result = [] ∧
    PSKTAnalysis.next result = CREATOR.
Proof.
  intros Hwf Hfatal. destruct (AnalyzePSKT_total psktx Hwf) as [result Hres].
  destruct (well_formed_tx _ Hwf) as (tx & Htx & Hlen & _).
  exists result. split; [done|].
  destruct (AnalyzePSKT_inv psktx tx result Htx Hres) as (txdata & r & Htd & Hrun & Hr).
  destruct r as [msg|st']; [done|]. exfalso.
  assert (i < length (CMutableTransaction.vin tx))%nat as Hi.
  { destruct Hfatal as [(utxo & Hget & _)|(tx' & input & txin & prev & Htx' & _ & Hv & _)].
    - unfold PartiallySignedTransaction.GetInputUTXO in Hget.
      destruct (PartiallySignedTransaction.inputs psktx !! i); [simpl in Hget|done].
      rewrite Htx in Hget. simpl in Hget.
      destruct (CMutableTransaction.vin tx !! i) eqn:Hv; [|done].
      by eapply lookup_lt_Some.
    - rewrite Htx in Htx'. injection Htx' as <-. by eapply lookup_lt_Some. }
  destruct (analyze_from_start txdata psktx tx st' Htx Hrun) as (_ & _ & _ & Hnf).
  by apply (Hnf i).
Qed.

Section fee_bound.
Hypothesis MAX_MONEY_int64 : MAX_MONEY < 2^63.

(** X19: a reported fee never leaves the money range in either direction: it is
    the difference of two amounts in the range and cannot wrap around. *)
Theorem AnalyzePSKT_fee_bound (psktx : PartiallySignedTransaction.t)
  (result : PSKTAnalysis.t) (fee : CAmount) :
  node.AnalyzePSKT psktx = Some result →
  PSKTAnalysis.fee result = Some fee →
  - MAX_MONEY ≤ fee ≤ MAX_MONEY.
Proof.
  intros Hres Hfee.
  destruct (PartiallySignedTransaction.tx psktx) as [tx|] eqn:Htx;
    [|by unfold node.AnalyzePSKT in Hres; rewrite Htx in Hres].
  destruct (AnalyzePSKT_inv psktx tx result Htx Hres) as (txdata & r & Htd & Hrun & Hr).
  destruct r as [msg|st']; [destruct Hr as (_ & Hn & _); congruence|].
  simpl in Hr. destruct (node.calc_fee st' && negb _) eqn:Hinv;
    [destruct Hr as (_ & Hn & _); congruence|].
  destruct Hr as (_ & _ & _ & _ & Hfee' & _).
  rewrite Hfee in Hfee'. destruct (node.calc_fee st'); [|done].
  simpl in Hinv. apply negb_false_iff in Hinv.
  apply MoneyRange_bounds in Hinv.
  injection Hfee' as ->.
  destruct (analyze_from_start txdata psktx tx st' Htx Hrun) as (_ & _ & Hamt & _).
  destruct Hamt as [Hz|Hin%MoneyRange_bounds];
    unfold sub64; rewrite int64_wrap_small; lia.
Qed.
End fee_bound.
End analyze_results.

(** The theorems above at samples.  The input that holds a predecessor
    with a foreign hash has no UTXO: its row says [UPDATER] and no fee is
    reported.  The input that spends an [OP_RETURN] output makes the
    analysis invalid. *)
Lemma AnalyzePSKT_result_shape_witness :
  ∃ result,
    node.AnalyzePSKT (H := Sample.hasher) (H0 := Sample.key_hasher)
      (H1 := Sample.signer) (H2 := Sample.policy) Sample.unsigned_segwit = Some result ∧
    length (PSKTAnalysis.inputs result) = 1%nat ∧
    (PSKTAnalysis.estimated_vsize result = None ↔
     PSKTAnalysis.estimated_feerate result = None).
Proof.
  destruct (node.AnalyzePSKT (H := Sample.hasher) (H0 := Sample.key_hasher)
              (H1 := Sample.signer) (H2 := Sample.policy) Sample.unsigned_segwit)
    as [result|] eqn:Hres; [|vm_compute in Hres; discriminate].
  exists result. split; [reflexivity|].
  destruct (AnalyzePSKT_result_shape (H := Sample.hasher) (H0 := Sample.key_hasher)
              (H1 := Sample.signer) (H2 := Sample.policy) Sample.unsigned_segwit
              (Sample.mktx [Sample.txin 7 0 4294967295] [Sample.txout 50 [Byte.x51]])
              result eq_refl Hres) as [_ Hvalid].
  destruct Hvalid as (Hlen & _ & Hest & _).
  { vm_compute in Hres. by injection Hres as <-. }
  split; [exact Hlen|exact Hest].
Defined.

Lemma AnalyzePSKT_input_rows_witness :
  ∃ result ia,
    node.AnalyzePSKT (H := Sample.hasher) (H0 := Sample.key_hasher)
      (H1 := Sample.signer) (H2 := Sample.policy) Sample.spends_foreign = Some result ∧
    PSKTAnalysis.inputs result !! 0%nat = Some ia ∧
    PSKTInputAnalysis.has_utxo ia = false ∧
    PSKTInputAnalysis.is_final ia = false ∧
    PSKTInputAnalysis.next ia = UPDATER.
Proof.
  destruct (node.AnalyzePSKT (H := Sample.hasher) (H0 := Sample.key_hasher)
              (H1 := Sample.signer) (H2 := Sample.policy) Sample.spends_foreign)
    as [result|] eqn:Hres; [|vm_compute in Hres; discriminate].
  destruct (PrecomputePSKTData (H := Sample.hasher) Sample.spends_foreign)
    as [txdata|] eqn:Htd; [|vm_compute in Htd; discriminate].
  destruct (AnalyzePSKT_input_rows (H := Sample.hasher) (H0 := Sample.key_hasher)
              (H1 := Sample.signer) (H2 := Sample.policy) Sample.spends_foreign
              result txdata 0
              (Sample.record_with_predecessor Sample.foreign_predecessor
                 (Sample.txout 70 [Byte.x00]))
              false CTxOut.Null Hres)
    as (ia & Hia & Hu & Hf & Hnext & _); [|exact Htd|reflexivity|reflexivity|].
  { vm_compute in Hres. by injection Hres as <-. }
  exists result, ia. split; [reflexivity|]. split; [exact Hia|].
  split; [exact Hu|]. split; [exact Hf|]. exact (Hnext eq_refl).
Defined.

Lemma AnalyzePSKT_fee_iff_all_utxos_witness :
  ∃ result,
    node.AnalyzePSKT (H := Sample.hasher) (H0 := Sample.key_hasher)
      (H1 := Sample.signer) (H2 := Sample.policy) Sample.spends_foreign = Some result ∧
    PSKTAnalysis.next result = UPDATER ∧
    PSKTAnalysis.fee result = None.
Proof.
  destruct (node.AnalyzePSKT (H := Sample.hasher) (H0 := Sample.key_hasher)
              (H1 := Sample.signer) (H2 := Sample.policy) Sample.spends_foreign)
    as [result|] eqn:Hres; [|vm_compute in Hres; discriminate].
  destruct (AnalyzePSKT_fee_iff_all_utxos (H := Sample.hasher) (H0 := Sample.key_hasher)
              (H1 := Sample.signer) (H2 := Sample.policy) Sample.spends_foreign
              (Sample.mktx [Sample.txin 7 0 4294967295] [Sample.txout 50 [Byte.x51]])
              result eq_refl Hres) as [_ Hmissing].
  { vm_compute in Hres. by injection Hres as <-. }
  destruct (Hmissing 0%nat CTxOut.Null eq_refl) as (Hnext & Hfee & _).
  exists result. split; [reflexivity|]. split; [exact Hnext|exact Hfee].
Defined.

Lemma AnalyzePSKT_rejects_fatal_input_witness :
  ∃ result,
    node.AnalyzePSKT (H := Sample.hasher) (H0 := Sample.key_hasher)
      (H1 := Sample.signer) (H2 := Sample.policy) Sample.spends_op_return = Some result ∧
    PSKTAnalysis.error result ≠ "" ∧
    PSKTAnalysis.fee result = None ∧
    PSKTAnalysis.next result = CREATOR.
Proof.
  destruct (AnalyzePSKT_rejects_fatal_input (H := Sample.hasher) (H0 := Sample.key_hasher)
              (H1 := Sample.signer) (H2 := Sample.policy) Sample.spends_op_return 0
              (conj eq_refl eq_refl))
    as (result & Hres & Herr & Hfee & _ & _ & _ & Hnext).
  { left. exists (Sample.txout 90 [Byte.x6a]). split; [reflexivity|]. by right. }
  exists result. split; [exact Hres|]. split; [exact Herr|]. split; [exact Hfee|exact Hnext].
Defined.

Lemma AnalyzePSKT_fee_bound_witness :
  ∃ result,
    node.AnalyzePSKT (H := Sample.hasher) (H0 := Sample.key_hasher)
      (H1 := Sample.signer) (H2 := Sample.policy) Sample.unsigned_segwit = Some result ∧
    PSKTAnalysis.fee result = Some 40 ∧
    - 2100000000000000 ≤ 40 ≤ 2100000000000000.
Proof.
  destruct (node.AnalyzePSKT (H := Sample.hasher) (H0 := Sample.key_hasher)
              (H1 := Sample.signer) (H2 := Sample.policy) Sample.unsigned_segwit)
    as [result|] eqn:Hres; [|vm_compute in Hres; discriminate].
  assert (PSKTAnalysis.fee result = Some 40) as Hfee.
  { vm_compute in Hres. by injection Hres as <-. }
  exists result. split; [reflexivity|]. split; [exact Hfee|].
  exact (AnalyzePSKT_fee_bound (H := Sample.hasher) (H0 := Sample.key_hasher)
           (H1 := Sample.signer) (H2 := Sample.policy) eq_refl Sample.unsigned_segwit
           result 40 Hres Hfee).
Defined.

(* --------------------------------------------------------------------- *)
(** ** createpskt and converttopskt *)
(* --------------------------------------------------------------------- *)

Lemma push_inputs_fold (d : PSKTInput.t) (l : list nat) :
  ∀ p : PartiallySignedTransaction.t,
  fold_left (λ p _, push_input d p) l p =
  {| PartiallySignedTransaction.inputs :=
       PartiallySignedTransaction.inputs p ++ replicate (length l) d;
     PartiallySignedTransaction.tx := PartiallySignedTransaction.tx p;
     PartiallySignedTransaction.outputs := PartiallySignedTransaction.outputs p;
     PartiallySignedTransaction.m_xpubs := PartiallySignedTransaction.m_xpubs p;
     PartiallySignedTransaction.unknown := PartiallySignedTransaction.unknown p;
     PartiallySignedTransaction.m_version := PartiallySignedTransaction.m_version p;
     PartiallySignedTransaction.m_proprietary :=
       PartiallySignedTransaction.m_proprietary p |}.
Proof.
  induction l as [|i l IH]; intros p; simpl.
  - rewrite app_nil_r. by destruct p.
  - rewrite IH. simpl. by rewrite <- app_assoc.
Qed.

Lemma push_outputs_fold (d : PSKTOutput.t) (l : list nat) :
  ∀ p : PartiallySignedTransaction.t,
  fold_left (λ p _, push_output d p) l p =
  {| PartiallySignedTransaction.outputs :=
       PartiallySignedTransaction.outputs p ++ replicate (length l) d;
     PartiallySignedTransaction.tx := PartiallySignedTransaction.tx p;
     PartiallySignedTransaction.inputs := PartiallySignedTransaction.inputs p;
     PartiallySignedTransaction.m_xpubs := PartiallySignedTransaction.m_xpubs p;
     PartiallySignedTransaction.unknown := PartiallySignedTransaction.unknown p;
     PartiallySignedTransaction.m_version := PartiallySignedTransaction.m_version p;
     PartiallySignedTransaction.m_proprietary :=
       PartiallySignedTransaction.m_proprietary p |}.
Proof.
  induction l as [|i l IH]; intros p; simpl.
  - rewrite app_nil_r. by destruct p.
  - rewrite IH. simpl. by rewrite <- app_assoc.
Qed.

(** X20: the blank PSKT that [createpskt] and [converttopskt] assemble with
    [push_back] is the PSKT the constructor makes from the transaction. *)
Theorem blank_pskt_from_tx (tx : CMutableTransaction.t) :
  blank_pskt tx = PartiallySignedTransaction.from_tx tx.
Proof.
  unfold blank_pskt. rewrite push_inputs_fold, push_outputs_fold. simpl.
  by rewrite !length_seq.
Qed.

Lemma clear_sigdata_empty (input : CTxIn.t) :
  is_empty (CTxIn.scriptSig input) = true →
  CScriptWitness.IsNull (CTxIn.scriptWitness input) = true →
  clear_sigdata input = input.
Proof.
  destruct input as [prevout sig seq [stack]]. unfold clear_sigdata. simpl.
  unfold CScriptWitness.IsNull. simpl.
  intros ->%is_empty_nil ->%is_empty_nil. done.
Qed.

Lemma converttopskt_strip_spec (permitsigdata : bool) (vin : list CTxIn.t) :
  match converttopskt_strip permitsigdata vin with
  | RPCValue vin' =>
      vin' = clear_sigdata <$> vin ∧
      (permitsigdata = false → vin' = vin)
  | JSONRPCError code message =>
      code = RPC_DESERIALIZATION_ERROR ∧
      permitsigdata = false ∧
      ∃ input, input ∈ vin ∧
               (is_empty (CTxIn.scriptSig input) = false ∨
                CScriptWitness.IsNull (CTxIn.scriptWitness input) = false)
  end.
Proof.
  induction vin as [|input rest IH]; simpl; [done|].
  destruct (is_empty (CTxIn.scriptSig input)) eqn:Es,
    (CScriptWitness.IsNull (CTxIn.scriptWitness input)) eqn:Ew,
    permitsigdata; simpl;
    try (split; [done|]; split; [done|]; exists input; split; [left|]; by eauto);
    destruct (converttopskt_strip _ rest) as [rest'|code message]; simpl in *;
    try (destruct IH as [-> Hsame]; split; [done|]; intros Hp; try done;
         by rewrite Hsame, clear_sigdata_empty);
    destruct IH as (-> & Hp & input' & Hin & Hbad); try done;
    (split; [done|]; split; [done|]; exists input'; split; [by right|done]).
Qed.

(** X21: [converttopskt] throws exactly when [permitsigdata] is off and some
    input carries a scriptSig or a witness.  Otherwise it yields the
    constructor's PSKT over the transaction with every input's scriptSig
    and witness cleared; without [permitsigdata] that is the transaction
    as given. *)
Theorem converttopskt_strips_signatures (tx : CMutableTransaction.t)
  (permitsigdata : bool) :
  match converttopskt tx permitsigdata with
  | RPCValue psktx =>
      psktx =
        PartiallySignedTransaction.from_tx
          {| CMutableTransaction.vin := clear_sigdata <$> CMutableTransaction.vin tx;
             CMutableTransaction.vout := CMutableTransaction.vout tx;
             CMutableTransaction.nVersion := CMutableTransaction.nVersion tx;
             CMutableTransaction.nLockTime := CMutableTransaction.nLockTime tx |} ∧
      (permitsigdata = false → psktx = PartiallySignedTransaction.from_tx tx) ∧
      (permitsigdata = true ∨
       Forall (λ input, is_empty (CTxIn.scriptSig input) = true ∧
                        CScriptWitness.IsNull (CTxIn.scriptWitness input) = true)
              (CMutableTransaction.vin tx))
  | JSONRPCError code message =>
      code = RPC_DESERIALIZATION_ERROR ∧
      permitsigdata = false ∧
      ∃ input, input ∈ CMutableTransaction.vin tx ∧
               (is_empty (CTxIn.scriptSig input) = false ∨
                CScriptWitness.IsNull (CTxIn.scriptWitness input) = false)
  end.
Proof.
  unfold converttopskt.
  pose proof (converttopskt_strip_spec permitsigdata (CMutableTransaction.vin tx)) as Hs.
  destruct (converttopskt_strip _ _) as [vin'|code message]; [|done].
  destruct Hs as [-> Hsame].
  assert (∀ t, blank_pskt t = PartiallySignedTransaction.from_tx t) as ->.
  { intros t. unfold blank_pskt. rewrite push_inputs_fold, push_outputs_fold. simpl.
    by rewrite !length_seq. }
  split; [done|]. split.
  - intros Hp. rewrite (Hsame Hp). by destruct tx.
  - destruct permitsigdata; [by left|right].
    specialize (Hsame eq_refl). apply Forall_lookup. intros i input Hi.
    assert (clear_sigdata input = input) as Hc.
    { apply (f_equal (λ l, l !! i)) in Hsame.
      rewrite list_lookup_fmap, Hi in Hsame. simpl in Hsame. congruence. }
    rewrite <- Hc. done.
Qed.

(* --------------------------------------------------------------------- *)
(** ** decodepskt: the fee *)
(* --------------------------------------------------------------------- *)

Section decode.
Context `{TxHasher, KeyHasher, ScriptSigner, Policy}.

Lemma decodepskt_input_found (psktx : PartiallySignedTransaction.t) (i : nat)
  (utxo : CTxOut.t) (total_in : CAmount) (have_all_utxos : bool) :
  PartiallySignedTransaction.GetInputUTXO psktx CTxOut.Null i = Some (true, utxo) →
  MoneyRange (CTxOut.nValue utxo) = true →
  MoneyRange (add64 total_in (CTxOut.nValue utxo)) = true →
  decodepskt_input psktx i (total_in, have_all_utxos) =
    Some (add64 total_in (CTxOut.nValue utxo), have_all_utxos).
Proof.
  unfold PartiallySignedTransaction.GetInputUTXO, decodepskt_input.
  destruct (PartiallySignedTransaction.inputs psktx !! i) as [input|]; [simpl|done].
  destruct (PartiallySignedTransaction.tx psktx) as [tx|]; [simpl|done].
  destruct (CMutableTransaction.vin tx !! i) as [txin|]; [simpl|done].
  destruct (PSKTInput.non_witness_utxo input) as [prev|].
  - destruct (negb (CTxOut.IsNull (PSKTInput.witness_utxo input)));
      (destruct (_ <=? _)%N; [done|]); (case_bool_decide; [done|]);
      (destruct (CMutableTransaction.vout prev !! _) as [out|]; [simpl|done]);
      intros [= ->] -> ->; done.
  - destruct (negb (CTxOut.IsNull (PSKTInput.witness_utxo input))); [simpl|done].
    intros [= ->] -> ->. done.
Qed.

Lemma analyze_inputs_decode (txdata : PrecomputedTransactionData.t)
  (psktx0 : PartiallySignedTransaction.t) (tx : CMutableTransaction.t) (m : nat) :
  ∀ (k : nat) (st st' : node.loop_state) (have_all_utxos : bool),
  PartiallySignedTransaction.tx psktx0 = Some tx →
  PartiallySignedTransaction.tx (node.psktx st) = Some tx →
  (∀ j, (k ≤ j)%nat →
        PartiallySignedTransaction.inputs (node.psktx st) !! j =
        PartiallySignedTransaction.inputs psktx0 !! j) →
  node.analyze_inputs txdata (seq k m) st = Some (inr st') →
  node.calc_fee st' = true →
  loop_over (decodepskt_input psktx0) (seq k m) (node.in_amt st, have_all_utxos) =
    Some (node.in_amt st', have_all_utxos).
Proof.
  induction m as [|m IH]; intros k st st' b Htx0 Htx Hframe Hrun Hfee.
  - simpl in *. by injection Hrun as <-.
  - simpl in Hrun. cbn [seq loop_over].
    destruct (node.analyze_input txdata k st) as [[msg|st1]|] eqn:Hstep; simpl in Hrun;
      [done| |done].
    rename Hrun into Hrest.
    destruct (analyze_input_Some_lookups _ _ _ _ Hstep) as [[input Hin] [ia0 Hia0]].
    destruct (analyze_input_inr txdata k st st1 tx input Htx Hin Hstep)
      as (input' & ia' & Hp & _).
    assert (is_Some (PartiallySignedTransaction.GetInputUTXO (node.psktx st)
                       CTxOut.Null k)) as [[found utxo] Hget].
    { unfold node.analyze_input in Hstep. rewrite Hin, Hia0, Htx in Hstep.
      simpl in Hstep.
      destruct (CMutableTransaction.vin tx !! k); [simpl in Hstep|done].
      destruct (PartiallySignedTransaction.GetInputUTXO _ _ _); [by eexists|done]. }
    destruct (analyze_input_row txdata k st st1 tx input found utxo Htx Hin Hget Hstep)
      as (ia & Ha & Hrow & Hcalc & Hfound & Hnot).
    assert (∀ j, (S k ≤ j)%nat →
                 PartiallySignedTransaction.inputs (node.psktx st1) !! j =
                 PartiallySignedTransaction.inputs psktx0 !! j) as Hframe1.
    { intros j Hj. rewrite Hp. simpl.
      rewrite list_lookup_insert_ne by lia. apply Hframe. lia. }
    assert (PartiallySignedTransaction.tx (node.psktx st1) = Some tx) as Htx1
      by (by rewrite Hp).
    destruct (analyze_inputs_rows txdata psktx0 tx m (S k) st1 st' Htx0 Htx1 Hframe1 Hrest)
      as (_ & Hfee1 & _).
    apply Hfee1 in Hfee as Hfee'. destruct Hfee' as [Hc1 _].
    rewrite Hcalc in Hc1. apply andb_true_iff in Hc1 as [_ ->].
    destruct (Hfound eq_refl) as [Hsum Hamt].
    assert (MoneyRange (CTxOut.nValue utxo) = true) as Hvalue.
    { destruct (MoneyRange (CTxOut.nValue utxo)) eqn:E; [done|].
      exfalso. apply (analyze_input_not_fatal _ _ _ _ Hstep).
      left. exists utxo. split; [done|by left]. }
    assert (PartiallySignedTransaction.GetInputUTXO psktx0 CTxOut.Null k
              = Some (true, utxo)) as Hget0.
    { rewrite <- Hget. apply GetInputUTXO_local; [congruence|].
      symmetry. apply Hframe. lia. }
    rewrite (decodepskt_input_found psktx0 k utxo _ b Hget0 Hvalue Hsum).
    cbn [mbind option_bind]. rewrite <- Hamt. by apply IH.
Qed.

Lemma output_amount_stuck (vout : list CTxOut.t) :
  fold_left (λ a b,
               if negb (MoneyRange a) || negb (MoneyRange (CTxOut.nValue b)) ||
                  negb (MoneyRange (add64 a (CTxOut.nValue b)))
               then -1
               else add64 a (CTxOut.nValue b))
            vout (-1) = -1.
Proof. induction vout as [|o vout IH]; simpl; [done|]. exact IH. Qed.

Lemma decodepskt_outputs_amount (psktx : PartiallySignedTransaction.t)
  (tx : CMutableTransaction.t) (rest : list CTxOut.t) :
  ∀ (k : nat) (a : CAmount) (have_all_utxos : bool),
  PartiallySignedTransaction.tx psktx = Some tx →
  drop k (CMutableTransaction.vout tx) = rest →
  MoneyRange a = true →
  MoneyRange
    (fold_left (λ a b,
                  if negb (MoneyRange a) || negb (MoneyRange (CTxOut.nValue b)) ||
                     negb (MoneyRange (add64 a (CTxOut.nValue b)))
                  then -1
                  else add64 a (CTxOut.nValue b))
               rest a) = true →
  loop_over (decodepskt_output psktx) (seq k (length rest)) (a, have_all_utxos) =
    Some (fold_left (λ a b,
                       if negb (MoneyRange a) || negb (MoneyRange (CTxOut.nValue b)) ||
                          negb (MoneyRange (add64 a (CTxOut.nValue b)))
                       then -1
                       else add64 a (CTxOut.nValue b))
                    rest a, have_all_utxos).
Proof.
  induction rest as [|o rest IH]; intros k a b Htx Hdrop Ha Hfinal; [done|].
  cbn [length seq loop_over fold_left] in Hfinal |- *.
  assert (CMutableTransaction.vout tx !! k = Some o) as Hk.
  { rewrite <- (Nat.add_0_r k), <- lookup_drop, Hdrop. done. }
  assert (drop (S k) (CMutableTransaction.vout tx) = rest) as Hdrop'.
  { replace (S k) with (k + 1)%nat by lia. by rewrite <- drop_drop, Hdrop. }
  assert (MoneyRange (CTxOut.nValue o) = true ∧
          MoneyRange (add64 a (CTxOut.nValue o)) = true) as [Ho Hs].
  { rewrite Ha in Hfinal. simpl in Hfinal.
    destruct (MoneyRange (CTxOut.nValue o)); simpl in Hfinal;
      [|by rewrite output_amount_stuck in Hfinal].
    destruct (MoneyRange (add64 a (CTxOut.nValue o))); simpl in Hfinal;
      [done|by rewrite output_amount_stuck in Hfinal]. }
  rewrite Ha, Ho, Hs in Hfinal |- *. simpl negb in Hfinal |- *.
  simpl orb in Hfinal |- *. cbv iota in Hfinal |- *.
  assert (decodepskt_output psktx k (a, b) = Some (add64 a (CTxOut.nValue o), b)) as ->.
  { unfold decodepskt_output. rewrite Htx. simpl. rewrite Hk. simpl. by rewrite Ho, Hs. }
  cbn [mbind option_bind]. by apply IH.
Qed.

(** X22: [decodepskt] and [AnalyzePSKT] agree on the fee: whenever the analysis
    of a well-formed PSKT reports a fee, [decodepskt] pushes a ["fee"]
    entry with the same amount. *)
Theorem decodepskt_fee_agrees (psktx : PartiallySignedTransaction.t)
  (result : PSKTAnalysis.t) (fee : CAmount) :
  well_formed psktx →
  node.AnalyzePSKT psktx = Some result →
  PSKTAnalysis.fee result = Some fee →
  decodepskt_fee psktx = Some (Some fee).
Proof.
  intros Hwf Hres Hfee. destruct (well_formed_tx _ Hwf) as (tx & Htx & Hlen & Hlen').
  destruct (AnalyzePSKT_inv psktx tx result Htx Hres) as (txdata & r & Htd & Hrun & Hr).
  destruct r as [msg|st']; [destruct Hr as (_ & Hn & _); congruence|].
  simpl in Hr. destruct (node.calc_fee st' && negb _) eqn:Hinv;
    [destruct Hr as (_ & Hn & _); congruence|].
  destruct Hr as (_ & _ & _ & _ & Hfee' & _).
  rewrite Hfee in Hfee'. destruct (node.calc_fee st') eqn:Hcalc; [|done].
  simpl in Hinv. apply negb_false_iff in Hinv.
  injection Hfee' as ->.
  unfold decodepskt_fee. rewrite Htx. simpl. rewrite Hlen.
  set (st := {| node.psktx := psktx; node.in_amt := 0; node.calc_fee := true;
                node.analyses :=
                  replicate (length (CMutableTransaction.vin tx))
                            PSKTInputAnalysis.zero |}) in *.
  pose proof (analyze_inputs_decode txdata psktx tx _ 0 st st' true Htx Htx
                (λ _ _, eq_refl) Hrun Hcalc) as Hdec.
  change (node.in_amt st) with 0 in Hdec. rewrite Hdec.
  cbn [mbind option_bind]. rewrite Hlen'.
  assert (MoneyRange 0 = true) as Hzero.
  { unfold MoneyRange in Hinv |- *. simpl.
    apply andb_true_iff in Hinv as [Hlo%Z.leb_le Hhi%Z.leb_le].
    apply Z.leb_le. lia. }
  unfold node.output_amount in Hinv |- *.
  pose proof (decodepskt_outputs_amount psktx tx (CMutableTransaction.vout tx) 0 0 true
                Htx eq_refl Hzero Hinv) as Hout.
  rewrite Hout. done.
Qed.
End decode.

Lemma decodepskt_fee_agrees_witness :
  ∃ result,
    node.AnalyzePSKT (H := Sample.hasher) (H0 := Sample.key_hasher)
      (H1 := Sample.signer) (H2 := Sample.policy) Sample.unsigned_segwit = Some result ∧
    PSKTAnalysis.fee result = Some 40 ∧
    decodepskt_fee (H := Sample.policy) Sample.unsigned_segwit = Some (Some 40).
Proof.
  destruct (node.AnalyzePSKT (H := Sample.hasher) (H0 := Sample.key_hasher)
              (H1 := Sample.signer) (H2 := Sample.policy) Sample.unsigned_segwit)
    as [result|] eqn:Hres; [|vm_compute in Hres; discriminate].
  assert (PSKTAnalysis.fee result = Some 40) as Hfee.
  { vm_compute in Hres. by injection Hres as <-. }
  exists result. split; [reflexivity|]. split; [exact Hfee|].
  exact (decodepskt_fee_agrees (H := Sample.hasher) (H0 := Sample.key_hasher)
           (H1 := Sample.signer) (H2 := Sample.policy) Sample.unsigned_segwit
           result 40 (conj eq_refl eq_refl) Hres Hfee).
Defined.

Lemma loop_over_is_Some {A} (step : nat → A → option A) (P : nat → Prop)
  (indices : list nat) :
  (∀ i acc, i ∈ indices → is_Some (step i acc) ↔ P i) →
  ∀ acc, is_Some (loop_over step indices acc) ↔ ∀ i, i ∈ indices → P i.
Proof.
  induction indices as [|i rest IH]; intros Hstep acc; simpl.
  - split; [|by eexists]. intros _ i Hi. by apply elem_of_nil in Hi.
  - assert (∀ i acc, i ∈ rest → is_Some (step i acc) ↔ P i) as Hrest.
    { intros j acc' Hj. apply Hstep. by right. }
    pose proof (Hstep i acc (list_elem_of_here _ _)) as Hhere.
    split.
    + intros Hloop j Hj.
      destruct (step i acc) as [acc'|] eqn:Hs; [simpl in Hloop|by destruct Hloop].
      apply elem_of_cons in Hj as [->|Hj].
      * apply Hhere. by eexists.
      * by apply (IH Hrest acc').
    + intros Hall.
      destruct (proj2 Hhere (Hall i (list_elem_of_here _ _))) as [acc' Hs].
      rewrite Hs. simpl. apply (IH Hrest). intros j Hj. apply Hall. by right.
Qed.

Section decode_defined.
Context `{Policy}.

Lemma decodepskt_input_is_Some (psktx : PartiallySignedTransaction.t)
  (tx : CMutableTransaction.t) (i : nat) (acc : CAmount * bool) :
  PartiallySignedTransaction.tx psktx = Some tx →
  length (PartiallySignedTransaction.inputs psktx) = length (CMutableTransaction.vin tx) →
  (i < length (CMutableTransaction.vin tx))%nat →
  is_Some (decodepskt_input psktx i acc) ↔ prevout_in_range psktx i.
Proof.
  intros Htx Hlen Hi.
  destruct (well_formed_lookup psktx tx i Htx Hlen Hi) as [[input Hin] [txin Hvin]].
  unfold decodepskt_input, prevout_in_range. destruct acc as [total_in have].
  rewrite Hin, Htx. simpl. rewrite Hvin. simpl.
  set (start := if negb (CTxOut.IsNull (PSKTInput.witness_utxo input))
                then (PSKTInput.witness_utxo input, true) else (CTxOut.Null, false)).
  destruct start as [txout0 have0].
  destruct (PSKTInput.non_witness_utxo input) as [prev|] eqn:Hprev; simpl.
  - destruct (CMutableTransaction.vout prev !! _) as [out|] eqn:Hout; simpl.
    + split.
      * intros _ tx' input' txin' prev' [= <-] [= <-] Hv Hp.
        rewrite Hvin in Hv. injection Hv as <-.
        rewrite Hprev in Hp. injection Hp as <-.
        apply lookup_lt_Some in Hout. lia.
      * intros _. repeat case_match; by eexists.
    + split; [by intros [? ?]|]. intros Hr.
      specialize (Hr tx input txin prev eq_refl eq_refl Hvin Hprev).
      apply lookup_ge_None in Hout. lia.
  - split.
    + intros _ tx' input' txin' prev' [= <-] [= <-] _ Hp. by rewrite Hprev in Hp.
    + intros _. repeat case_match; by eexists.
Qed.

Lemma decodepskt_output_is_Some (psktx : PartiallySignedTransaction.t)
  (tx : CMutableTransaction.t) (i : nat) (acc : CAmount * bool) :
  PartiallySignedTransaction.tx psktx = Some tx →
  (i < length (CMutableTransaction.vout tx))%nat →
  is_Some (decodepskt_output psktx i acc).
Proof.
  intros Htx Hi. unfold decodepskt_output. destruct acc as [output_value have].
  rewrite Htx. simpl.
  destruct (lookup_lt_is_Some_2 (CMutableTransaction.vout tx) i Hi) as [txout ->].
  simpl. case_match; by eexists.
Qed.

(** X23: on a well-formed PSKT the fee computation of [decodepskt] stays inside
    its vectors exactly when every predecessor transaction held by an
    input has an output at that input's [prevout.n]; the unguarded
    [non_witness_utxo->vout[prevout.n]] is its only access that can leave
    them. *)
Theorem decodepskt_fee_defined (psktx : PartiallySignedTransaction.t) :
  well_formed psktx →
  is_Some (decodepskt_fee psktx) ↔
  ∀ i, (i < length (PartiallySignedTransaction.inputs psktx))%nat →
       prevout_in_range psktx i.
Proof.
  intros Hwf. destruct (well_formed_tx _ Hwf) as (tx & Htx & Hlen & Hlen').
  unfold decodepskt_fee. rewrite Htx. simpl.
  pose proof (loop_over_is_Some (decodepskt_input psktx) (prevout_in_range psktx)
                (seq 0 (length (PartiallySignedTransaction.inputs psktx)))) as Hloop.
  assert (∀ i acc, i ∈ seq 0 (length (PartiallySignedTransaction.inputs psktx)) →
                   is_Some (decodepskt_input psktx i acc) ↔ prevout_in_range psktx i)
    as Hstep.
  { intros i acc Hi%elem_of_seq. apply (decodepskt_input_is_Some psktx tx); [done..|lia]. }
  specialize (Hloop Hstep (0, true)).
  assert ((∀ i, i ∈ seq 0 (length (PartiallySignedTransaction.inputs psktx)) →
                prevout_in_range psktx i) ↔
          (∀ i, (i < length (PartiallySignedTransaction.inputs psktx))%nat →
                prevout_in_range psktx i)) as Hrange.
  { split; intros Hall i Hi; apply Hall; [apply elem_of_seq; lia|].
    apply elem_of_seq in Hi. lia. }
  rewrite <- Hrange, <- Hloop.
  destruct (loop_over (decodepskt_input psktx) _ _) as [[total_in have]|];
    [simpl|split; by intros [? ?]].
  split; [by eexists|]. intros _.
  assert (∀ acc, is_Some (loop_over (decodepskt_output psktx)
                            (seq 0 (length (PartiallySignedTransaction.outputs psktx)))
                            acc)) as Hout.
  { intros acc.
    apply (loop_over_is_Some (decodepskt_output psktx) (λ _, True)); [|done].
    intros i acc' Hi%elem_of_seq. split; [done|]. intros _.
    apply (decodepskt_output_is_Some psktx tx); [done|lia]. }
  destruct (Hout (0, have)) as [[output_value have'] ->]. by eexists.
Qed.
End decode_defined.

Lemma decodepskt_fee_defined_witness :
  is_Some (decodepskt_fee (H := Sample.policy) Sample.spends_foreign) ↔
  ∀ i, (i < length (PartiallySignedTransaction.inputs Sample.spends_foreign))%nat →
       prevout_in_range Sample.spends_foreign i.
Proof.
  exact (decodepskt_fee_defined (H := Sample.policy) Sample.spends_foreign
           (conj eq_refl eq_refl)).
Defined.

(* --------------------------------------------------------------------- *)
(** ** joinpskts *)
(* --------------------------------------------------------------------- *)

Lemma existsb_CTxIn_key (seen : list CTxIn.t) (txin : CTxIn.t) :
  existsb (λ old, CTxIn.eqb old txin) seen = true ↔
  CTxIn_key txin ∈ CTxIn_key <$> seen.
Proof.
  rewrite existsb_exists, list_elem_of_fmap. unfold CTxIn_key.
  split; intros (old & H1 & H2).
  - exists old. apply CTxIn_eqb_spec in H2 as (-> & -> & ->).
    split; [done|]. by apply list_elem_of_In.
  - exists old. split; [by apply list_elem_of_In|].
    apply CTxIn_eqb_spec. by simplify_eq.
Qed.

Lemma first_repeated_None (vin seen : list CTxIn.t) :
  first_repeated seen vin = None ↔
  NoDup (CTxIn_key <$> vin) ∧ ∀ txin, txin ∈ vin → CTxIn_key txin ∉ CTxIn_key <$> seen.
Proof.
  revert seen. induction vin as [|txin rest IH]; intros seen; simpl.
  - split; [|done]. intros _. split; [constructor|]. intros ? []%elem_of_nil.
  - destruct (existsb _ seen) eqn:E.
    + split; [done|]. intros [_ Hnot]. exfalso.
      apply (Hnot txin); [left|]. by apply existsb_CTxIn_key.
    + assert (CTxIn_key txin ∉ CTxIn_key <$> seen) as Hfresh.
      { intros Hin%existsb_CTxIn_key. congruence. }
      rewrite IH, NoDup_cons, fmap_app. simpl. split.
      * intros [Hnd Hnot]. split_and!; [|done|].
        -- intros (old & Heq & Hold)%list_elem_of_fmap.
           apply (Hnot old Hold). rewrite elem_of_app, <- Heq. right. left.
        -- intros x [->|Hx]%elem_of_cons; [done|].
           intros Hin. apply (Hnot x Hx). rewrite elem_of_app. by left.
      * intros [[Hhead Hnd] Hnot]. split; [done|]. intros x Hx.
        rewrite elem_of_app, list_elem_of_singleton. intros [Hin|Heq].
        -- apply (Hnot x); [by right|done].
        -- apply Hhead. rewrite <- Heq. apply list_elem_of_fmap. by exists x.
Qed.

Lemma first_repeated_Some (vin seen : list CTxIn.t) (txin : CTxIn.t) :
  first_repeated seen vin = Some txin →
  ∃ before after,
    vin = before ++ txin :: after ∧
    first_repeated seen before = None ∧
    CTxIn_key txin ∈ CTxIn_key <$> (seen ++ before).
Proof.
  revert seen. induction vin as [|x rest IH]; intros seen; simpl; [done|].
  destruct (existsb _ seen) eqn:E.
  - intros [= ->]. exists [], rest. split_and!; [done..|].
    rewrite app_nil_r. by apply existsb_CTxIn_key.
  - intros (before & after & -> & Hnone & Hin)%IH.
    exists (x :: before), after. split_and!; [done| |].
    + simpl. by rewrite E.
    + by rewrite <- app_assoc in Hin.
Qed.

Lemma first_repeated_app (seen a b : list CTxIn.t) :
  first_repeated seen (a ++ b) =
  match first_repeated seen a with
  | Some txin => Some txin
  | None => first_repeated (seen ++ a) b
  end.
Proof.
  revert seen. induction a as [|x a IH]; intros seen; simpl.
  - by rewrite app_nil_r.
  - destruct (existsb _ seen); [done|]. by rewrite IH, <- app_assoc.
Qed.

Lemma add_inputs_nil (p : PartiallySignedTransaction.t) : add_inputs p [] = p.
Proof.
  destruct p as [[[]|] ? ? ? ? ? ?]; unfold add_inputs; simpl;
    by rewrite !app_nil_r.
Qed.

Lemma add_inputs_app (p : PartiallySignedTransaction.t)
  (a b : list (CTxIn.t * PSKTInput.t)) :
  add_inputs (add_inputs p a) b = add_inputs p (a ++ b).
Proof.
  destruct p as [[[]|] ? ? ? ? ? ?]; unfold add_inputs; simpl;
    by rewrite !fmap_app, !app_assoc.
Qed.

Lemma add_outputs_nil (p : PartiallySignedTransaction.t) : add_outputs p [] = p.
Proof.
  destruct p as [[[]|] ? ? ? ? ? ?]; unfold add_outputs; simpl;
    by rewrite !app_nil_r.
Qed.

Lemma add_outputs_app (p : PartiallySignedTransaction.t)
  (a b : list (CTxOut.t * PSKTOutput.t)) :
  add_outputs (add_outputs p a) b = add_outputs p (a ++ b).
Proof.
  destruct p as [[[]|] ? ? ? ? ? ?]; unfold add_outputs; simpl;
    by rewrite !fmap_app, !app_assoc.
Qed.

Lemma AddInput_add_inputs (this : PartiallySignedTransaction.t)
  (tx : CMutableTransaction.t) (txin : CTxIn.t) (psktin : PSKTInput.t) :
  PartiallySignedTransaction.tx this = Some tx →
  PartiallySignedTransaction.AddInput this txin psktin =
    Some (if existsb (λ old, CTxIn.eqb old txin) (CMutableTransaction.vin tx)
          then (false, this, psktin)
          else (true, add_inputs this [(txin, psktin)],
                PSKTInput.clear_signatures psktin)).
Proof.
  intros Htx. unfold PartiallySignedTransaction.AddInput, add_inputs.
  rewrite Htx. simpl. by destruct (existsb _ _).
Qed.

Lemma AddOutput_add_outputs (this : PartiallySignedTransaction.t)
  (txout : CTxOut.t) (psktout : PSKTOutput.t) :
  is_Some (PartiallySignedTransaction.tx this) →
  PartiallySignedTransaction.AddOutput this txout psktout =
    Some (true, add_outputs this [(txout, psktout)]).
Proof.
  intros [tx Htx]. unfold PartiallySignedTransaction.AddOutput, add_outputs.
  by rewrite Htx.
Qed.

Lemma input_pairs_lookup (p : PartiallySignedTransaction.t)
  (tx : CMutableTransaction.t) (i : nat) (txin : CTxIn.t) (psktin : PSKTInput.t) :
  PartiallySignedTransaction.tx p = Some tx →
  input_pairs p !! i = Some (txin, psktin) ↔
  CMutableTransaction.vin tx !! i = Some txin ∧
  PartiallySignedTransaction.inputs p !! i = Some psktin.
Proof.
  intros Htx. unfold input_pairs. rewrite Htx. cbn beta iota.
  rewrite lookup_zip_with_Some. split.
  - by intros (x & y & [= -> ->] & ? & ?).
  - intros [? ?]. by exists txin, psktin.
Qed.

Lemma output_pairs_lookup (p : PartiallySignedTransaction.t)
  (tx : CMutableTransaction.t) (i : nat) (txout : CTxOut.t) (psktout : PSKTOutput.t) :
  PartiallySignedTransaction.tx p = Some tx →
  output_pairs p !! i = Some (txout, psktout) ↔
  CMutableTransaction.vout tx !! i = Some txout ∧
  PartiallySignedTransaction.outputs p !! i = Some psktout.
Proof.
  intros Htx. unfold output_pairs. rewrite Htx. cbn beta iota.
  rewrite lookup_zip_with_Some. split.
  - by intros (x & y & [= -> ->] & ? & ?).
  - intros [? ?]. by exists txout, psktout.
Qed.

Lemma loop_join_input_exists (pskt : PartiallySignedTransaction.t)
  (outpoint : COutPoint.t) (indices : list nat) :
  loop_over (join_input pskt) indices (InputExists outpoint) =
    Some (InputExists outpoint).
Proof. by induction indices. Qed.

(** The input loop of the merge over any list of indices of [pskt]. *)
Lemma loop_join_input (pskt : PartiallySignedTransaction.t) (indices : list nat) :
  ∀ (merged_pskt : PartiallySignedTransaction.t) (merged_tx : CMutableTransaction.t),
  Forall (λ i, is_Some (input_pairs pskt !! i)) indices →
  PartiallySignedTransaction.tx merged_pskt = Some merged_tx →
  loop_over (join_input pskt) indices (Joined merged_pskt) =
    Some (match first_repeated (CMutableTransaction.vin merged_tx)
                  (omap (input_pairs pskt !!.) indices).*1 with
          | Some txin => InputExists (CTxIn.prevout txin)
          | None => Joined (add_inputs merged_pskt
                              (omap (input_pairs pskt !!.) indices))
          end).
Proof.
  induction indices as [|i rest IH]; intros m mt Hall Hmt.
  - simpl. by rewrite add_inputs_nil.
  - apply Forall_cons in Hall as [[[txin psktin] Hi] Hall].
    assert (is_Some (PartiallySignedTransaction.tx pskt)) as [tx Htx].
    { unfold input_pairs in Hi. destruct (PartiallySignedTransaction.tx pskt); [by eexists|done]. }
    pose proof (proj1 (input_pairs_lookup pskt tx i txin psktin Htx) Hi) as [Hvin Hin].
    cbn [loop_over omap list_omap join_input]. rewrite Htx. cbn [mbind option_bind].
    rewrite Hvin, Hin. cbn [mbind option_bind].
    rewrite (AddInput_add_inputs m mt txin psktin Hmt). cbn [mbind option_bind].
    rewrite Hi.
    cbn [fmap list_fmap fst first_repeated].
    destruct (existsb _ _) eqn:E; cbn [mbind option_bind].
    + apply loop_join_input_exists.
    + rewrite (IH (add_inputs m [(txin, psktin)])
                 {| CMutableTransaction.vin := CMutableTransaction.vin mt ++ [txin];
                    CMutableTransaction.vout := CMutableTransaction.vout mt;
                    CMutableTransaction.nVersion := CMutableTransaction.nVersion mt;
                    CMutableTransaction.nLockTime := CMutableTransaction.nLockTime mt |});
        [|done|by unfold add_inputs; rewrite Hmt].
      simpl. by rewrite add_inputs_app.
Qed.


Lemma loop_join_output (pskt : PartiallySignedTransaction.t) (indices : list nat) :
  ∀ merged_pskt : PartiallySignedTransaction.t,
  Forall (λ i, is_Some (output_pairs pskt !! i)) indices →
  is_Some (PartiallySignedTransaction.tx merged_pskt) →
  loop_over (join_output pskt) indices merged_pskt =
    Some (add_outputs merged_pskt (omap (output_pairs pskt !!.) indices)).
Proof.
  induction indices as [|i rest IH]; intros m Hall Hm.
  - simpl. by rewrite add_outputs_nil.
  - apply Forall_cons in Hall as [[[txout psktout] Hi] Hall].
    assert (is_Some (PartiallySignedTransaction.tx pskt)) as [tx Htx].
    { unfold output_pairs in Hi.
      destruct (PartiallySignedTransaction.tx pskt); [by eexists|done]. }
    pose proof (proj1 (output_pairs_lookup pskt tx i txout psktout Htx) Hi) as [Hvout Hout].
    assert (join_output pskt i m = Some (add_outputs m [(txout, psktout)])) as Hstep.
    { unfold join_output. rewrite Htx. cbn [mbind option_bind].
      rewrite Hvout, Hout. cbn [mbind option_bind].
      by rewrite (AddOutput_add_outputs m txout psktout Hm). }
    cbn [loop_over omap list_omap]. rewrite Hstep. cbn [mbind option_bind].
    rewrite Hi, IH; [|done|].
    + by rewrite add_outputs_app.
    + destruct Hm as [mt Hmt]. unfold add_outputs. rewrite Hmt. by eexists.
Qed.

Lemma omap_lookup_seq {A} (l pre : list A) :
  omap ((pre ++ l) !!.) (seq (length pre) (length l)) = l.
Proof.
  revert pre. induction l as [|x l IH]; intros pre; [done|].
  cbn [length seq omap list_omap]. rewrite list_lookup_middle by done.
  f_equal. specialize (IH (pre ++ [x])).
  rewrite <- app_assoc, length_app in IH. simpl in IH.
  by replace (length pre + 1)%nat with (S (length pre)) in IH by lia.
Qed.

Lemma omap_lookup_all {A} (l : list A) : omap (l !!.) (seq 0 (length l)) = l.
Proof. apply (omap_lookup_seq l []). Qed.

Lemma omap_lookup_Permutation {A} (l : list A) (indices : list nat) :
  indices ≡ₚ seq 0 (length l) → omap (l !!.) indices ≡ₚ l.
Proof. intros ->. by rewrite omap_lookup_all. Qed.

Lemma pairs_in_range {A B} (l : list A) (k : list B) :
  length l = length k →
  Forall (λ i, is_Some (zip l k !! i)) (seq 0 (length l)).
Proof.
  intros Hlen. apply Forall_forall. intros i Hi%elem_of_seq.
  apply lookup_lt_is_Some. rewrite length_zip_with. lia.
Qed.

(** The body of the merge loop for one well-formed PSKT. *)
Lemma join_one_well_formed (merged_pskt pskt : PartiallySignedTransaction.t)
  (merged_tx : CMutableTransaction.t) :
  well_formed pskt →
  PartiallySignedTransaction.tx merged_pskt = Some merged_tx →
  join_one (Joined merged_pskt) pskt =
    Some (match first_repeated (CMutableTransaction.vin merged_tx)
                  (input_pairs pskt).*1 with
          | Some txin => InputExists (CTxIn.prevout txin)
          | None =>
              Joined (join_globals pskt
                        (add_outputs (add_inputs merged_pskt (input_pairs pskt))
                                     (output_pairs pskt)))
          end).
Proof.
  intros Hwf Hmt. destruct (well_formed_tx _ Hwf) as (tx & Htx & Hi & Ho).
  unfold join_one. rewrite Htx. cbn [mbind option_bind].
  rewrite (loop_join_input pskt _ merged_pskt merged_tx); [|
    unfold input_pairs; rewrite Htx; by apply pairs_in_range|done].
  cbn [mbind option_bind].
  assert (omap (input_pairs pskt !!.) (seq 0 (length (CMutableTransaction.vin tx)))
          = input_pairs pskt) as ->.
  { etrans; [|apply omap_lookup_all]. do 2 f_equal.
    unfold input_pairs. rewrite Htx, length_zip_with. lia. }
  destruct (first_repeated _ _); [done|].
  rewrite (loop_join_output pskt); [|
    unfold output_pairs; rewrite Htx; by apply pairs_in_range|
    unfold add_inputs; rewrite Hmt; by eexists].
  cbn [mbind option_bind].
  assert (omap (output_pairs pskt !!.) (seq 0 (length (CMutableTransaction.vout tx)))
          = output_pairs pskt) as ->; [|done].
  etrans; [|apply omap_lookup_all]. do 2 f_equal.
  unfold output_pairs. rewrite Htx, length_zip_with. lia.
Qed.

Lemma join_all_exists (psktxs : list PartiallySignedTransaction.t)
  (outpoint : COutPoint.t) :
  join_all psktxs (InputExists outpoint) = Some (InputExists outpoint).
Proof. by destruct psktxs. Qed.

(** The merge loop over well-formed PSKTs. *)
Lemma join_all_well_formed (psktxs : list PartiallySignedTransaction.t) :
  ∀ (merged_pskt : PartiallySignedTransaction.t) (merged_tx : CMutableTransaction.t),
  Forall well_formed psktxs →
  PartiallySignedTransaction.tx merged_pskt = Some merged_tx →
  ∃ r, join_all psktxs (Joined merged_pskt) = Some r ∧
    match first_repeated (CMutableTransaction.vin merged_tx)
            (psktxs ≫= input_pairs).*1 with
    | Some txin => r = InputExists (CTxIn.prevout txin)
    | None =>
        ∃ m tx,
          r = Joined m ∧ PartiallySignedTransaction.tx m = Some tx ∧
          CMutableTransaction.vin tx =
            CMutableTransaction.vin merged_tx ++ (psktxs ≫= input_pairs).*1 ∧
          PartiallySignedTransaction.inputs m =
            PartiallySignedTransaction.inputs merged_pskt ++
            (PSKTInput.clear_signatures <$> (psktxs ≫= input_pairs).*2) ∧
          CMutableTransaction.vout tx =
            CMutableTransaction.vout merged_tx ++ (psktxs ≫= output_pairs).*1 ∧
          PartiallySignedTransaction.outputs m =
            PartiallySignedTransaction.outputs merged_pskt ++
            (psktxs ≫= output_pairs).*2 ∧
          CMutableTransaction.nVersion tx = CMutableTransaction.nVersion merged_tx ∧
          CMutableTransaction.nLockTime tx = CMutableTransaction.nLockTime merged_tx ∧
          PartiallySignedTransaction.unknown m =
            foldl (λ acc p, insert_range acc (PartiallySignedTransaction.unknown p))
                  (PartiallySignedTransaction.unknown merged_pskt) psktxs
    end.
Proof.
  induction psktxs as [|pskt rest IH]; intros m mt Hall Hmt.
  - exists (Joined m). split; [done|]. simpl. exists m, mt.
    by rewrite !app_nil_r.
  - apply Forall_cons in Hall as [Hwf Hall].
    cbn [join_all]. rewrite (join_one_well_formed m pskt mt Hwf Hmt).
    cbn [mbind option_bind]. rewrite bind_cons, fmap_app, first_repeated_app.
    destruct (first_repeated _ (input_pairs pskt).*1) as [txin|] eqn:Hfirst.
    + exists (InputExists (CTxIn.prevout txin)). split; [|done]. apply join_all_exists.
    + set (m1 := join_globals pskt _).
      set (mt1 := {| CMutableTransaction.vin :=
                       CMutableTransaction.vin mt ++ (input_pairs pskt).*1;
                     CMutableTransaction.vout :=
                       CMutableTransaction.vout mt ++ (output_pairs pskt).*1;
                     CMutableTransaction.nVersion := CMutableTransaction.nVersion mt;
                     CMutableTransaction.nLockTime := CMutableTransaction.nLockTime mt |}).
      assert (PartiallySignedTransaction.tx m1 = Some mt1) as Hmt1.
      { unfold m1, join_globals, add_outputs, add_inputs. simpl. by rewrite Hmt. }
      destruct (IH m1 mt1 Hall Hmt1) as (r & Hr & Hspec).
      exists r. split; [done|]. change (CMutableTransaction.vin mt1) with
        (CMutableTransaction.vin mt ++ (input_pairs pskt).*1) in Hspec.
      destruct (first_repeated _ (rest ≫= input_pairs).*1); [done|].
      destruct Hspec as (m' & tx' & -> & Htx' & Hvin & Hin & Hvout & Hout & Hv & Hl & Hu).
      exists m', tx'. rewrite !bind_cons, !fmap_app, !app_assoc.
      split_and!; done.
Qed.

Lemma loop_shuffle_input (merged_pskt : PartiallySignedTransaction.t)
  (indices : list nat) :
  ∀ shuffled_pskt shuffled_pskt' : PartiallySignedTransaction.t,
  loop_over (join_input merged_pskt) indices (Joined shuffled_pskt)
    = Some (Joined shuffled_pskt') →
  loop_over (shuffle_input merged_pskt) indices shuffled_pskt = Some shuffled_pskt'.
Proof.
  induction indices as [|i rest IH]; intros s s' Hloop.
  - simpl in *. by simplify_eq.
  - cbn [loop_over] in *.
    destruct (join_input merged_pskt i (Joined s)) as [[s1|outpoint]|] eqn:Hstep;
      cbn [mbind option_bind] in Hloop; [| |done].
    + assert (shuffle_input merged_pskt i s = Some s1) as ->; [|by apply IH].
      unfold join_input in Hstep. unfold shuffle_input.
      destruct (PartiallySignedTransaction.tx merged_pskt) as [tx|]; [|done].
      cbn [mbind option_bind] in *.
      destruct (CMutableTransaction.vin tx !! i) as [txin|]; [|done].
      cbn [mbind option_bind] in *.
      destruct (PartiallySignedTransaction.inputs merged_pskt !! i) as [psktin|]; [|done].
      cbn [mbind option_bind] in *.
      destruct (PartiallySignedTransaction.AddInput s txin psktin)
        as [[[[] s2] psktin']|]; cbn [mbind option_bind] in *; by simplify_eq.
    + by rewrite loop_join_input_exists in Hloop.
Qed.

Lemma zip_added_input (pairs : list (CTxIn.t * PSKTInput.t)) :
  zip pairs.*1 (PSKTInput.clear_signatures <$> pairs.*2) = added_input <$> pairs.
Proof. induction pairs as [|[] ? IH]; [done|]. simpl. by f_equal. Qed.

Lemma added_input_idemp (pair : CTxIn.t * PSKTInput.t) :
  added_input (added_input pair) = added_input pair.
Proof. by destruct pair. Qed.

(** The first loop of [joinpskts]: the version chosen is the largest of 1
    and the versions read as [uint32_t], the lock time the smallest of
    [0xffffffff] and the lock times. *)
Lemma join_best_well_formed (psktxs : list PartiallySignedTransaction.t) :
  ∀ best : Z * N,
  Forall well_formed psktxs →
  ∃ best_version best_locktime,
    join_best psktxs best = Some (best_version, best_locktime) ∧
    (best.1 ≤ best_version ∧
     ∀ p tx, p ∈ psktxs → PartiallySignedTransaction.tx p = Some tx →
             to_uint32 (CMutableTransaction.nVersion tx) ≤ best_version) ∧
    (best_version = best.1 ∨
     ∃ p tx, p ∈ psktxs ∧ PartiallySignedTransaction.tx p = Some tx ∧
             best_version = to_uint32 (CMutableTransaction.nVersion tx)) ∧
    ((best_locktime ≤ best.2)%N ∧
     ∀ p tx, p ∈ psktxs → PartiallySignedTransaction.tx p = Some tx →
             (best_locktime ≤ CMutableTransaction.nLockTime tx)%N) ∧
    (best_locktime = best.2 ∨
     ∃ p tx, p ∈ psktxs ∧ PartiallySignedTransaction.tx p = Some tx ∧
             best_locktime = CMutableTransaction.nLockTime tx).
Proof.
  induction psktxs as [|p rest IH]; intros [v l] Hall.
  - exists v, l. simpl. split_and!; try done; try lia; try by left.
    all: by intros ?? ?%elem_of_nil.
  - apply Forall_cons in Hall as [Hwf Hall].
    destruct (well_formed_tx _ Hwf) as (tx & Htx & _).
    cbn [join_best]. rewrite Htx. cbn [mbind option_bind fst snd].
    set (v' := if v <? _ then _ else v). set (l' := if (_ <? l)%N then _ else l).
    destruct (IH (v', l') Hall) as (bv & bl & -> & [Hv1 Hv2] & Hv3 & [Hl1 Hl2] & Hl3).
    cbn [fst snd] in *.
    assert (v ≤ v' ∧ to_uint32 (CMutableTransaction.nVersion tx) ≤ v' ∧
            (v' = v ∨ v' = to_uint32 (CMutableTransaction.nVersion tx))) as (? & ? & Hv').
    { unfold v'. destruct (Z.ltb_spec v (to_uint32 (CMutableTransaction.nVersion tx)));
        split_and!; try lia; first [by left|by right]. }
    assert ((l' ≤ l)%N ∧ (l' ≤ CMutableTransaction.nLockTime tx)%N ∧
            (l' = l ∨ l' = CMutableTransaction.nLockTime tx)) as (? & ? & Hl').
    { unfold l'. destruct (N.ltb_spec (CMutableTransaction.nLockTime tx) l);
        split_and!; try lia; first [by left|by right]. }
    exists bv, bl. split_and!; [done|lia| | |lia| |].
    + intros q tq [->|Hq]%elem_of_cons Htq; [|by apply (Hv2 q)].
      rewrite Htx in Htq. injection Htq as <-. lia.
    + destruct Hv3 as [->|(q & tq & Hq & Htq & ->)].
      * destruct Hv' as [->| ->]; [by left|]. right. exists p, tx.
        split_and!; [left|done|done].
      * right. exists q, tq. split_and!; [by right|done|done].
    + intros q tq [->|Hq]%elem_of_cons Htq; [|by apply (Hl2 q)].
      rewrite Htx in Htq. injection Htq as <-. lia.
    + destruct Hl3 as [->|(q & tq & Hq & Htq & ->)].
      * destruct Hl' as [->| ->]; [by left|]. right. exists p, tx.
        split_and!; [left|done|done].
      * right. exists q, tq. split_and!; [by right|done|done].
Qed.

(** The shuffled copy of a merged PSKT whose inputs are pairwise different
    for [CTxIn::operator==]. *)
Lemma shuffle_pskt_well_formed (merged_pskt : PartiallySignedTransaction.t)
  (merged_tx : CMutableTransaction.t) (input_indices output_indices : list nat) :
  PartiallySignedTransaction.tx merged_pskt = Some merged_tx →
  NoDup (CTxIn_key <$> (input_pairs merged_pskt).*1) →
  input_indices ≡ₚ seq 0 (length (input_pairs merged_pskt)) →
  output_indices ≡ₚ seq 0 (length (output_pairs merged_pskt)) →
  ∃ s tx P Q,
    shuffle_pskt merged_pskt input_indices output_indices = Some s ∧
    P ≡ₚ input_pairs merged_pskt ∧ Q ≡ₚ output_pairs merged_pskt ∧
    PartiallySignedTransaction.tx s = Some tx ∧
    CMutableTransaction.vin tx = P.*1 ∧
    PartiallySignedTransaction.inputs s = PSKTInput.clear_signatures <$> P.*2 ∧
    CMutableTransaction.vout tx = Q.*1 ∧
    PartiallySignedTransaction.outputs s = Q.*2 ∧
    CMutableTransaction.nVersion tx = CMutableTransaction.nVersion merged_tx ∧
    CMutableTransaction.nLockTime tx = CMutableTransaction.nLockTime merged_tx ∧
    PartiallySignedTransaction.m_xpubs s = ∅ ∧
    PartiallySignedTransaction.unknown s = PartiallySignedTransaction.unknown merged_pskt ∧
    PartiallySignedTransaction.m_version s = None ∧
    PartiallySignedTransaction.m_proprietary s = ∅.
Proof.
  intros Hmt Hdistinct Hin Hout.
  set (P := omap (input_pairs merged_pskt !!.) input_indices).
  set (Q := omap (output_pairs merged_pskt !!.) output_indices).
  assert (P ≡ₚ input_pairs merged_pskt) as HP by by apply omap_lookup_Permutation.
  assert (Q ≡ₚ output_pairs merged_pskt) as HQ by by apply omap_lookup_Permutation.
  set (s0 := join_start (CMutableTransaction.nVersion merged_tx)
                        (CMutableTransaction.nLockTime merged_tx)).
  assert (loop_over (shuffle_input merged_pskt) input_indices s0
            = Some (add_inputs s0 P)) as Hloop1.
  { apply loop_shuffle_input.
    rewrite (loop_join_input merged_pskt input_indices s0
               {| CMutableTransaction.vin := []; CMutableTransaction.vout := [];
                  CMutableTransaction.nVersion := CMutableTransaction.nVersion merged_tx;
                  CMutableTransaction.nLockTime :=
                    CMutableTransaction.nLockTime merged_tx |}); [| |done].
    - fold P. cbn [CMutableTransaction.vin].
      assert (first_repeated [] P.*1 = None) as ->; [|done].
      apply first_repeated_None. split; [by rewrite HP|].
      intros ? _ []%elem_of_nil.
    - apply Forall_forall. intros i Hi. rewrite Hin in Hi.
      apply elem_of_seq in Hi. apply lookup_lt_is_Some. lia. }
  assert (loop_over (join_output merged_pskt) output_indices (add_inputs s0 P)
            = Some (add_outputs (add_inputs s0 P) Q)) as Hloop2.
  { apply loop_join_output; [|by eexists].
    apply Forall_forall. intros i Hi. rewrite Hout in Hi.
    apply elem_of_seq in Hi. apply lookup_lt_is_Some. lia. }
  unfold shuffle_pskt. rewrite Hmt. cbn [mbind option_bind]. fold s0.
  rewrite Hloop1. cbn [mbind option_bind]. rewrite Hloop2. cbn [mbind option_bind].
  eexists _, _, P, Q. split; [reflexivity|]. split; [done|]. split; [done|].
  cbn. split; [reflexivity|]. cbn.
  split_and!; try done. unfold insert_range. by rewrite (left_id_L ∅ (∪)).
Qed.

(** What [joinpskts] answers for two or more well-formed PSKTs, whatever
    permutations [Shuffle] draws. *)
Lemma joinpskts_inv (psktxs : list PartiallySignedTransaction.t)
  (shuffle_inputs shuffle_outputs : list nat → list nat) :
  Forall well_formed psktxs →
  (1 < length psktxs)%nat →
  (∀ l, shuffle_inputs l ≡ₚ l) → (∀ l, shuffle_outputs l ≡ₚ l) →
  ∃ best_version best_locktime r,
    join_best psktxs (1, 4294967295%N) = Some (best_version, best_locktime) ∧
    joinpskts psktxs shuffle_inputs shuffle_outputs = Some r ∧
    match first_repeated [] (psktxs ≫= input_pairs).*1 with
    | Some txin => r = InputInMultiplePSKTs (CTxIn.prevout txin)
    | None =>
        ∃ s tx,
          r = JoinedPSKT s ∧ well_formed s ∧
          PartiallySignedTransaction.tx s = Some tx ∧
          input_pairs s ≡ₚ added_input <$> (psktxs ≫= input_pairs) ∧
          output_pairs s ≡ₚ psktxs ≫= output_pairs ∧
          CMutableTransaction.nVersion tx = to_int32 best_version ∧
          CMutableTransaction.nLockTime tx = best_locktime ∧
          PartiallySignedTransaction.m_xpubs s = ∅ ∧
          PartiallySignedTransaction.unknown s =
            foldl (λ acc p, insert_range acc (PartiallySignedTransaction.unknown p))
                  ∅ psktxs ∧
          PartiallySignedTransaction.m_version s = None ∧
          PartiallySignedTransaction.m_proprietary s = ∅
    end.
Proof.
  intros Hall Hlen Hsi Hso.
  destruct (join_best_well_formed psktxs (1, 4294967295%N) Hall)
    as (bv & bl & Hbest & _).
  exists bv, bl. unfold joinpskts.
  destruct (Nat.leb_spec (length psktxs) 1) as [?|_]; [lia|].
  rewrite Hbest. cbn [mbind option_bind].
  set (m0 := join_start (to_int32 bv) bl).
  destruct (join_all_well_formed psktxs m0
              {| CMutableTransaction.vin := []; CMutableTransaction.vout := [];
                 CMutableTransaction.nVersion := to_int32 bv;
                 CMutableTransaction.nLockTime := bl |} Hall eq_refl)
    as (r & -> & Hr).
  cbn [mbind option_bind CMutableTransaction.vin] in *.
  destruct (first_repeated [] (psktxs ≫= input_pairs).*1) as [txin|] eqn:Hfirst.
  { subst r. eexists. split; [done|]. split; [reflexivity|done]. }
  destruct Hr as (m & mt & -> & Hmt & Hvin & Hin & Hvout & Hout & Hv & Hl & Hu).
  cbn [app CMutableTransaction.vout CMutableTransaction.nVersion
       CMutableTransaction.nLockTime] in *.
  change (PartiallySignedTransaction.inputs m0) with (@nil PSKTInput.t) in Hin.
  change (PartiallySignedTransaction.outputs m0) with (@nil PSKTOutput.t) in Hout.
  change (PartiallySignedTransaction.unknown m0) with (∅ : gmap bytes bytes) in Hu.
  cbn [app] in *.
  assert (input_pairs m = added_input <$> (psktxs ≫= input_pairs)) as Hpairs.
  { unfold input_pairs at 1. rewrite Hmt, Hvin, Hin. apply zip_added_input. }
  assert (output_pairs m = psktxs ≫= output_pairs) as Hopairs.
  { unfold output_pairs at 1. rewrite Hmt, Hvout, Hout. apply zip_fst_snd. }
  destruct (shuffle_pskt_well_formed m mt
              (shuffle_inputs (seq 0 (length (PartiallySignedTransaction.inputs m))))
              (shuffle_outputs (seq 0 (length (PartiallySignedTransaction.outputs m))))
              Hmt)
    as (s & tx & P & Q & -> & HP & HQ & Htx & Hsvin & Hsin & Hsvout & Hsout &
        Hsv & Hsl & Hx & Hsu & Hmv & Hmp).
  - apply first_repeated_None in Hfirst as [Hnodup _].
    rewrite Hpairs.
    assert ((added_input <$> (psktxs ≫= input_pairs)).*1 = (psktxs ≫= input_pairs).*1)
      as ->; [|done].
    rewrite <- list_fmap_compose. apply list_fmap_ext. by intros ? [] _.
  - rewrite Hsi. f_equal. by rewrite Hpairs, Hin, !length_fmap.
  - rewrite Hso. f_equal. by rewrite Hopairs, Hout, !length_fmap.
  - eexists. split; [done|]. split; [reflexivity|]. exists s, tx.
    split_and!; try done.
    + unfold well_formed. rewrite Htx, Hsvin, Hsin, Hsvout, Hsout.
      by rewrite !length_fmap.
    + unfold input_pairs. rewrite Htx, Hsvin, Hsin, zip_added_input, HP, Hpairs.
      rewrite <- list_fmap_compose.
      assert ((added_input ∘ added_input) <$> (psktxs ≫= input_pairs)
              = added_input <$> (psktxs ≫= input_pairs)) as ->; [|done].
      apply list_fmap_ext. intros ? pair _. apply added_input_idemp.
    + unfold output_pairs. by rewrite Htx, Hsvout, Hsout, zip_fst_snd, HQ, Hopairs.
    + congruence.
    + congruence.
    + congruence.
Qed.

Lemma joinpskts_joined_length (psktxs : list PartiallySignedTransaction.t)
  (shuffle_inputs shuffle_outputs : list nat → list nat)
  (s : PartiallySignedTransaction.t) :
  joinpskts psktxs shuffle_inputs shuffle_outputs = Some (JoinedPSKT s) →
  (1 < length psktxs)%nat.
Proof.
  unfold joinpskts. destruct (Nat.leb_spec (length psktxs) 1); [done|lia].
Qed.

Lemma foldl_insert_range_lookup {A} `{Countable K} {V} (f : A → gmap K V)
  (l : list A) (k : K) (v : V) :
  ∀ acc : gmap K V,
  foldl (λ acc x, insert_range acc (f x)) acc l !! k = Some v ↔
  acc !! k = Some v ∨
  (acc !! k = None ∧
   ∃ i x, l !! i = Some x ∧ f x !! k = Some v ∧
          ∀ j y, (j < i)%nat → l !! j = Some y → f y !! k = None).
Proof.
  induction l as [|x l IH]; intros acc; simpl.
  - split; [by left|]. intros [?|(_ & i & y & Hi & _)]; [done|].
    by rewrite lookup_nil in Hi.
  - rewrite IH. unfold insert_range. rewrite lookup_union_Some_raw, lookup_union_None.
    split.
    + intros [[Hacc|[Hacc Hx]]|[[Hacc Hx] (i & y & Hi & Hy & Hbefore)]].
      * by left.
      * right. split; [done|]. exists 0%nat, x. split_and!; [done..|]. intros; lia.
      * right. split; [done|]. exists (S i), y. split_and!; [done..|].
        intros [|j] z Hj Hz; simpl in Hz; [by simplify_eq|]. apply (Hbefore j); [lia|done].
    + intros [Hacc|[Hacc (i & y & Hi & Hy & Hbefore)]]; [by left; left|].
      destruct i as [|i].
      * left. right. simpl in Hi. by simplify_eq.
      * right. split.
        -- split; [done|]. apply (Hbefore 0%nat); [lia|done].
        -- exists i, y. split_and!; [done..|]. intros j z Hj Hz.
           apply (Hbefore (S j)); [lia|done].
Qed.

(** X24: the PSKT [joinpskts] answers with is well formed and holds every
    input of every joined PSKT with its record, cleared of its signatures,
    and every output with its record: each exactly as often as the joined
    PSKTs hold it (in the order [Shuffle] drew). *)
Theorem joinpskts_joins_inputs_and_outputs
  (psktxs : list PartiallySignedTransaction.t)
  (shuffle_inputs shuffle_outputs : list nat → list nat)
  (s : PartiallySignedTransaction.t) :
  Forall well_formed psktxs →
  (∀ l, shuffle_inputs l ≡ₚ l) → (∀ l, shuffle_outputs l ≡ₚ l) →
  joinpskts psktxs shuffle_inputs shuffle_outputs = Some (JoinedPSKT s) →
  well_formed s ∧
  input_pairs s ≡ₚ added_input <$> (psktxs ≫= input_pairs) ∧
  output_pairs s ≡ₚ psktxs ≫= output_pairs.
Proof.
  intros Hall Hsi Hso Hjoin.
  destruct (joinpskts_inv psktxs shuffle_inputs shuffle_outputs Hall
              (joinpskts_joined_length _ _ _ _ Hjoin) Hsi Hso)
    as (bv & bl & r & _ & Hr & Hspec).
  rewrite Hjoin in Hr. injection Hr as <-.
  destruct (first_repeated _ _); [done|].
  destruct Hspec as (s' & tx & [= <-] & Hwf & _ & Hin & Hout & _). done.
Qed.

Lemma joinpskts_joins_inputs_and_outputs_witness :
  ∃ s,
    joinpskts [Sample.signed_segwit; Sample.other_tx] reverse reverse
      = Some (JoinedPSKT s) ∧
    well_formed s ∧
    input_pairs s ≡ₚ
      added_input <$> ([Sample.signed_segwit; Sample.other_tx]
                         ≫= input_pairs) ∧
    output_pairs s ≡ₚ
      [Sample.signed_segwit; Sample.other_tx] ≫= output_pairs.
Proof.
  destruct (joinpskts [Sample.signed_segwit; Sample.other_tx] reverse reverse)
    as [[s| |]|] eqn:Hjoin; [|vm_compute in Hjoin; discriminate..].
  exists s. split; [reflexivity|].
  apply (joinpskts_joins_inputs_and_outputs [Sample.signed_segwit; Sample.other_tx] reverse reverse s).
  - repeat apply Forall_cons_2; [split; reflexivity..|apply Forall_nil_2].
  - apply reverse_Permutation.
  - apply reverse_Permutation.
  - exact Hjoin.
Defined.

(** X25: [joinpskts] throws "Input ... exists in multiple PSKTs" exactly
    when the inputs of the PSKTs, taken in order, hold one that equals an
    earlier one for [CTxIn::operator==] (same outpoint, scriptSig and
    sequence number), and it names the outpoint of the first such input;
    when all inputs differ it answers with a joined PSKT. *)
Theorem joinpskts_refuses_repeated_input
  (psktxs : list PartiallySignedTransaction.t)
  (shuffle_inputs shuffle_outputs : list nat → list nat) :
  Forall well_formed psktxs →
  (1 < length psktxs)%nat →
  (∀ l, shuffle_inputs l ≡ₚ l) → (∀ l, shuffle_outputs l ≡ₚ l) →
  (NoDup (CTxIn_key <$> (psktxs ≫= input_pairs).*1) ∧
   ∃ s, joinpskts psktxs shuffle_inputs shuffle_outputs = Some (JoinedPSKT s)) ∨
  (∃ before txin after,
     (psktxs ≫= input_pairs).*1 = before ++ txin :: after ∧
     NoDup (CTxIn_key <$> before) ∧
     CTxIn_key txin ∈ CTxIn_key <$> before ∧
     joinpskts psktxs shuffle_inputs shuffle_outputs =
       Some (InputInMultiplePSKTs (CTxIn.prevout txin))).
Proof.
  intros Hall Hlen Hsi Hso.
  destruct (joinpskts_inv psktxs shuffle_inputs shuffle_outputs Hall Hlen Hsi Hso)
    as (bv & bl & r & _ & Hr & Hspec).
  destruct (first_repeated _ _) as [txin|] eqn:Hfirst.
  - right. subst r.
    apply first_repeated_Some in Hfirst as (before & after & Hsplit & Hnone & Hin).
    exists before, txin, after. split_and!; [done| |done|done].
    by apply first_repeated_None in Hnone as [? _].
  - left. destruct Hspec as (s & tx & -> & _).
    split; [|by exists s]. by apply first_repeated_None in Hfirst as [? _].
Qed.

Lemma joinpskts_refuses_repeated_input_witness :
  (NoDup (CTxIn_key <$> ([Sample.other_tx; Sample.spend_7_0; Sample.other_tx]
                           ≫= input_pairs).*1) ∧
   ∃ s, joinpskts [Sample.other_tx; Sample.spend_7_0; Sample.other_tx] reverse reverse
          = Some (JoinedPSKT s)) ∨
  (∃ before txin after,
     ([Sample.other_tx; Sample.spend_7_0; Sample.other_tx] ≫= input_pairs).*1
       = before ++ txin :: after ∧
     NoDup (CTxIn_key <$> before) ∧
     CTxIn_key txin ∈ CTxIn_key <$> before ∧
     joinpskts [Sample.other_tx; Sample.spend_7_0; Sample.other_tx] reverse reverse =
       Some (InputInMultiplePSKTs (CTxIn.prevout txin))).
Proof.
  apply (joinpskts_refuses_repeated_input
           [Sample.other_tx; Sample.spend_7_0; Sample.other_tx] reverse reverse).
  - repeat apply Forall_cons_2; [split; reflexivity..|apply Forall_nil_2].
  - simpl. lia.
  - apply reverse_Permutation.
  - apply reverse_Permutation.
Defined.

(** X26: the joined transaction has the largest version of the joined
    transactions, compared as [uint32_t] and not below 1, and the smallest
    of their lock times. *)
Theorem joinpskts_version_and_locktime
  (psktxs : list PartiallySignedTransaction.t)
  (shuffle_inputs shuffle_outputs : list nat → list nat)
  (s : PartiallySignedTransaction.t) :
  Forall well_formed psktxs →
  (∀ l, shuffle_inputs l ≡ₚ l) → (∀ l, shuffle_outputs l ≡ₚ l) →
  joinpskts psktxs shuffle_inputs shuffle_outputs = Some (JoinedPSKT s) →
  ∃ tx best_version,
    PartiallySignedTransaction.tx s = Some tx ∧
    CMutableTransaction.nVersion tx = to_int32 best_version ∧
    1 ≤ best_version ∧
    (∀ p tx', p ∈ psktxs → PartiallySignedTransaction.tx p = Some tx' →
              to_uint32 (CMutableTransaction.nVersion tx') ≤ best_version ∧
              (CMutableTransaction.nLockTime tx ≤ CMutableTransaction.nLockTime tx')%N) ∧
    (best_version = 1 ∨
     ∃ p tx', p ∈ psktxs ∧ PartiallySignedTransaction.tx p = Some tx' ∧
              best_version = to_uint32 (CMutableTransaction.nVersion tx')) ∧
    (CMutableTransaction.nLockTime tx ≤ 4294967295)%N ∧
    (CMutableTransaction.nLockTime tx = 4294967295%N ∨
     ∃ p tx', p ∈ psktxs ∧ PartiallySignedTransaction.tx p = Some tx' ∧
              CMutableTransaction.nLockTime tx = CMutableTransaction.nLockTime tx').
Proof.
  intros Hall Hsi Hso Hjoin.
  destruct (joinpskts_inv psktxs shuffle_inputs shuffle_outputs Hall
              (joinpskts_joined_length _ _ _ _ Hjoin) Hsi Hso)
    as (bv & bl & r & Hbest & Hr & Hspec).
  rewrite Hjoin in Hr. injection Hr as <-.
  destruct (first_repeated _ _); [done|].
  destruct Hspec as (s' & tx & [= <-] & _ & Htx & _ & _ & Hv & Hl & _).
  destruct (join_best_well_formed psktxs (1, 4294967295%N) Hall)
    as (bv' & bl' & Hbest' & [Hv1 Hv2] & Hv3 & [Hl1 Hl2] & Hl3).
  rewrite Hbest in Hbest'. injection Hbest' as <- <-. cbn [fst snd] in *.
  exists tx, bv. rewrite Hl. split_and!; try done.
  intros p tx' Hp Htx'. split; [by apply (Hv2 p)|by apply (Hl2 p)].
Qed.

Lemma joinpskts_version_and_locktime_witness :
  ∃ s,
    joinpskts [Sample.signed_segwit; Sample.other_tx] reverse reverse
      = Some (JoinedPSKT s) ∧
    ∃ tx best_version,
      PartiallySignedTransaction.tx s = Some tx ∧
      CMutableTransaction.nVersion tx = to_int32 best_version ∧
      1 ≤ best_version ∧
      (∀ p tx', p ∈ [Sample.signed_segwit; Sample.other_tx] →
                PartiallySignedTransaction.tx p = Some tx' →
                to_uint32 (CMutableTransaction.nVersion tx') ≤ best_version ∧
                (CMutableTransaction.nLockTime tx ≤ CMutableTransaction.nLockTime tx')%N) ∧
      (best_version = 1 ∨
       ∃ p tx', p ∈ [Sample.signed_segwit; Sample.other_tx] ∧
                PartiallySignedTransaction.tx p = Some tx' ∧
                best_version = to_uint32 (CMutableTransaction.nVersion tx')) ∧
      (CMutableTransaction.nLockTime tx ≤ 4294967295)%N ∧
      (CMutableTransaction.nLockTime tx = 4294967295%N ∨
       ∃ p tx', p ∈ [Sample.signed_segwit; Sample.other_tx] ∧
                PartiallySignedTransaction.tx p = Some tx' ∧
                CMutableTransaction.nLockTime tx = CMutableTransaction.nLockTime tx').
Proof.
  destruct (joinpskts [Sample.signed_segwit; Sample.other_tx] reverse reverse)
    as [[s| |]|] eqn:Hjoin; [|vm_compute in Hjoin; discriminate..].
  exists s. split; [reflexivity|].
  apply (joinpskts_version_and_locktime [Sample.signed_segwit; Sample.other_tx] reverse reverse s).
  - repeat apply Forall_cons_2; [split; reflexivity..|apply Forall_nil_2].
  - apply reverse_Permutation.
  - apply reverse_Permutation.
  - exact Hjoin.
Defined.


